(** * media/base/yuv_scale.cc: planar YUV to packed RGB32 conversion and scaling

    A shallow embedding of the reference YUV scaler: the saturation table and
    [clip], the two row converters ([ScaleYV12ToRGB32Row],
    [HalfYV12ToRGB32Row]) and the two frame scalers ([ScaleYV12ToRGB32],
    [ScaleYV16ToRGB32]), followed by the properties of the specification.

    Conventions of the embedding
    - [int] and [int32] values are integers of [Z]; the results of [int]
      multiplications, additions and divisions are wrapped to 32 bits
      ([wrap32]), as two's complement hardware does.
    - [a / b] on [int] is C division, truncating toward zero ([Z.quot]);
      [a >> k] on a signed value is the arithmetic shift ([Z.shiftr], a floor);
      [a & b] is [Z.land].
    - Memory is one flat byte-addressed store shared by the source planes and
      the destination buffer; pointers are addresses in [Z] and an address
      holds a byte or is not allocated.  A 32-bit store writes its four bytes
      least significant first (x86).
    - An access to an address that is not allocated, an access outside
      [g_rgb_clip_table], a division by zero, the division of [INT_MIN] by
      -1 and a failed [DCHECK] stop the computation with a [fault].
    - An [int] passed for a [size_t] parameter is converted modulo
      [2 ^ 64]. *)

From Stdlib Require Import ZArith List Bool Lia.
Import ListNotations.
Local Open Scope Z_scope.

(** ** Machine integers *)

Definition wrap32 (z : Z) : Z := (z + 2 ^ 31) mod 2 ^ 32 - 2 ^ 31.

Definition in_int32 (z : Z) : Prop := - 2 ^ 31 <= z < 2 ^ 31.

Definition uint8 (z : Z) : Z := z mod 256.

Definition uint32 (z : Z) : Z := z mod 2 ^ 32.

Definition int_add (a b : Z) : Z := wrap32 (a + b).
Definition int_sub (a b : Z) : Z := wrap32 (a - b).
Definition int_mul (a b : Z) : Z := wrap32 (a * b).
Definition int_neg (a : Z) : Z := wrap32 (- a).

(** The conversion of an [int] to [size_t], of 64 bits: a value that is not
    negative is unchanged, a negative one becomes [2 ^ 64] more. *)
Definition size_t_of_int (z : Z) : Z := z mod 2 ^ 64.

(** ** Outcomes *)

Inductive fault : Type :=
| ClipTableOutOfRange (index : Z)
| InvalidAccess (address : Z)
| DivisionByZero
| DivisionOverflow
| DCheckFailure.

Inductive result (A : Type) : Type :=
| Ok (a : A)
| Fault (f : fault).

Arguments Ok {A} a.
Arguments Fault {A} f.

Definition bind {A B : Type} (r : result A) (k : A -> result B) : result B :=
  match r with
  | Ok a => k a
  | Fault f => Fault f
  end.

Notation "x <- c1 ;; c2" := (bind c1 (fun x => c2))
  (at level 61, c1 at next level, right associativity).

(** [a / b] on [int]: a zero divisor, and [INT_MIN / -1], whose quotient is
    not an [int], stop the computation. *)
Definition int_div (a b : Z) : result Z :=
  if b =? 0 then Fault DivisionByZero
  else if (a =? - 2 ^ 31) && (b =? -1) then Fault DivisionOverflow
  else Ok (wrap32 (Z.quot a b)).

(** ** The saturation table *)

Definition kClipTableSize : Z := 256.
Definition kClipOverflow : Z := 128.

(** The initialiser of [g_rgb_clip_table]: 128 underflow values clipped to
    0, the 256 unclipped values, and 128 overflow values clipped to 255. *)
Definition underflow_values : list Z := repeat 0x00 (Z.to_nat kClipOverflow).

Definition unclipped_values : list Z :=
  [
    0x00; 0x01; 0x02; 0x03; 0x04; 0x05; 0x06; 0x07;
    0x08; 0x09; 0x0A; 0x0B; 0x0C; 0x0D; 0x0E; 0x0F;
    0x10; 0x11; 0x12; 0x13; 0x14; 0x15; 0x16; 0x17;
    0x18; 0x19; 0x1A; 0x1B; 0x1C; 0x1D; 0x1E; 0x1F;
    0x20; 0x21; 0x22; 0x23; 0x24; 0x25; 0x26; 0x27;
    0x28; 0x29; 0x2A; 0x2B; 0x2C; 0x2D; 0x2E; 0x2F;
    0x30; 0x31; 0x32; 0x33; 0x34; 0x35; 0x36; 0x37;
    0x38; 0x39; 0x3A; 0x3B; 0x3C; 0x3D; 0x3E; 0x3F;
    0x40; 0x41; 0x42; 0x43; 0x44; 0x45; 0x46; 0x47;
    0x48; 0x49; 0x4A; 0x4B; 0x4C; 0x4D; 0x4E; 0x4F;
    0x50; 0x51; 0x52; 0x53; 0x54; 0x55; 0x56; 0x57;
    0x58; 0x59; 0x5A; 0x5B; 0x5C; 0x5D; 0x5E; 0x5F;
    0x60; 0x61; 0x62; 0x63; 0x64; 0x65; 0x66; 0x67;
    0x68; 0x69; 0x6A; 0x6B; 0x6C; 0x6D; 0x6E; 0x6F;
    0x70; 0x71; 0x72; 0x73; 0x74; 0x75; 0x76; 0x77;
    0x78; 0x79; 0x7A; 0x7B; 0x7C; 0x7D; 0x7E; 0x7F;
    0x80; 0x81; 0x82; 0x83; 0x84; 0x85; 0x86; 0x87;
    0x88; 0x89; 0x8A; 0x8B; 0x8C; 0x8D; 0x8E; 0x8F;
    0x90; 0x91; 0x92; 0x93; 0x94; 0x95; 0x96; 0x97;
    0x98; 0x99; 0x9A; 0x9B; 0x9C; 0x9D; 0x9E; 0x9F;
    0xA0; 0xA1; 0xA2; 0xA3; 0xA4; 0xA5; 0xA6; 0xA7;
    0xA8; 0xA9; 0xAA; 0xAB; 0xAC; 0xAD; 0xAE; 0xAF;
    0xB0; 0xB1; 0xB2; 0xB3; 0xB4; 0xB5; 0xB6; 0xB7;
    0xB8; 0xB9; 0xBA; 0xBB; 0xBC; 0xBD; 0xBE; 0xBF;
    0xC0; 0xC1; 0xC2; 0xC3; 0xC4; 0xC5; 0xC6; 0xC7;
    0xC8; 0xC9; 0xCA; 0xCB; 0xCC; 0xCD; 0xCE; 0xCF;
    0xD0; 0xD1; 0xD2; 0xD3; 0xD4; 0xD5; 0xD6; 0xD7;
    0xD8; 0xD9; 0xDA; 0xDB; 0xDC; 0xDD; 0xDE; 0xDF;
    0xE0; 0xE1; 0xE2; 0xE3; 0xE4; 0xE5; 0xE6; 0xE7;
    0xE8; 0xE9; 0xEA; 0xEB; 0xEC; 0xED; 0xEE; 0xEF;
    0xF0; 0xF1; 0xF2; 0xF3; 0xF4; 0xF5; 0xF6; 0xF7;
    0xF8; 0xF9; 0xFA; 0xFB; 0xFC; 0xFD; 0xFE; 0xFF ].

Definition overflow_values : list Z := repeat 0xFF (Z.to_nat kClipOverflow).

Definition g_rgb_clip_table : list Z :=
  underflow_values ++ unclipped_values ++ overflow_values.

(** [g_rgb_clip_table[index]]: the array has
    [kClipOverflow + kClipTableSize + kClipOverflow] elements and an index
    outside it is a fault. *)
Definition table_at (index : Z) : result Z :=
  if (0 <=? index) && (index <? kClipOverflow + kClipTableSize + kClipOverflow)
  then Ok (nth (Z.to_nat index) g_rgb_clip_table 0)
  else Fault (ClipTableOutOfRange index).

(** [static inline uint32 clip(int32 value)] *)
Definition clip (value : Z) : result Z :=
  c <- table_at (Z.shiftr value 8 + kClipOverflow) ;;
  Ok (uint32 c).

(** ** Memory *)

Definition mem : Type := Z -> option Z.

(** A [uint8] read through a pointer. *)
Definition load8 (m : mem) (p : Z) : result Z :=
  match m p with
  | Some b => Ok (uint8 b)
  | None => Fault (InvalidAccess p)
  end.

(** The memory with byte [p] replaced. *)
Definition poke8 (m : mem) (p v : Z) : mem :=
  fun a => if a =? p then Some (uint8 v) else m a.

(** A [uint8] write through a pointer. *)
Definition store8 (m : mem) (p v : Z) : result mem :=
  match m p with
  | Some _ => Ok (poke8 m p v)
  | None => Fault (InvalidAccess p)
  end.

(** [*reinterpret_cast<uint32*>(p) = v] *)
Definition store32 (m : mem) (p v : Z) : result mem :=
  m <- store8 m p v ;;
  m <- store8 m (p + 1) (Z.shiftr v 8) ;;
  m <- store8 m (p + 2) (Z.shiftr v 16) ;;
  store8 m (p + 3) (Z.shiftr v 24).

(** The 32-bit pixel stored at [p], read back. *)
Definition load32 (m : mem) (p : Z) : result Z :=
  b0 <- load8 m p ;;
  b1 <- load8 m (p + 1) ;;
  b2 <- load8 m (p + 2) ;;
  b3 <- load8 m (p + 3) ;;
  Ok (Z.lor (Z.lor (Z.lor b0 (Z.shiftl b1 8)) (Z.shiftl b2 16))
            (Z.shiftl b3 24)).

(** ** Row converters *)

(** The loop of [ScaleYV12ToRGB32Row]; [n] is the number of iterations left,
    [rgb_buf] and [scaled_x] are the loop's running variables.  The colour
    arithmetic is on values of at most 18 bits and cannot wrap. *)
Fixpoint ScaleYV12ToRGB32Row_loop (n : nat) (y_buf u_buf v_buf : Z)
    (scaled_dx : Z) (rgb_buf scaled_x : Z) (m : mem) : result mem :=
  match n with
  | O => Ok m
  | S n' =>
    u <- load8 m (u_buf + Z.shiftr scaled_x 5) ;;
    v <- load8 m (v_buf + Z.shiftr scaled_x 5) ;;
    let d := u - 128 in
    let e := v - 128 in
    let cb := 516 * d + 128 in
    let cg := - 100 * d - 208 * e + 128 in
    let cr := 409 * e + 128 in
    y0 <- load8 m (y_buf + Z.shiftr scaled_x 4) ;;
    y1 <- load8 m (y_buf + (Z.shiftr scaled_x 4 + 1)) ;;
    let y0 :=
      match Z.shiftr (Z.land scaled_x 15) 2 with
      | 1 => uint8 (Z.shiftr (y0 + y0 + y0 + y1) 2)
      | 2 => uint8 (Z.shiftr (y0 + y1) 1)
      | 3 => uint8 (Z.shiftr (y0 + y1 + y1 + y1) 2)
      | _ => y0
      end in
    let C298a := (y0 - 16) * 298 + 128 in
    b <- clip (C298a + cb) ;;
    g <- clip (C298a + cg) ;;
    r <- clip (C298a + cr) ;;
    m' <- store32 m rgb_buf
            (Z.lor (Z.lor (Z.lor b (uint32 (Z.shiftl g 8)))
                          (uint32 (Z.shiftl r 16)))
                   0xff000000) ;;
    ScaleYV12ToRGB32Row_loop n' y_buf u_buf v_buf scaled_dx
      (rgb_buf + 4) (int_add scaled_x scaled_dx) m'
  end.

Definition ScaleYV12ToRGB32Row (y_buf u_buf v_buf rgb_buf : Z)
    (width scaled_width : Z) (m : mem) : result mem :=
  scaled_dx <- int_div (int_mul width 16) scaled_width ;;
  ScaleYV12ToRGB32Row_loop (Z.to_nat scaled_width) y_buf u_buf v_buf
    scaled_dx rgb_buf 0 m.

(** The loop of [HalfYV12ToRGB32Row], with its counter [x]. *)
Fixpoint HalfYV12ToRGB32Row_loop (n : nat) (y_buf u_buf v_buf : Z)
    (rgb_buf x : Z) (m : mem) : result mem :=
  match n with
  | O => Ok m
  | S n' =>
    u <- load8 m (u_buf + x) ;;
    v <- load8 m (v_buf + x) ;;
    let d := u - 128 in
    let e := v - 128 in
    let cb := 516 * d + 128 in
    let cg := - 100 * d - 208 * e + 128 in
    let cr := 409 * e + 128 in
    y0 <- load8 m (y_buf + int_add (int_mul x 2) 0) ;;
    y1 <- load8 m (y_buf + int_add (int_mul x 2) 1) ;;
    let C298a := (Z.shiftr (y0 + y1) 1 - 16) * 298 + 128 in
    b <- clip (C298a + cb) ;;
    g <- clip (C298a + cg) ;;
    r <- clip (C298a + cr) ;;
    m' <- store32 m rgb_buf
            (Z.lor (Z.lor (Z.lor b (uint32 (Z.shiftl g 8)))
                          (uint32 (Z.shiftl r 16)))
                   0xff000000) ;;
    HalfYV12ToRGB32Row_loop n' y_buf u_buf v_buf (rgb_buf + 4) (x + 1) m'
  end.

Definition HalfYV12ToRGB32Row (y_buf u_buf v_buf rgb_buf : Z)
    (width : Z) (m : mem) : result mem :=
  HalfYV12ToRGB32Row_loop (Z.to_nat width) y_buf u_buf v_buf rgb_buf 0 m.

(** ** Frame scalers *)

(** Modelled from the spec: [enum Rotate] is declared in media/base/yuv_scale.h,
    which is not among the sources; its eight values are the rotations the
    specification lists, under the names the scalers use. *)
Inductive Rotate : Type :=
| ROTATE_0
| ROTATE_90
| ROTATE_180
| ROTATE_270
| MIRROR_ROTATE_0
| MIRROR_ROTATE_90
| MIRROR_ROTATE_180
| MIRROR_ROTATE_270.

Definition Rotate_eqb (a b : Rotate) : bool :=
  match a, b with
  | ROTATE_0, ROTATE_0 | ROTATE_90, ROTATE_90
  | ROTATE_180, ROTATE_180 | ROTATE_270, ROTATE_270
  | MIRROR_ROTATE_0, MIRROR_ROTATE_0 | MIRROR_ROTATE_90, MIRROR_ROTATE_90
  | MIRROR_ROTATE_180, MIRROR_ROTATE_180
  | MIRROR_ROTATE_270, MIRROR_ROTATE_270 => true
  | _, _ => false
  end.

Infix "==" := Rotate_eqb (at level 70, no associativity).

(** The plane pointers and the extent after one of the two rebasing blocks. *)
Record planes : Type := Planes {
  p_y : Z;
  p_u : Z;
  p_v : Z;
  p_extent : Z
}.

(** [a / b] for a constant [b <> 0]. *)
Definition int_divc (a b : Z) : Z := wrap32 (Z.quot a b).

Section FrameScalers.

(** Modelled from the spec: with [_DEBUG] set, [DCHECK] comes from
    base/logging.h, which is not among the sources; the specification calls
    it a debug-only sanity check, and a failed check stops the call.  Without
    [_DEBUG] the file itself defines [DCHECK(a)] as nothing. *)
Variable DEBUG : bool.

(** [extern "C" ConvertYV12ToRGB32Row(y_buf, u_buf, v_buf, rgb_buf, width)],
    defined outside this file; its [width] is a [size_t]. *)
Variable ConvertYV12ToRGB32Row : Z -> Z -> Z -> Z -> Z -> mem -> result mem.

Definition DCHECK (a : bool) : result unit :=
  if DEBUG && negb a then Fault DCheckFailure else Ok tt.

(** Rotations that start at right side of image. *)
Definition rebase_right (view_rotate : Rotate) (y_buf u_buf v_buf width : Z)
  : planes :=
  if (view_rotate == ROTATE_180) || (view_rotate == ROTATE_270) ||
     (view_rotate == MIRROR_ROTATE_0) || (view_rotate == MIRROR_ROTATE_90)
  then Planes (y_buf + int_sub width 1)
              (u_buf + int_sub (int_divc width 2) 1)
              (v_buf + int_sub (int_divc width 2) 1)
              (int_neg width)
  else Planes y_buf u_buf v_buf width.

(** Rotations that start at bottom of image, for YV12. *)
Definition rebase_bottom_yv12 (view_rotate : Rotate)
    (y_buf u_buf v_buf height y_pitch uv_pitch : Z) : planes :=
  if (view_rotate == ROTATE_90) || (view_rotate == ROTATE_180) ||
     (view_rotate == MIRROR_ROTATE_90) || (view_rotate == MIRROR_ROTATE_180)
  then Planes (y_buf + int_mul (int_sub height 1) y_pitch)
              (u_buf + int_mul (int_sub (int_divc height 2) 1) uv_pitch)
              (v_buf + int_mul (int_sub (int_divc height 2) 1) uv_pitch)
              (int_neg height)
  else Planes y_buf u_buf v_buf height.

(** Rotations that start at bottom of image, for YV16. *)
Definition rebase_bottom_yv16 (view_rotate : Rotate)
    (y_buf u_buf v_buf height y_pitch uv_pitch : Z) : planes :=
  if (view_rotate == ROTATE_90) || (view_rotate == ROTATE_180) ||
     (view_rotate == MIRROR_ROTATE_90) || (view_rotate == MIRROR_ROTATE_180)
  then Planes (y_buf + int_mul (int_sub height 1) y_pitch)
              (u_buf + int_mul (int_sub height 1) uv_pitch)
              (v_buf + int_mul (int_sub height 1) uv_pitch)
              (int_neg height)
  else Planes y_buf u_buf v_buf height.

(** Only these rotations are implemented. *)
Definition implemented (view_rotate : Rotate) : bool :=
  (view_rotate == ROTATE_0) || (view_rotate == ROTATE_180) ||
  (view_rotate == MIRROR_ROTATE_0) || (view_rotate == MIRROR_ROTATE_180).

(** The row loop of [ScaleYV12ToRGB32], run in order ([_OPENMP] unset):
    [n] rows are left and [y] is the loop counter, which stays below
    [scaled_height]. *)
Fixpoint ScaleYV12ToRGB32_loop (n : nat) (y : Z)
    (y_buf u_buf v_buf rgb_buf : Z)
    (width height scaled_width scaled_height : Z)
    (y_pitch uv_pitch rgb_pitch : Z) (m : mem) : result mem :=
  match n with
  | O => Ok m
  | S n' =>
    let dest_pixel := rgb_buf + int_mul y rgb_pitch in
    scaled_y <- int_div (int_mul y height) scaled_height ;;
    let y_ptr := y_buf + int_mul scaled_y y_pitch in
    let u_ptr := u_buf + int_mul (int_divc scaled_y 2) uv_pitch in
    let v_ptr := v_buf + int_mul (int_divc scaled_y 2) uv_pitch in
    m' <- (if scaled_width =? width then
             ConvertYV12ToRGB32Row y_ptr u_ptr v_ptr dest_pixel
               (size_t_of_int scaled_width) m
           else if scaled_width =? int_divc width 2 then
             HalfYV12ToRGB32Row y_ptr u_ptr v_ptr dest_pixel scaled_width m
           else
             ScaleYV12ToRGB32Row y_ptr u_ptr v_ptr dest_pixel
               width scaled_width m) ;;
    ScaleYV12ToRGB32_loop n' (y + 1) y_buf u_buf v_buf rgb_buf
      width height scaled_width scaled_height y_pitch uv_pitch rgb_pitch m'
  end.

(** Scale a frame of YV12 (aka YUV420) to 32 bit ARGB. *)
Definition ScaleYV12ToRGB32 (y_buf u_buf v_buf rgb_buf : Z)
    (width height scaled_width scaled_height : Z)
    (y_pitch uv_pitch rgb_pitch : Z) (view_rotate : Rotate) (m : mem)
  : result mem :=
  let h := rebase_right view_rotate y_buf u_buf v_buf width in
  let v := rebase_bottom_yv12 view_rotate (p_y h) (p_u h) (p_v h)
             height y_pitch uv_pitch in
  _ <- DCHECK (implemented view_rotate) ;;
  ScaleYV12ToRGB32_loop (Z.to_nat scaled_height) 0
    (p_y v) (p_u v) (p_v v) rgb_buf
    (p_extent h) (p_extent v) scaled_width scaled_height
    y_pitch uv_pitch rgb_pitch m.

Fixpoint ScaleYV16ToRGB32_loop (n : nat) (y : Z)
    (y_buf u_buf v_buf rgb_buf : Z)
    (width height scaled_width scaled_height : Z)
    (y_pitch uv_pitch rgb_pitch : Z) (m : mem) : result mem :=
  match n with
  | O => Ok m
  | S n' =>
    let dest_pixel := rgb_buf + int_mul y rgb_pitch in
    scaled_y <- int_div (int_mul y height) scaled_height ;;
    let y_ptr := y_buf + int_mul scaled_y y_pitch in
    let u_ptr := u_buf + int_mul scaled_y uv_pitch in
    let v_ptr := v_buf + int_mul scaled_y uv_pitch in
    m' <- (if scaled_width =? int_divc width 2 then
             HalfYV12ToRGB32Row y_ptr u_ptr v_ptr dest_pixel scaled_width m
           else
             ScaleYV12ToRGB32Row y_ptr u_ptr v_ptr dest_pixel
               width scaled_width m) ;;
    ScaleYV16ToRGB32_loop n' (y + 1) y_buf u_buf v_buf rgb_buf
      width height scaled_width scaled_height y_pitch uv_pitch rgb_pitch m'
  end.

(** Scale a frame of YV16 (aka YUV422) to 32 bit ARGB. *)
Definition ScaleYV16ToRGB32 (y_buf u_buf v_buf rgb_buf : Z)
    (width height scaled_width scaled_height : Z)
    (y_pitch uv_pitch rgb_pitch : Z) (view_rotate : Rotate) (m : mem)
  : result mem :=
  let h := rebase_right view_rotate y_buf u_buf v_buf width in
  let v := rebase_bottom_yv16 view_rotate (p_y h) (p_u h) (p_v h)
             height y_pitch uv_pitch in
  _ <- DCHECK (implemented view_rotate) ;;
  ScaleYV16ToRGB32_loop (Z.to_nat scaled_height) 0
    (p_y v) (p_u v) (p_v v) rgb_buf
    (p_extent h) (p_extent v) scaled_width scaled_height
    y_pitch uv_pitch rgb_pitch m.

End FrameScalers.

(** ** Specification-side definitions *)

(** [clamp x lo hi]: [x] constrained to [[lo, hi]]. *)
Definition clamp (x lo hi : Z) : Z := Z.max lo (Z.min hi x).

(** Rounding of the 8.8 value [v] to the nearest integer, halves upward. *)
Definition round_8_8 (v : Z) : Z := (v + 128) / 256.

(** The source range the table's comment gives: -128 to 384, in 8.8. *)
Definition covered (v : Z) : Prop := -128 * 256 <= v < 384 * 256.

Definition table_entry_ok (i : nat) : bool :=
  nth i g_rgb_clip_table 0 =? clamp (Z.of_nat i - kClipOverflow) 0 255.

(** The pixel of the specification's colour transform: luma and chroma
    samples in, the packed 32-bit pixel out.  The three lookups are made in
    the converters' order. *)
Definition spec_pixel (luma U V : Z) : result Z :=
  let d := U - 128 in
  let e := V - 128 in
  let cb := 516 * d + 128 in
  let cg := -100 * d - 208 * e + 128 in
  let cr := 409 * e + 128 in
  let Y' := (luma - 16) * 298 + 128 in
  B <- clip (Y' + cb) ;;
  G <- clip (Y' + cg) ;;
  R <- clip (Y' + cr) ;;
  Ok (B + G * 2 ^ 8 + R * 2 ^ 16 + 255 * 2 ^ 24).

(** Bits [8k .. 8k+7] of a pixel. *)
Definition channel (p k : Z) : Z := Z.land (Z.shiftr p (8 * k)) 255.

(** The four blend weights: 100/0, 75/25, 50/50 and 25/75 percent. *)
Definition spec_blend (pattern y0 y1 : Z) : Z :=
  if pattern =? 1 then (3 * y0 + y1) / 4
  else if pattern =? 2 then (y0 + y1) / 2
  else if pattern =? 3 then (y0 + 3 * y1) / 4
  else y0.

(** The fixed-point step and the source position of destination column [x],
    with the division rounding toward zero. *)
Definition spec_dx (width scaled_width : Z) : Z :=
  Z.quot (width * 16) scaled_width.

Definition spec_position (width scaled_width x : Z) : Z :=
  x * spec_dx width scaled_width.

(** The samples the general-ratio converter reads at source position [pos]
    and the pixel it makes of them. *)
Definition scale_pixel (m : mem) (y_buf u_buf v_buf pos : Z) : result Z :=
  U <- load8 m (u_buf + Z.shiftr pos 5) ;;
  V <- load8 m (v_buf + Z.shiftr pos 5) ;;
  y0 <- load8 m (y_buf + Z.shiftr pos 4) ;;
  y1 <- load8 m (y_buf + (Z.shiftr pos 4 + 1)) ;;
  spec_pixel (spec_blend (Z.shiftr (Z.land pos 15) 2) y0 y1) U V.

(** The same for the half-rate converter at destination column [x]. *)
Definition half_pixel (m : mem) (y_buf u_buf v_buf x : Z) : result Z :=
  U <- load8 m (u_buf + x) ;;
  V <- load8 m (v_buf + x) ;;
  y0 <- load8 m (y_buf + 2 * x) ;;
  y1 <- load8 m (y_buf + (2 * x + 1)) ;;
  spec_pixel ((y0 + y1) / 2) U V.

(** The addresses a converter reads for one destination pixel. *)
Definition scale_reads (y_buf u_buf v_buf pos : Z) : list Z :=
  [ u_buf + Z.shiftr pos 5; v_buf + Z.shiftr pos 5;
    y_buf + Z.shiftr pos 4; y_buf + (Z.shiftr pos 4 + 1) ].

Definition half_reads (y_buf u_buf v_buf x : Z) : list Z :=
  [ u_buf + x; v_buf + x; y_buf + 2 * x; y_buf + (2 * x + 1) ].

(** [a] is not one of the [4 * n] bytes of the destination row at [rgb_buf]. *)
Definition outside (rgb_buf n a : Z) : Prop :=
  a < rgb_buf \/ rgb_buf + 4 * n <= a.

(** The [4 * n] bytes of the destination row at [rgb_buf] are allocated. *)
Definition writable (m : mem) (rgb_buf n : Z) : Prop :=
  forall a, rgb_buf <= a < rgb_buf + 4 * n -> m a <> None.

(** [f x], [f (x + 1)], ... for [n] columns, stopping at the first fault. *)
Fixpoint pixels_from (f : Z -> result Z) (n : nat) (x : Z)
  : result (list Z) :=
  match n with
  | O => Ok []
  | S n' =>
    p <- f x ;;
    ps <- pixels_from f n' (x + 1) ;;
    Ok (p :: ps)
  end.

(** The memory with the four bytes of a pixel replaced, and with the
    consecutive pixels [ps] replaced from [p] on. *)
Definition poke32 (m : mem) (p v : Z) : mem :=
  poke8 (poke8 (poke8 (poke8 m p v)
                      (p + 1) (Z.shiftr v 8))
               (p + 2) (Z.shiftr v 16))
        (p + 3) (Z.shiftr v 24).

Fixpoint store_pixels (m : mem) (p : Z) (ps : list Z) : mem :=
  match ps with
  | [] => m
  | v :: ps' => store_pixels (poke32 m p v) (p + 4) ps'
  end.

(** What the specification says of one pixel: the channels of the colour
    transform, B in bits 0-7, G in bits 8-15, R in bits 16-23 and an opaque
    alpha byte. *)
Definition is_bgra_pixel (luma U V p : Z) : Prop :=
  let d := U - 128 in
  let e := V - 128 in
  let cb := 516 * d + 128 in
  let cg := -100 * d - 208 * e + 128 in
  let cr := 409 * e + 128 in
  let Y' := (luma - 16) * 298 + 128 in
  exists R G B,
    clip (Y' + cr) = Ok R /\ clip (Y' + cg) = Ok G /\ clip (Y' + cb) = Ok B /\
    channel p 0 = B /\ channel p 1 = G /\ channel p 2 = R /\
    channel p 3 = 255.

(** Well-formed calls of the row converters: a positive number of
    destination pixels, [int] arithmetic that does not overflow, and an
    allocated destination row that overlaps none of the bytes read. *)
Definition scale_row_ok (m : mem)
    (y_buf u_buf v_buf rgb_buf width scaled_width : Z) : Prop :=
  0 < scaled_width /\ in_int32 (width * 16) /\
  writable m rgb_buf scaled_width /\
  forall x, 0 <= x < scaled_width ->
    in_int32 (spec_position width scaled_width x) /\
    Forall (outside rgb_buf scaled_width)
           (scale_reads y_buf u_buf v_buf (spec_position width scaled_width x)).

Definition half_row_ok (m : mem) (y_buf u_buf v_buf rgb_buf width : Z)
  : Prop :=
  0 < width <= 2 ^ 30 /\
  writable m rgb_buf width /\
  forall x, 0 <= x < width ->
    Forall (outside rgb_buf width) (half_reads y_buf u_buf v_buf x).

(** The same conditions as boolean checks. *)
Definition in_int32b (z : Z) : bool := (- 2 ^ 31 <=? z) && (z <? 2 ^ 31).

Definition outsideb (rgb_buf n a : Z) : bool :=
  (a <? rgb_buf) || (rgb_buf + 4 * n <=? a).

Definition columns (n : Z) : list Z := map Z.of_nat (seq 0 (Z.to_nat n)).

Definition allocated (m : mem) (a : Z) : bool :=
  match m a with
  | Some _ => true
  | None => false
  end.

Definition writableb (m : mem) (rgb_buf n : Z) : bool :=
  forallb (fun i => allocated m (rgb_buf + i)) (columns (4 * n)).

Definition scale_row_okb (m : mem)
    (y_buf u_buf v_buf rgb_buf width scaled_width : Z) : bool :=
  (0 <? scaled_width) && in_int32b (width * 16) &&
  writableb m rgb_buf scaled_width &&
  forallb (fun x =>
             in_int32b (spec_position width scaled_width x) &&
             forallb (outsideb rgb_buf scaled_width)
               (scale_reads y_buf u_buf v_buf
                  (spec_position width scaled_width x)))
          (columns scaled_width).

Definition half_row_okb (m : mem) (y_buf u_buf v_buf rgb_buf width : Z)
  : bool :=
  (0 <? width) && (width <=? 2 ^ 30) &&
  writableb m rgb_buf width &&
  forallb (fun x => forallb (outsideb rgb_buf width)
                      (half_reads y_buf u_buf v_buf x))
          (columns width).

(** ** Example data *)

(** A memory made of allocated blocks, each a base address and its bytes;
    every other address is not allocated. *)
Fixpoint mem_of_blocks (blocks : list (Z * list Z)) (a : Z) : option Z :=
  match blocks with
  | [] => None
  | (base, bytes) :: rest =>
    if (base <=? a) && (a <? base + Z.of_nat (length bytes))
    then Some (nth (Z.to_nat (a - base)) bytes 0)
    else mem_of_blocks rest a
  end.

(** A frame of at most 8 x 4 pixels: the Y plane at address 0 with pitch 8,
    the U plane at 32 and the V plane at 48 with pitch 4, and a destination
    buffer of 128 bytes at address 100. *)
Definition example_frame : mem :=
  mem_of_blocks
    [ (0,  [ 100; 100; 100; 200;  16; 216;  30;  40;
              50;  60;  70;  80;  90; 100; 110; 120;
             100; 101; 120; 118;  60;  63;  80;  80;
             235; 235; 235; 235;  16;  16;  16;  16 ]);
      (32, [ 128; 120; 130; 128;   128; 128; 128; 128;
             110; 128; 128; 140;   128; 128; 128; 128 ]);
      (48, [ 128; 135; 128; 128;   128; 128; 128; 128;
             128; 128; 120; 128;   128; 128; 128; 128 ]);
      (100, repeat 0 128) ].

(** The 32-bit pixel at [p] of a result, or the fault. *)
Definition pixel_result (r : result mem) (p : Z) : result Z :=
  m <- r ;; load32 m p.

(** The memory a successful call returns. *)
Definition get_mem (r : result mem) : mem :=
  match r with
  | Ok m => m
  | Fault _ => fun _ => None
  end.

Definition is_ok {A : Type} (r : result A) : bool :=
  match r with
  | Ok _ => true
  | Fault _ => false
  end.

(** A row of exactly four luma samples with its two chroma samples of each
    plane and a destination row of four pixels; nothing else is allocated. *)
Definition tight_row : mem :=
  mem_of_blocks
    [ (0, [100; 110; 120; 130]); (32, [128; 128]); (48, [128; 128]);
      (100, repeat 0 16) ].

(** The same row, black with the least U, and white with the greatest U. *)
Definition dark_row : mem :=
  mem_of_blocks
    [ (0, [0; 0; 0; 0; 0]); (32, [0; 0]); (48, [128; 128]);
      (100, repeat 0 16) ].

Definition bright_row : mem :=
  mem_of_blocks
    [ (0, [255; 255; 255; 255; 255]); (32, [255; 255]); (48, [128; 128]);
      (100, repeat 0 16) ].

(** ** Frames *)

(** The effect of a row converter on memory: nothing outside the [4 * n]
    bytes of its destination row changes, those bytes are allocated, and no
    address is allocated or freed. *)
Definition writes_row (m m' : mem) (rgb_buf n : Z) : Prop :=
  (forall a, outside rgb_buf n a -> m' a = m a) /\
  (forall a, rgb_buf <= a < rgb_buf + 4 * n -> m a <> None) /\
  (forall a, m' a = None <-> m a = None).

(** [a] is one of the bytes of destination row [y]. *)
Definition in_dest_row (rgb_buf rgb_pitch scaled_width y a : Z) : Prop :=
  rgb_buf + y * rgb_pitch <= a < rgb_buf + y * rgb_pitch + 4 * scaled_width.

(** The source row of destination row [y]: nearest neighbour, rounded down. *)
Definition spec_source_row (height scaled_height y : Z) : Z :=
  y * height / scaled_height.

(** Frame sizes for which no [int] product of the row loop overflows. *)
Definition frame_small (height scaled_height y_pitch uv_pitch rgb_pitch : Z)
  : Prop :=
  0 <= height /\ 0 <= scaled_height /\
  scaled_height * height < 2 ^ 31 /\
  height * Z.abs y_pitch < 2 ^ 31 /\
  height * Z.abs uv_pitch < 2 ^ 31 /\
  scaled_height * Z.abs rgb_pitch < 2 ^ 31.

(** Rows [y], [y + 1], ... converted in order, each by [row]. *)
Fixpoint spec_rows (row : Z -> mem -> result mem) (n : nat) (y : Z) (m : mem)
  : result mem :=
  match n with
  | O => Ok m
  | S n' => m' <- row y m ;; spec_rows row n' (y + 1) m'
  end.

Section SpecFrames.

Variable ConvertYV12ToRGB32Row : Z -> Z -> Z -> Z -> Z -> mem -> result mem.
Variables (y_buf u_buf v_buf rgb_buf : Z).
Variables (width height scaled_width scaled_height : Z).
Variables (y_pitch uv_pitch rgb_pitch : Z).

(** Destination row [y] of the 4:2:0 scaler at 0 degrees: luma row
    [floor (y * height / scaled_height)], chroma row half of it. *)
Definition spec_yv12_row (y : Z) (m : mem) : result mem :=
  let row := spec_source_row height scaled_height y in
  let y_ptr := y_buf + row * y_pitch in
  let u_ptr := u_buf + row / 2 * uv_pitch in
  let v_ptr := v_buf + row / 2 * uv_pitch in
  let dest_pixel := rgb_buf + y * rgb_pitch in
  if scaled_width =? width then
    ConvertYV12ToRGB32Row y_ptr u_ptr v_ptr dest_pixel
      (size_t_of_int scaled_width) m
  else if scaled_width =? int_divc width 2 then
    HalfYV12ToRGB32Row y_ptr u_ptr v_ptr dest_pixel scaled_width m
  else
    ScaleYV12ToRGB32Row y_ptr u_ptr v_ptr dest_pixel width scaled_width m.

(** Destination row [y] of the 4:2:2 scaler at 0 degrees: the chroma row
    is the luma row. *)
Definition spec_yv16_row (y : Z) (m : mem) : result mem :=
  let row := spec_source_row height scaled_height y in
  let y_ptr := y_buf + row * y_pitch in
  let u_ptr := u_buf + row * uv_pitch in
  let v_ptr := v_buf + row * uv_pitch in
  let dest_pixel := rgb_buf + y * rgb_pitch in
  if scaled_width =? int_divc width 2 then
    HalfYV12ToRGB32Row y_ptr u_ptr v_ptr dest_pixel scaled_width m
  else
    ScaleYV12ToRGB32Row y_ptr u_ptr v_ptr dest_pixel width scaled_width m.

End SpecFrames.

(** The effect of converting destination rows [y0 .. y0 + n - 1]: nothing
    outside those rows changes, their bytes are allocated, and no address is
    allocated or freed. *)
Definition writes_rows (m m' : mem) (rgb_buf rgb_pitch scaled_width y0 n : Z)
  : Prop :=
  (forall a,
      (forall y, y0 <= y < y0 + n ->
                 ~ in_dest_row rgb_buf rgb_pitch scaled_width y a) ->
      m' a = m a) /\
  (forall y a, y0 <= y < y0 + n ->
               in_dest_row rgb_buf rgb_pitch scaled_width y a ->
               m a <> None) /\
  (forall a, m' a = None <-> m a = None).

(** The pixels of [n] consecutive addresses from [p], and of [sh] rows. *)
Fixpoint read_pixels (m : mem) (p : Z) (n : nat) : result (list Z) :=
  match n with
  | O => Ok []
  | S n' =>
    v <- load32 m p ;;
    vs <- read_pixels m (p + 4) n' ;;
    Ok (v :: vs)
  end.

Fixpoint read_rows (m : mem) (p pitch : Z) (sw sh : nat)
  : result (list (list Z)) :=
  match sh with
  | O => Ok []
  | S sh' =>
    r <- read_pixels m p sw ;;
    rs <- read_rows m (p + pitch) pitch sw sh' ;;
    Ok (r :: rs)
  end.

Definition frame_pixels (r : result mem) (rgb_buf rgb_pitch : Z) (sw sh : nat)
  : result (list (list Z)) :=
  m <- r ;; read_rows m rgb_buf rgb_pitch sw sh.

(** A picture turned by 180 degrees: its rows in reverse order, each with its
    pixels in reverse order. *)
Definition rotate_180 (rows : list (list Z)) : list (list Z) :=
  rev (map (@rev Z) rows).

(** Modelled from the spec: [ConvertYV12ToRGB32Row] is defined outside the
    sources; the specification describes the path for equal widths as the
    identity ratio of the general row converter (step 16, no blending). *)
Definition identity_row (y_buf u_buf v_buf rgb_buf width : Z) (m : mem)
  : result mem :=
  ScaleYV12ToRGB32Row y_buf u_buf v_buf rgb_buf width width m.

(** A 4 x 2 frame whose planes have no padding: Y at 0 with pitch 4, U at 32
    and V at 48 with pitch 2, and a destination of 16 bytes at 100. *)
Definition packed_frame : mem :=
  mem_of_blocks
    [ (0, [100; 100; 100; 200; 50; 60; 70; 80]); (32, [128; 128]);
      (48, [128; 128]); (100, repeat 0 16) ].

(** ** Further specification-side definitions *)

(** The [n] bytes from [p] are allocated. *)
Definition allocated_range (m : mem) (p n : Z) : Prop :=
  forall i, 0 <= i < n -> m (p + i) <> None.

(** The [n] bytes from [p] and the [k] pixels from [rgb_buf] do not overlap. *)
Definition separate (p n rgb_buf k : Z) : Prop :=
  p + n <= rgb_buf \/ rgb_buf + 4 * k <= p.

(** Buffers of one row conversion: [luma_n] luma samples, [chroma_n] samples
    of each chroma plane and [dest_n] destination pixels, all allocated, the
    destination apart from the three sources. *)
Definition row_buffers (m : mem) (y_buf u_buf v_buf rgb_buf : Z)
    (luma_n chroma_n dest_n : Z) : Prop :=
  allocated_range m y_buf luma_n /\
  allocated_range m u_buf chroma_n /\
  allocated_range m v_buf chroma_n /\
  writable m rgb_buf dest_n /\
  separate y_buf luma_n rgb_buf dest_n /\
  separate u_buf chroma_n rgb_buf dest_n /\
  separate v_buf chroma_n rgb_buf dest_n.

Definition allocated_rangeb (m : mem) (p n : Z) : bool :=
  forallb (fun i => allocated m (p + i)) (columns n).

Definition separateb (p n rgb_buf k : Z) : bool :=
  (p + n <=? rgb_buf) || (rgb_buf + 4 * k <=? p).

Definition row_buffersb (m : mem) (y_buf u_buf v_buf rgb_buf : Z)
    (luma_n chroma_n dest_n : Z) : bool :=
  allocated_rangeb m y_buf luma_n && allocated_rangeb m u_buf chroma_n &&
  allocated_rangeb m v_buf chroma_n && writableb m rgb_buf dest_n &&
  separateb y_buf luma_n rgb_buf dest_n &&
  separateb u_buf chroma_n rgb_buf dest_n &&
  separateb v_buf chroma_n rgb_buf dest_n.

(** The pixel of destination column [x] at the identity ratio: luma sample
    [x] unblended, chroma sample [x / 2]; the next luma sample is read and
    not used. *)
Definition identity_pixel (m : mem) (y_buf u_buf v_buf x : Z) : result Z :=
  U <- load8 m (u_buf + x / 2) ;;
  V <- load8 m (v_buf + x / 2) ;;
  y0 <- load8 m (y_buf + x) ;;
  _ <- load8 m (y_buf + (x + 1)) ;;
  spec_pixel y0 U V.

(** The pixel of destination column [x] when a row is doubled: even columns
    take luma sample [x / 2], odd columns the mean of it and the next;
    chroma sample [x / 4]. *)
Definition doubled_pixel (m : mem) (y_buf u_buf v_buf x : Z) : result Z :=
  U <- load8 m (u_buf + x / 4) ;;
  V <- load8 m (v_buf + x / 4) ;;
  y0 <- load8 m (y_buf + x / 2) ;;
  y1 <- load8 m (y_buf + (x / 2 + 1)) ;;
  spec_pixel (if x mod 2 =? 0 then y0 else (y0 + y1) / 2) U V.

(** Rotations that start at bottom of image. *)
Definition starts_at_bottom (view_rotate : Rotate) : bool :=
  (view_rotate == ROTATE_90) || (view_rotate == ROTATE_180) ||
  (view_rotate == MIRROR_ROTATE_90) || (view_rotate == MIRROR_ROTATE_180).

(** The luma row and the 4:2:0 chroma row of destination row [y]: counted
    from the top, or from the rows the pointers were rebased to when the
    rotation starts at the bottom. *)
Definition spec_luma_row (view_rotate : Rotate) (height scaled_height y : Z)
  : Z :=
  let row := spec_source_row height scaled_height y in
  if starts_at_bottom view_rotate then height - 1 - row else row.

Definition spec_chroma_row_yv12 (view_rotate : Rotate)
    (height scaled_height y : Z) : Z :=
  let row := spec_source_row height scaled_height y in
  if starts_at_bottom view_rotate then height / 2 - 1 - row / 2 else row / 2.

Section SpecRowsAt.

Variable ConvertYV12ToRGB32Row : Z -> Z -> Z -> Z -> Z -> mem -> result mem.
Variables (y_buf u_buf v_buf rgb_buf : Z).
Variables (width scaled_width : Z).
Variables (y_pitch uv_pitch rgb_pitch : Z).

(** Destination row [y] converted from luma row [luma_row] and chroma row
    [chroma_row], with the row dispatch of each frame scaler. *)
Definition spec_yv12_row_at (luma_row chroma_row y : Z) (m : mem)
  : result mem :=
  let y_ptr := y_buf + luma_row * y_pitch in
  let u_ptr := u_buf + chroma_row * uv_pitch in
  let v_ptr := v_buf + chroma_row * uv_pitch in
  let dest_pixel := rgb_buf + y * rgb_pitch in
  if scaled_width =? width then
    ConvertYV12ToRGB32Row y_ptr u_ptr v_ptr dest_pixel
      (size_t_of_int scaled_width) m
  else if scaled_width =? int_divc width 2 then
    HalfYV12ToRGB32Row y_ptr u_ptr v_ptr dest_pixel scaled_width m
  else
    ScaleYV12ToRGB32Row y_ptr u_ptr v_ptr dest_pixel width scaled_width m.

Definition spec_yv16_row_at (luma_row chroma_row y : Z) (m : mem)
  : result mem :=
  let y_ptr := y_buf + luma_row * y_pitch in
  let u_ptr := u_buf + chroma_row * uv_pitch in
  let v_ptr := v_buf + chroma_row * uv_pitch in
  let dest_pixel := rgb_buf + y * rgb_pitch in
  if scaled_width =? int_divc width 2 then
    HalfYV12ToRGB32Row y_ptr u_ptr v_ptr dest_pixel scaled_width m
  else
    ScaleYV12ToRGB32Row y_ptr u_ptr v_ptr dest_pixel width scaled_width m.

End SpecRowsAt.

(** The two ways a call ends when every address it reads or writes is
    allocated: with its result written, or stopped at a lookup outside the
    saturation table. *)
Definition ok_or_table_fault (r : result mem) : Prop :=
  (exists m', r = Ok m') \/ (exists i, r = Fault (ClipTableOutOfRange i)).

(** [tight_row] with one more luma sample after the row. *)
Definition guarded_row : mem :=
  mem_of_blocks
    [ (0, [100; 110; 120; 130; 140]); (32, [128; 128]); (48, [128; 128]);
      (100, repeat 0 16) ].

(** Buffers of one frame conversion at 0 degrees: [height] luma rows of
    [width] samples, [chroma_height] rows of [(width + 1) / 2] samples in
    each chroma plane and [scaled_height] destination rows of
    [scaled_width] pixels, every row with buffers as [row_buffers] asks,
    every destination row apart from every source row. *)
Definition frame_buffers (m : mem) (y_buf u_buf v_buf rgb_buf : Z)
    (width height chroma_height scaled_width scaled_height : Z)
    (y_pitch uv_pitch rgb_pitch : Z) : Prop :=
  forall row crow d,
    0 <= row < height -> 0 <= crow < chroma_height ->
    0 <= d < scaled_height ->
    row_buffers m (y_buf + row * y_pitch) (u_buf + crow * uv_pitch)
      (v_buf + crow * uv_pitch) (rgb_buf + d * rgb_pitch)
      width ((width + 1) / 2) scaled_width.

Definition frame_buffersb (m : mem) (y_buf u_buf v_buf rgb_buf : Z)
    (width height chroma_height scaled_width scaled_height : Z)
    (y_pitch uv_pitch rgb_pitch : Z) : bool :=
  forallb (fun row =>
    forallb (fun crow =>
      forallb (fun d =>
        row_buffersb m (y_buf + row * y_pitch) (u_buf + crow * uv_pitch)
          (v_buf + crow * uv_pitch) (rgb_buf + d * rgb_pitch)
          width ((width + 1) / 2) scaled_width)
        (columns scaled_height))
      (columns chroma_height))
    (columns height).

(** The pixel of destination column [x] of a row of [width] pixels read
    right to left at its own size: luma sample [width - 1 - x] unblended,
    the sample to its right read and not used, and chroma sample
    [width / 2 - 1] less [x / 2] rounded up. *)
Definition mirrored_pixel (m : mem) (y_buf u_buf v_buf width x : Z)
  : result Z :=
  U <- load8 m (u_buf + (width / 2 - 1 - (x + 1) / 2)) ;;
  V <- load8 m (v_buf + (width / 2 - 1 - (x + 1) / 2)) ;;
  y0 <- load8 m (y_buf + (width - 1 - x)) ;;
  _ <- load8 m (y_buf + (width - x)) ;;
  spec_pixel y0 U V.

(** ** What a frame scaler overwrites *)

(** [a] is a byte of none of the destination rows [0 .. scaled_height - 1]. *)
Definition outside_rows
    (rgb_buf rgb_pitch scaled_width scaled_height a : Z) : Prop :=
  forall y, 0 <= y < scaled_height ->
            ~ in_dest_row rgb_buf rgb_pitch scaled_width y a.

(** Two memories with the same allocated addresses that hold the same at
    every address for which [A] holds. *)
Definition same_on (A : Z -> Prop) (m1 m2 : mem) : Prop :=
  (forall a, m1 a = None <-> m2 a = None) /\
  (forall a, A a -> m1 a = m2 a).

(** A row conversion [row] that reads at most the addresses [reads], none of
    them in its destination row of [n] pixels at [rgb_buf], overwrites that
    row: started from two memories that hold the same at the addresses read,
    it completes from the second if it does from the first, and the two
    results hold the same in the destination row, whatever the row held
    before, and wherever the two memories held the same. *)
Definition overwrites_row (row : mem -> result mem) (reads : list Z)
    (rgb_buf n : Z) : Prop :=
  Forall (outside rgb_buf n) reads ->
  forall (A : Z -> Prop) (m1 m2 m1' : mem),
    same_on A m1 m2 -> Forall A reads -> row m1 = Ok m1' ->
    exists m2',
      row m2 = Ok m2' /\
      same_on (fun a => A a \/ rgb_buf <= a < rgb_buf + 4 * n) m1' m2'.

(** The addresses the row converters read for a whole row. *)
Definition scale_row_reads (y_buf u_buf v_buf width scaled_width : Z)
  : list Z :=
  flat_map (fun x => scale_reads y_buf u_buf v_buf
                       (spec_position width scaled_width x))
           (columns scaled_width).

Definition half_row_reads (y_buf u_buf v_buf width : Z) : list Z :=
  flat_map (half_reads y_buf u_buf v_buf) (columns width).

(** The addresses [ConvertYV12ToRGB32Row], defined outside the file, may
    read: luma samples [0 .. width] and the first [(width + 1) / 2] samples
    of each chroma plane. *)
Definition convert_reads (y_buf u_buf v_buf width : Z) : list Z :=
  map (Z.add y_buf) (columns (width + 1)) ++
  map (Z.add u_buf) (columns ((width + 1) / 2)) ++
  map (Z.add v_buf) (columns ((width + 1) / 2)).

(** The addresses read for one destination row, by the row dispatch of each
    frame scaler. *)
Definition yv12_row_reads (y_ptr u_ptr v_ptr width scaled_width : Z)
  : list Z :=
  if scaled_width =? width then
    convert_reads y_ptr u_ptr v_ptr scaled_width
  else if scaled_width =? int_divc width 2 then
    half_row_reads y_ptr u_ptr v_ptr scaled_width
  else
    scale_row_reads y_ptr u_ptr v_ptr width scaled_width.

Definition yv16_row_reads (y_ptr u_ptr v_ptr width scaled_width : Z)
  : list Z :=
  if scaled_width =? int_divc width 2 then
    half_row_reads y_ptr u_ptr v_ptr scaled_width
  else
    scale_row_reads y_ptr u_ptr v_ptr width scaled_width.

Section FrameReads.

Variable view_rotate : Rotate.
Variables (y_buf u_buf v_buf rgb_buf : Z).
Variables (width height scaled_width scaled_height : Z).
Variables (y_pitch uv_pitch rgb_pitch : Z).

(** The addresses read for destination row [y] of a frame: the row's reads
    from the planes rebased for the horizontal direction, at the luma and
    chroma rows the rotation selects. *)
Definition yv12_frame_reads (y : Z) : list Z :=
  yv12_row_reads
    (p_y (rebase_right view_rotate y_buf u_buf v_buf width)
     + spec_luma_row view_rotate height scaled_height y * y_pitch)
    (p_u (rebase_right view_rotate y_buf u_buf v_buf width)
     + spec_chroma_row_yv12 view_rotate height scaled_height y * uv_pitch)
    (p_v (rebase_right view_rotate y_buf u_buf v_buf width)
     + spec_chroma_row_yv12 view_rotate height scaled_height y * uv_pitch)
    (p_extent (rebase_right view_rotate y_buf u_buf v_buf width))
    scaled_width.

Definition yv16_frame_reads (y : Z) : list Z :=
  yv16_row_reads
    (p_y (rebase_right view_rotate y_buf u_buf v_buf width)
     + spec_luma_row view_rotate height scaled_height y * y_pitch)
    (p_u (rebase_right view_rotate y_buf u_buf v_buf width)
     + spec_luma_row view_rotate height scaled_height y * uv_pitch)
    (p_v (rebase_right view_rotate y_buf u_buf v_buf width)
     + spec_luma_row view_rotate height scaled_height y * uv_pitch)
    (p_extent (rebase_right view_rotate y_buf u_buf v_buf width))
    scaled_width.

(** No destination row holds a byte that is read: the source planes and the
    destination buffer do not overlap. *)
Definition sources_apart (reads : Z -> list Z) : Prop :=
  forall y, 0 <= y < scaled_height ->
    Forall (outside_rows rgb_buf rgb_pitch scaled_width scaled_height)
           (reads y).

Definition outside_rowsb (a : Z) : bool :=
  forallb (fun y => outsideb (rgb_buf + y * rgb_pitch) scaled_width a)
          (columns scaled_height).

Definition sources_apartb (reads : Z -> list Z) : bool :=
  forallb (fun y => forallb outside_rowsb (reads y)) (columns scaled_height).

End FrameReads.
(** * Properties *)

(** ** Outcomes *)

Lemma bind_ok_inv {A B : Type} (r : result A) (k : A -> result B) (b : B) :
  bind r k = Ok b -> exists a, r = Ok a /\ k a = Ok b.
Proof.
  destruct r as [a|f]; cbn [bind]; intros H; [eauto | discriminate].
Qed.

Lemma bind_ext {A B : Type} (r : result A) (k1 k2 : A -> result B) :
  (forall a, k1 a = k2 a) -> bind r k1 = bind r k2.
Proof. intros H. destruct r; cbn [bind]; [apply H | reflexivity]. Qed.

(** [bind_inv H as x E]: from [H : (x <- r ;; k x) = Ok b] to [E : r = Ok x]
    and [H : k x = Ok b]. *)
Tactic Notation "bind_inv" hyp(H) "as" simple_intropattern(x)
    simple_intropattern(E) :=
  apply bind_ok_inv in H; destruct H as (x & E & H).

(** ** Machine arithmetic *)

Lemma wrap32_id (z : Z) : in_int32 z -> wrap32 z = z.
Proof.
  unfold in_int32, wrap32. intros H.
  rewrite Z.mod_small; lia.
Qed.

Lemma int_mul_id (a b : Z) : in_int32 (a * b) -> int_mul a b = a * b.
Proof. apply wrap32_id. Qed.

Lemma int_div_positive (a b : Z) :
  0 < b -> int_div a b = Ok (wrap32 (Z.quot a b)).
Proof.
  intros Hb. unfold int_div.
  destruct (Z.eqb_spec b 0); [lia|].
  destruct (Z.eqb_spec b (-1)); [lia|].
  now rewrite andb_false_r.
Qed.

Lemma size_t_of_int_id (z : Z) : 0 <= z < 2 ^ 31 -> size_t_of_int z = z.
Proof. intros H. unfold size_t_of_int. apply Z.mod_small. lia. Qed.

Lemma uint8_range (z : Z) : 0 <= uint8 z < 256.
Proof. unfold uint8. apply Z.mod_pos_bound. lia. Qed.

Lemma uint8_id (z : Z) : 0 <= z < 256 -> uint8 z = z.
Proof. unfold uint8. intros. apply Z.mod_small. lia. Qed.

Lemma shiftr8_div (v : Z) : Z.shiftr v 8 = v / 256.
Proof. rewrite Z.shiftr_div_pow2 by lia. reflexivity. Qed.

(** ** The saturation table and [clip] *)

Lemma table_entries_ok : forallb table_entry_ok (seq 0 512) = true.
Proof. vm_compute. reflexivity. Qed.

Lemma table_closed_form (i : Z) :
  0 <= i < 512 ->
  nth (Z.to_nat i) g_rgb_clip_table 0 = clamp (i - kClipOverflow) 0 255.
Proof.
  intros Hi.
  pose proof table_entries_ok as H.
  rewrite forallb_forall in H.
  specialize (H (Z.to_nat i)).
  unfold table_entry_ok in H.
  rewrite Z2Nat.id in H by lia.
  apply Z.eqb_eq, H, in_seq. lia.
Qed.

Lemma table_at_in (i : Z) :
  0 <= i < 512 -> table_at i = Ok (clamp (i - kClipOverflow) 0 255).
Proof.
  intros Hi. unfold table_at.
  replace (kClipOverflow + kClipTableSize + kClipOverflow) with 512 by reflexivity.
  destruct (Z.leb_spec 0 i); [|lia].
  destruct (Z.ltb_spec i 512); [|lia].
  cbn [andb]. now rewrite table_closed_form.
Qed.

Lemma table_at_out (i : Z) :
  i < 0 \/ 512 <= i -> table_at i = Fault (ClipTableOutOfRange i).
Proof.
  intros Hi. unfold table_at.
  replace (kClipOverflow + kClipTableSize + kClipOverflow) with 512 by reflexivity.
  destruct (Z.leb_spec 0 i); destruct (Z.ltb_spec i 512); cbn [andb];
    try reflexivity; lia.
Qed.

Lemma clamp_range (x : Z) : 0 <= clamp x 0 255 <= 255.
Proof. unfold clamp. lia. Qed.

Lemma clip_covered (v : Z) :
  covered v -> clip v = Ok (clamp (v / 256) 0 255).
Proof.
  unfold covered, clip. intros Hv.
  rewrite shiftr8_div.
  assert (-128 <= v / 256 < 384).
  { split.
    - apply Z.div_le_lower_bound; lia.
    - apply Z.div_lt_upper_bound; lia. }
  rewrite table_at_in by (unfold kClipOverflow; lia).
  cbn [bind]. f_equal.
  replace (v / 256 + kClipOverflow - kClipOverflow) with (v / 256) by lia.
  unfold uint32. apply Z.mod_small.
  pose proof (clamp_range (v / 256)). lia.
Qed.

Lemma clip_not_covered (v : Z) :
  ~ covered v ->
  clip v = Fault (ClipTableOutOfRange (Z.shiftr v 8 + kClipOverflow)).
Proof.
  unfold covered, clip. intros Hv.
  rewrite table_at_out; [reflexivity|].
  rewrite shiftr8_div. unfold kClipOverflow.
  destruct (Z_lt_le_dec v (-128 * 256)) as [Hlo|Hlo].
  - left. assert (v / 256 < -128) by (apply Z.div_lt_upper_bound; lia). lia.
  - right. assert (384 <= v / 256) by (apply Z.div_le_lower_bound; lia). lia.
Qed.

Lemma clip_ok_inv (v c : Z) :
  clip v = Ok c -> covered v /\ c = clamp (v / 256) 0 255.
Proof.
  intros H.
  destruct (Z_le_dec (-128 * 256) v) as [H1|H1];
    [destruct (Z_lt_dec v (384 * 256)) as [H2|H2]|].
  - assert (Hc : covered v) by (unfold covered; lia).
    rewrite (clip_covered _ Hc) in H. split; congruence.
  - rewrite clip_not_covered in H by (unfold covered; lia). discriminate.
  - rewrite clip_not_covered in H by (unfold covered; lia). discriminate.
Qed.

Lemma clip_range (v c : Z) : clip v = Ok c -> 0 <= c <= 255.
Proof.
  intros H. apply clip_ok_inv in H. destruct H as [_ ->]. apply clamp_range.
Qed.

(** C7, as the code has it: on the covered range [clip] truncates the 8.8
    value to its integer part (a floor, not a rounding to nearest) and clamps
    that to [[0, 255]]. *)
Theorem clip_is_clamped_floor (v : Z) :
  covered v -> clip v = Ok (clamp (v / 256) 0 255).
Proof. exact (clip_covered v). Qed.

Lemma clip_is_clamped_floor_witness :
  covered 200 /\ clip 200 = Ok (clamp (200 / 256) 0 255).
Proof.
  assert (H : covered 200) by (unfold covered; lia).
  split; [exact H | exact (clip_is_clamped_floor 200 H)].
Defined.

(** C7 as stated fails: 200 is 0.78125 in 8.8, which rounds to 1, and [clip]
    gives 0. *)
Lemma clip_does_not_round :
  covered 200 /\ clip 200 = Ok 0 /\ clamp (round_8_8 200) 0 255 = 1 /\
  clip 200 <> Ok (clamp (round_8_8 200) 0 255).
Proof.
  split; [unfold covered; lia|].
  split; [reflexivity|]. split; [reflexivity|].
  vm_compute. discriminate.
Qed.

(** ** Memory *)

Lemma load8_range (m : mem) (p b : Z) : load8 m p = Ok b -> 0 <= b < 256.
Proof.
  unfold load8. destruct (m p); intros H; [|discriminate].
  injection H as <-. apply uint8_range.
Qed.

Lemma load8_some (m : mem) (p b : Z) : m p = Some b -> load8 m p = Ok (uint8 b).
Proof. unfold load8. now intros ->. Qed.

Lemma poke8_same (m : mem) (p v : Z) : poke8 m p v p = Some (uint8 v).
Proof. unfold poke8. now rewrite Z.eqb_refl. Qed.

Lemma poke8_other (m : mem) (p v a : Z) : a <> p -> poke8 m p v a = m a.
Proof. unfold poke8. intros H. destruct (Z.eqb_spec a p); congruence. Qed.

Lemma poke8_allocated (m : mem) (p v a : Z) :
  m a <> None -> poke8 m p v a <> None.
Proof. unfold poke8. destruct (a =? p); [discriminate | tauto]. Qed.

Lemma poke32_other (m : mem) (p v a : Z) :
  a < p \/ p + 4 <= a -> poke32 m p v a = m a.
Proof.
  intros H. unfold poke32.
  rewrite !poke8_other by lia. reflexivity.
Qed.

Lemma poke32_allocated (m : mem) (p v a : Z) :
  m a <> None -> poke32 m p v a <> None.
Proof. intros H. unfold poke32. now repeat apply poke8_allocated. Qed.

Lemma poke32_byte (m : mem) (p v k : Z) :
  0 <= k < 4 -> poke32 m p v (p + k) = Some (uint8 (Z.shiftr v (8 * k))).
Proof.
  intros Hk. unfold poke32.
  assert (Hc : k = 0 \/ k = 1 \/ k = 2 \/ k = 3) by lia.
  destruct Hc as [-> | [-> | [-> | ->]]].
  - rewrite !poke8_other by lia. rewrite Z.add_0_r. apply poke8_same.
  - rewrite !poke8_other by lia. apply poke8_same.
  - rewrite !poke8_other by lia. apply poke8_same.
  - apply poke8_same.
Qed.

Lemma store8_allocated (m : mem) (p v : Z) :
  m p <> None -> store8 m p v = Ok (poke8 m p v).
Proof. unfold store8. destruct (m p); [reflexivity | congruence]. Qed.

Lemma store8_inv (m m' : mem) (p v : Z) :
  store8 m p v = Ok m' -> m' = poke8 m p v /\ m p <> None.
Proof.
  unfold store8. destruct (m p); intros H; [|discriminate].
  injection H as <-. split; [reflexivity | discriminate].
Qed.

Lemma store32_allocated (m : mem) (p v : Z) :
  (forall k, 0 <= k < 4 -> m (p + k) <> None) ->
  store32 m p v = Ok (poke32 m p v).
Proof.
  intros H. unfold store32, poke32.
  rewrite store8_allocated
    by (specialize (H 0); rewrite Z.add_0_r in H; apply H; lia).
  cbn [bind].
  rewrite store8_allocated by (apply poke8_allocated, H; lia).
  cbn [bind].
  rewrite store8_allocated by (do 2 apply poke8_allocated; apply H; lia).
  cbn [bind].
  apply store8_allocated. do 3 apply poke8_allocated. apply H. lia.
Qed.

Lemma store_pixels_below (ps : list Z) (m : mem) (p a : Z) :
  a < p -> store_pixels m p ps a = m a.
Proof.
  revert m p. induction ps as [|v ps IH]; intros m p Ha; cbn [store_pixels].
  - reflexivity.
  - rewrite IH by lia. apply poke32_other. lia.
Qed.

Lemma store_pixels_byte (ps : list Z) (m : mem) (p : Z) (x : nat) (k : Z) :
  (x < length ps)%nat -> 0 <= k < 4 ->
  store_pixels m p ps (p + 4 * Z.of_nat x + k)
  = Some (uint8 (Z.shiftr (nth x ps 0) (8 * k))).
Proof.
  revert m p x. induction ps as [|v ps IH]; intros m p x Hx Hk;
    cbn [length] in Hx; [lia|].
  cbn [store_pixels]. destruct x as [|x].
  - rewrite store_pixels_below by lia.
    replace (p + 4 * Z.of_nat 0 + k) with (p + k) by lia.
    now apply poke32_byte.
  - replace (p + 4 * Z.of_nat (S x) + k) with (p + 4 + 4 * Z.of_nat x + k)
      by lia.
    rewrite IH by lia. reflexivity.
Qed.

(** ** Packing *)

Lemma lor_shiftl_add (a b k : Z) :
  0 <= k -> 0 <= a < 2 ^ k -> Z.lor a (Z.shiftl b k) = a + b * 2 ^ k.
Proof.
  intros Hk Ha.
  assert (Hland : Z.land a (Z.shiftl b k) = 0).
  { apply Z.bits_inj'. intros n Hn.
    rewrite Z.land_spec, Z.bits_0.
    destruct (Z_lt_le_dec n k) as [Hlt|Hge].
    - rewrite (Z.shiftl_spec_low b k n Hlt). apply andb_false_r.
    - assert (Hb : Z.testbit a n = false).
      { destruct (Z.eq_dec a 0) as [->|Hne]; [apply Z.bits_0|].
        apply Z.bits_above_log2; [lia|].
        apply Z.lt_le_trans with k; [|exact Hge].
        apply Z.log2_lt_pow2; lia. }
      rewrite Hb. reflexivity. }
  rewrite <- Z.lxor_lor by exact Hland.
  rewrite <- Z.add_nocarry_lxor by exact Hland.
  now rewrite Z.shiftl_mul_pow2.
Qed.

Lemma pack_arith (b g r : Z) :
  0 <= b <= 255 -> 0 <= g <= 255 -> 0 <= r <= 255 ->
  Z.lor (Z.lor (Z.lor b (uint32 (Z.shiftl g 8))) (uint32 (Z.shiftl r 16)))
        0xff000000
  = b + g * 2 ^ 8 + r * 2 ^ 16 + 255 * 2 ^ 24.
Proof.
  intros Hb Hg Hr.
  assert (Eg : uint32 (Z.shiftl g 8) = Z.shiftl g 8).
  { unfold uint32. rewrite Z.shiftl_mul_pow2 by lia. apply Z.mod_small. lia. }
  assert (Er : uint32 (Z.shiftl r 16) = Z.shiftl r 16).
  { unfold uint32. rewrite Z.shiftl_mul_pow2 by lia. apply Z.mod_small. lia. }
  rewrite Eg, Er.
  change 0xff000000 with (Z.shiftl 255 24).
  rewrite (lor_shiftl_add b g 8) by lia.
  rewrite (lor_shiftl_add (b + g * 2 ^ 8) r 16) by lia.
  rewrite (lor_shiftl_add (b + g * 2 ^ 8 + r * 2 ^ 16) 255 24) by lia.
  reflexivity.
Qed.

Lemma spec_pixel_range (luma U V p : Z) :
  spec_pixel luma U V = Ok p -> 0 <= p < 2 ^ 32.
Proof.
  unfold spec_pixel. cbv zeta. intros H.
  bind_inv H as B EB.
  bind_inv H as G EG.
  bind_inv H as R ER.
  injection H as <-.
  apply clip_range in EB, EG, ER. lia.
Qed.

Lemma load32_store_pixels (ps : list Z) (m : mem) (p : Z) (x : nat) :
  (x < length ps)%nat -> 0 <= nth x ps 0 < 2 ^ 32 ->
  load32 (store_pixels m p ps) (p + 4 * Z.of_nat x) = Ok (nth x ps 0).
Proof.
  intros Hx Hv. unfold load32.
  replace (p + 4 * Z.of_nat x) with (p + 4 * Z.of_nat x + 0) at 1 by lia.
  rewrite (load8_some _ _ _ (store_pixels_byte ps m p x 0 Hx ltac:(lia))).
  rewrite (load8_some _ _ _ (store_pixels_byte ps m p x 1 Hx ltac:(lia))).
  rewrite (load8_some _ _ _ (store_pixels_byte ps m p x 2 Hx ltac:(lia))).
  rewrite (load8_some _ _ _ (store_pixels_byte ps m p x 3 Hx ltac:(lia))).
  cbn [bind]. f_equal.
  set (v := nth x ps 0) in *.
  unfold uint8. rewrite !Z.mod_mod by lia.
  rewrite !Z.shiftr_div_pow2 by lia.
  change (8 * 0) with 0. change (8 * 1) with 8.
  change (8 * 2) with 16. change (8 * 3) with 24.
  rewrite (lor_shiftl_add _ _ 8) by (pose proof (Z.mod_pos_bound (v / 2 ^ 0) 256); lia).
  rewrite (lor_shiftl_add _ _ 16).
  2: lia.
  2: { pose proof (Z.mod_pos_bound (v / 2 ^ 0) 256).
       pose proof (Z.mod_pos_bound (v / 2 ^ 8) 256). lia. }
  rewrite (lor_shiftl_add _ _ 24).
  2: lia.
  2: { pose proof (Z.mod_pos_bound (v / 2 ^ 0) 256).
       pose proof (Z.mod_pos_bound (v / 2 ^ 8) 256).
       pose proof (Z.mod_pos_bound (v / 2 ^ 16) 256). lia. }
  change (2 ^ 0) with 1. change (2 ^ 8) with 256.
  change (2 ^ 16) with 65536. change (2 ^ 24) with 16777216.
  change (2 ^ 32) with 4294967296 in Hv.
  Z.div_mod_to_equations. lia.
Qed.

(** ** One iteration of the row converters *)

Lemma blend_code_spec (pos y0 y1 : Z) :
  0 <= y0 < 256 -> 0 <= y1 < 256 ->
  match Z.shiftr (Z.land pos 15) 2 with
  | 1 => uint8 (Z.shiftr (y0 + y0 + y0 + y1) 2)
  | 2 => uint8 (Z.shiftr (y0 + y1) 1)
  | 3 => uint8 (Z.shiftr (y0 + y1 + y1 + y1) 2)
  | _ => y0
  end = spec_blend (Z.shiftr (Z.land pos 15) 2) y0 y1.
Proof.
  intros H0 H1.
  change 15 with (Z.ones 4). rewrite Z.land_ones by lia.
  rewrite !Z.shiftr_div_pow2 by lia.
  change (2 ^ 4) with 16. change (2 ^ 2) with 4. change (2 ^ 1) with 2.
  pose proof (Z.mod_pos_bound pos 16 ltac:(lia)) as Hm.
  assert (Ht : 0 <= pos mod 16 / 4 < 4).
  { split; [apply Z.div_pos; lia | apply Z.div_lt_upper_bound; lia]. }
  unfold spec_blend.
  assert (Hc : pos mod 16 / 4 = 0 \/ pos mod 16 / 4 = 1 \/
               pos mod 16 / 4 = 2 \/ pos mod 16 / 4 = 3) by lia.
  destruct Hc as [-> | [-> | [-> | ->]]]; cbn [Z.eqb Pos.eqb].
  - reflexivity.
  - replace (y0 + y0 + y0 + y1) with (3 * y0 + y1) by lia.
    apply uint8_id.
    split; [apply Z.div_pos; lia | apply Z.div_lt_upper_bound; lia].
  - apply uint8_id.
    split; [apply Z.div_pos; lia | apply Z.div_lt_upper_bound; lia].
  - replace (y0 + y1 + y1 + y1) with (y0 + 3 * y1) by lia.
    apply uint8_id.
    split; [apply Z.div_pos; lia | apply Z.div_lt_upper_bound; lia].
Qed.

Lemma pixel_code_spec {A : Type} (luma U V : Z) (K : Z -> result A) :
  (b <- clip ((luma - 16) * 298 + 128 + (516 * (U - 128) + 128)) ;;
   g <- clip ((luma - 16) * 298 + 128
              + (- 100 * (U - 128) - 208 * (V - 128) + 128)) ;;
   r <- clip ((luma - 16) * 298 + 128 + (409 * (V - 128) + 128)) ;;
   K (Z.lor (Z.lor (Z.lor b (uint32 (Z.shiftl g 8)))
                   (uint32 (Z.shiftl r 16)))
            0xff000000))
  = (p <- spec_pixel luma U V ;; K p).
Proof.
  unfold spec_pixel. cbv zeta.
  destruct (clip ((luma - 16) * 298 + 128 + (516 * (U - 128) + 128)))
    as [b|] eqn:Eb; cbn [bind]; [|reflexivity].
  destruct (clip ((luma - 16) * 298 + 128
                  + (- 100 * (U - 128) - 208 * (V - 128) + 128)))
    as [g|] eqn:Eg; cbn [bind]; [|reflexivity].
  destruct (clip ((luma - 16) * 298 + 128 + (409 * (V - 128) + 128)))
    as [r|] eqn:Er; cbn [bind]; [|reflexivity].
  apply clip_range in Eb, Eg, Er.
  now rewrite pack_arith.
Qed.

Lemma ScaleYV12ToRGB32Row_loop_step (n : nat) (y u v dx rgb sx : Z) (mc : mem) :
  ScaleYV12ToRGB32Row_loop (S n) y u v dx rgb sx mc
  = (p <- scale_pixel mc y u v sx ;;
     m' <- store32 mc rgb p ;;
     ScaleYV12ToRGB32Row_loop n y u v dx (rgb + 4) (int_add sx dx) m').
Proof.
  cbn [ScaleYV12ToRGB32Row_loop]. unfold scale_pixel.
  destruct (load8 mc (u + Z.shiftr sx 5)) as [U|] eqn:EU;
    cbn [bind]; [|reflexivity].
  destruct (load8 mc (v + Z.shiftr sx 5)) as [V|] eqn:EV;
    cbn [bind]; [|reflexivity].
  destruct (load8 mc (y + Z.shiftr sx 4)) as [y0|] eqn:E0;
    cbn [bind]; [|reflexivity].
  destruct (load8 mc (y + (Z.shiftr sx 4 + 1))) as [y1|] eqn:E1;
    cbn [bind]; [|reflexivity].
  cbv zeta.
  rewrite blend_code_spec by (eapply load8_range; eassumption).
  apply (pixel_code_spec _ _ _
           (fun p => m' <- store32 mc rgb p ;;
                     ScaleYV12ToRGB32Row_loop n y u v dx (rgb + 4)
                       (int_add sx dx) m')).
Qed.

Lemma HalfYV12ToRGB32Row_loop_step (n : nat) (y u v rgb x : Z) (mc : mem) :
  0 <= x < 2 ^ 30 ->
  HalfYV12ToRGB32Row_loop (S n) y u v rgb x mc
  = (p <- half_pixel mc y u v x ;;
     m' <- store32 mc rgb p ;;
     HalfYV12ToRGB32Row_loop n y u v (rgb + 4) (x + 1) m').
Proof.
  intros Hx.
  cbn [HalfYV12ToRGB32Row_loop]. unfold half_pixel, int_add, int_mul.
  rewrite (wrap32_id (x * 2)) by (unfold in_int32; lia).
  rewrite !wrap32_id by (unfold in_int32; lia).
  replace (x * 2 + 0) with (2 * x) by lia.
  replace (x * 2 + 1) with (2 * x + 1) by lia.
  destruct (load8 mc (u + x)) as [U|] eqn:EU; cbn [bind]; [|reflexivity].
  destruct (load8 mc (v + x)) as [V|] eqn:EV; cbn [bind]; [|reflexivity].
  destruct (load8 mc (y + 2 * x)) as [y0|] eqn:E0; cbn [bind]; [|reflexivity].
  destruct (load8 mc (y + (2 * x + 1))) as [y1|] eqn:E1;
    cbn [bind]; [|reflexivity].
  cbv zeta.
  rewrite Z.shiftr_div_pow2 by lia. change (2 ^ 1) with 2.
  apply (pixel_code_spec _ _ _
           (fun p => m' <- store32 mc rgb p ;;
                     HalfYV12ToRGB32Row_loop n y u v (rgb + 4) (x + 1) m')).
Qed.

(** ** The row converters as pure functions of the source row

    When the destination row is allocated and overlaps none of the bytes a
    converter reads, its stores cannot feed back into its loads: the row it
    writes is the list of pixels computed from the memory it was called
    with. *)

Lemma load8_agree (m mc : mem) (a : Z) : mc a = m a -> load8 mc a = load8 m a.
Proof. unfold load8. now intros ->. Qed.

Lemma scale_pixel_agree (m mc : mem) (y u v pos : Z) :
  Forall (fun a => mc a = m a) (scale_reads y u v pos) ->
  scale_pixel mc y u v pos = scale_pixel m y u v pos.
Proof.
  unfold scale_reads. intros H.
  rewrite !Forall_cons_iff in H. destruct H as (Hu & Hv & Hy0 & Hy1 & _).
  unfold scale_pixel.
  now rewrite (load8_agree _ _ _ Hu), (load8_agree _ _ _ Hv),
    (load8_agree _ _ _ Hy0), (load8_agree _ _ _ Hy1).
Qed.

Lemma half_pixel_agree (m mc : mem) (y u v x : Z) :
  Forall (fun a => mc a = m a) (half_reads y u v x) ->
  half_pixel mc y u v x = half_pixel m y u v x.
Proof.
  unfold half_reads. intros H.
  rewrite !Forall_cons_iff in H. destruct H as (Hu & Hv & Hy0 & Hy1 & _).
  unfold half_pixel.
  now rewrite (load8_agree _ _ _ Hu), (load8_agree _ _ _ Hv),
    (load8_agree _ _ _ Hy0), (load8_agree _ _ _ Hy1).
Qed.

Lemma agree_on_reads (m mc : mem) (rgb0 N : Z) (l : list Z) :
  (forall a, outside rgb0 N a -> mc a = m a) ->
  Forall (outside rgb0 N) l -> Forall (fun a => mc a = m a) l.
Proof. intros Hm H. eapply Forall_impl; [|exact H]. exact Hm. Qed.

Lemma agree_after_poke (m mc : mem) (rgb0 N rgb p : Z) :
  (forall a, outside rgb0 N a -> mc a = m a) ->
  rgb0 <= rgb -> rgb + 4 <= rgb0 + 4 * N ->
  forall a, outside rgb0 N a -> poke32 mc rgb p a = m a.
Proof.
  unfold outside. intros Hm H1 H2 a Ha.
  rewrite poke32_other by lia. now apply Hm.
Qed.

Lemma writable_store32 (mc : mem) (rgb0 N rgb p : Z) :
  writable mc rgb0 N -> rgb0 <= rgb -> rgb + 4 <= rgb0 + 4 * N ->
  store32 mc rgb p = Ok (poke32 mc rgb p).
Proof.
  intros Hw H1 H2. apply store32_allocated.
  intros k Hk. apply Hw. lia.
Qed.

Lemma writable_poke32 (mc : mem) (rgb0 N rgb p : Z) :
  writable mc rgb0 N -> writable (poke32 mc rgb p) rgb0 N.
Proof. intros Hw a Ha. apply poke32_allocated, Hw, Ha. Qed.

Section RowLoops.

Variables (y_buf u_buf v_buf : Z).
(** The destination row: [N] pixels from [rgb0]. *)
Variables (rgb0 N : Z).
(** The memory at the call. *)
Variable m : mem.

Lemma ScaleYV12ToRGB32Row_loop_pure (dx : Z) :
  forall (n : nat) (x rgb sx : Z) (mc : mem),
    (forall a, outside rgb0 N a -> mc a = m a) ->
    writable mc rgb0 N ->
    (forall k, x <= k < x + Z.of_nat n ->
               Forall (outside rgb0 N) (scale_reads y_buf u_buf v_buf (k * dx))) ->
    (forall k, x <= k < x + Z.of_nat n -> in_int32 (k * dx)) ->
    (n <> O -> sx = x * dx) ->
    rgb0 <= rgb -> rgb + 4 * Z.of_nat n <= rgb0 + 4 * N ->
    ScaleYV12ToRGB32Row_loop n y_buf u_buf v_buf dx rgb sx mc
    = (ps <- pixels_from (fun k => scale_pixel m y_buf u_buf v_buf (k * dx)) n x ;;
       Ok (store_pixels mc rgb ps)).
Proof.
  induction n as [|n IH]; intros x rgb sx mc Hm Hw Hr Hi Hsx H1 H2.
  - reflexivity.
  - rewrite ScaleYV12ToRGB32Row_loop_step.
    rewrite Hsx by discriminate.
    rewrite (scale_pixel_agree m mc)
      by (apply (agree_on_reads m mc rgb0 N); [exact Hm | apply Hr; lia]).
    cbn [pixels_from].
    destruct (scale_pixel m y_buf u_buf v_buf (x * dx)) as [p|f];
      cbn [bind]; [|reflexivity].
    rewrite (writable_store32 mc rgb0 N) by (assumption || lia).
    cbn [bind].
    rewrite (IH (x + 1) (rgb + 4) (int_add (x * dx) dx) (poke32 mc rgb p)).
    + destruct (pixels_from _ n (x + 1)); reflexivity.
    + apply agree_after_poke; [exact Hm | lia | lia].
    + now apply writable_poke32.
    + intros k Hk. apply Hr. lia.
    + intros k Hk. apply Hi. lia.
    + intros Hn. unfold int_add.
      replace (x * dx + dx) with ((x + 1) * dx) by lia.
      apply wrap32_id, Hi. destruct n; [congruence|]. lia.
    + lia.
    + lia.
Qed.

Lemma HalfYV12ToRGB32Row_loop_pure :
  forall (n : nat) (x rgb : Z) (mc : mem),
    (forall a, outside rgb0 N a -> mc a = m a) ->
    writable mc rgb0 N ->
    (forall k, x <= k < x + Z.of_nat n ->
               Forall (outside rgb0 N) (half_reads y_buf u_buf v_buf k)) ->
    0 <= x -> x + Z.of_nat n <= 2 ^ 30 ->
    rgb0 <= rgb -> rgb + 4 * Z.of_nat n <= rgb0 + 4 * N ->
    HalfYV12ToRGB32Row_loop n y_buf u_buf v_buf rgb x mc
    = (ps <- pixels_from (half_pixel m y_buf u_buf v_buf) n x ;;
       Ok (store_pixels mc rgb ps)).
Proof.
  induction n as [|n IH]; intros x rgb mc Hm Hw Hr Hx0 Hx1 H1 H2.
  - reflexivity.
  - rewrite HalfYV12ToRGB32Row_loop_step by lia.
    rewrite (half_pixel_agree m mc)
      by (apply (agree_on_reads m mc rgb0 N); [exact Hm | apply Hr; lia]).
    cbn [pixels_from].
    destruct (half_pixel m y_buf u_buf v_buf x) as [p|f];
      cbn [bind]; [|reflexivity].
    rewrite (writable_store32 mc rgb0 N) by (assumption || lia).
    cbn [bind].
    rewrite (IH (x + 1) (rgb + 4) (poke32 mc rgb p)).
    + destruct (pixels_from _ n (x + 1)); reflexivity.
    + apply agree_after_poke; [exact Hm | lia | lia].
    + now apply writable_poke32.
    + intros k Hk. apply Hr. lia.
    + lia.
    + lia.
    + lia.
    + lia.
Qed.

End RowLoops.

(** ** Lists of pixels *)

Lemma pixels_from_length (f : Z -> result Z) (n : nat) (x : Z) (ps : list Z) :
  pixels_from f n x = Ok ps -> length ps = n.
Proof.
  revert x ps. induction n as [|n IH]; intros x ps H; cbn [pixels_from] in H.
  - now injection H as <-.
  - bind_inv H as p _.
    apply bind_ok_inv in H. destruct H as (ps' & Hps & H).
    injection H as <-. cbn [length]. f_equal. eauto.
Qed.

Lemma pixels_from_nth (f : Z -> result Z) (n : nat) (x : Z) (ps : list Z) :
  pixels_from f n x = Ok ps ->
  forall i, (i < n)%nat -> f (x + Z.of_nat i) = Ok (nth i ps 0).
Proof.
  revert x ps. induction n as [|n IH]; intros x ps H i Hi; [lia|].
  cbn [pixels_from] in H.
  bind_inv H as p Hp.
  apply bind_ok_inv in H. destruct H as (ps' & Hps & H).
  injection H as <-. destruct i as [|i]; cbn [nth].
  - now rewrite Z.add_0_r.
  - replace (x + Z.of_nat (S i)) with (x + 1 + Z.of_nat i) by lia.
    apply (IH _ _ Hps). lia.
Qed.

(** The pixels are produced as soon as every one of them has its three table
    lookups in range. *)
Lemma pixels_from_total (f : Z -> result Z) (n : nat) (x : Z) :
  (forall i, (i < n)%nat -> exists p, f (x + Z.of_nat i) = Ok p) ->
  exists ps, pixels_from f n x = Ok ps.
Proof.
  revert x. induction n as [|n IH]; intros x H; cbn [pixels_from].
  - eauto.
  - destruct (H O ltac:(lia)) as [p Hp]. rewrite Z.add_0_r in Hp.
    rewrite Hp. cbn [bind].
    destruct (IH (x + 1)) as [ps Hps].
    { intros i Hi. destruct (H (S i) ltac:(lia)) as [q Hq].
      exists q. rewrite <- Hq. f_equal. lia. }
    rewrite Hps. cbn [bind]. eauto.
Qed.

(** ** The boolean checks are sound *)

Lemma in_int32b_sound (z : Z) : in_int32b z = true -> in_int32 z.
Proof.
  unfold in_int32b, in_int32. rewrite andb_true_iff, Z.leb_le, Z.ltb_lt. tauto.
Qed.

Lemma outsideb_sound (rgb n a : Z) : outsideb rgb n a = true -> outside rgb n a.
Proof.
  unfold outsideb, outside. rewrite orb_true_iff, Z.ltb_lt, Z.leb_le. tauto.
Qed.

Lemma forallb_outsideb_sound (rgb n : Z) (l : list Z) :
  forallb (outsideb rgb n) l = true -> Forall (outside rgb n) l.
Proof.
  rewrite forallb_forall, Forall_forall.
  intros H a Ha. apply outsideb_sound, H, Ha.
Qed.

Lemma in_columns (n x : Z) : 0 <= x < n -> In x (columns n).
Proof.
  intros Hx. unfold columns. apply in_map_iff.
  exists (Z.to_nat x). split; [lia|]. apply in_seq. lia.
Qed.

Lemma writableb_sound (m : mem) (rgb n : Z) :
  writableb m rgb n = true -> writable m rgb n.
Proof.
  unfold writableb, writable. rewrite forallb_forall.
  intros H a Ha.
  assert (Hin : In (a - rgb) (columns (4 * n))) by (apply in_columns; lia).
  specialize (H (a - rgb) Hin).
  unfold allocated in H. replace (rgb + (a - rgb)) with a in H by lia.
  destruct (m a); [discriminate | discriminate].
Qed.

Lemma scale_row_okb_sound (m : mem) (y u v rgb width sw : Z) :
  scale_row_okb m y u v rgb width sw = true ->
  scale_row_ok m y u v rgb width sw.
Proof.
  unfold scale_row_okb, scale_row_ok.
  rewrite !andb_true_iff, Z.ltb_lt, forallb_forall.
  intros [[[H0 H1] Hw] H2]. split; [exact H0|].
  split; [now apply in_int32b_sound|].
  split; [now apply writableb_sound|].
  intros x Hx. specialize (H2 x (in_columns _ _ Hx)).
  rewrite andb_true_iff in H2. destruct H2 as [Ha Hb].
  split; [now apply in_int32b_sound | now apply forallb_outsideb_sound].
Qed.

Lemma half_row_okb_sound (m : mem) (y u v rgb width : Z) :
  half_row_okb m y u v rgb width = true -> half_row_ok m y u v rgb width.
Proof.
  unfold half_row_okb, half_row_ok.
  rewrite !andb_true_iff, Z.ltb_lt, Z.leb_le, forallb_forall.
  intros [[[H0 H1] Hw] H2]. split; [lia|].
  split; [now apply writableb_sound|].
  intros x Hx. apply forallb_outsideb_sound, H2, in_columns, Hx.
Qed.

Lemma is_ok_get_mem (r : result mem) : is_ok r = true -> r = Ok (get_mem r).
Proof. destruct r; cbn; [reflexivity | discriminate]. Qed.

(** ** The row converters, whole rows *)

Lemma quot_small (a b : Z) : 0 < b -> in_int32 a -> in_int32 (Z.quot a b).
Proof.
  unfold in_int32. intros Hb Ha.
  destruct (Z_le_gt_dec 0 a) as [H0|H0].
  - rewrite Z.quot_div_nonneg by lia.
    pose proof (Z.div_pos a b H0 Hb).
    pose proof (Z.div_le_upper_bound a b a Hb ltac:(nia)). lia.
  - replace a with (- (- a)) by lia. rewrite Z.quot_opp_l by lia.
    rewrite Z.quot_div_nonneg by lia.
    pose proof (Z.div_pos (- a) b ltac:(lia) Hb).
    pose proof (Z.div_le_upper_bound (- a) b (- a) Hb ltac:(nia)). lia.
Qed.

Lemma scaled_dx_spec (width scaled_width : Z) :
  0 < scaled_width -> in_int32 (width * 16) ->
  int_div (int_mul width 16) scaled_width = Ok (spec_dx width scaled_width).
Proof.
  intros Hs Hw. rewrite int_div_positive by exact Hs.
  unfold int_mul, spec_dx.
  rewrite (wrap32_id (width * 16)) by exact Hw.
  rewrite wrap32_id by (apply quot_small; assumption).
  reflexivity.
Qed.

Lemma ScaleYV12ToRGB32Row_pure (y u v rgb width sw : Z) (m : mem) :
  scale_row_ok m y u v rgb width sw ->
  ScaleYV12ToRGB32Row y u v rgb width sw m
  = (ps <- pixels_from (fun x => scale_pixel m y u v (spec_position width sw x))
                       (Z.to_nat sw) 0 ;;
     Ok (store_pixels m rgb ps)).
Proof.
  intros (Hs & Hw & Hd & Hx).
  unfold ScaleYV12ToRGB32Row.
  rewrite scaled_dx_spec by assumption. cbn [bind].
  apply (ScaleYV12ToRGB32Row_loop_pure y u v rgb sw m).
  - reflexivity.
  - exact Hd.
  - intros k Hk. apply Hx. lia.
  - intros k Hk. apply Hx. lia.
  - reflexivity.
  - lia.
  - lia.
Qed.

Lemma HalfYV12ToRGB32Row_pure (y u v rgb width : Z) (m : mem) :
  half_row_ok m y u v rgb width ->
  HalfYV12ToRGB32Row y u v rgb width m
  = (ps <- pixels_from (half_pixel m y u v) (Z.to_nat width) 0 ;;
     Ok (store_pixels m rgb ps)).
Proof.
  intros (Hw & Hd & Hx).
  unfold HalfYV12ToRGB32Row.
  apply (HalfYV12ToRGB32Row_loop_pure y u v rgb width m).
  - reflexivity.
  - exact Hd.
  - intros k Hk. apply Hx. lia.
  - lia.
  - lia.
  - lia.
  - lia.
Qed.

(** The pixel a row converter left at column [x]. *)
Lemma row_pixel_at (f : Z -> result Z) (n x rgb : Z) (m m' : mem) :
  (forall k p, f k = Ok p -> 0 <= p < 2 ^ 32) ->
  (ps <- pixels_from f (Z.to_nat n) 0 ;; Ok (store_pixels m rgb ps)) = Ok m' ->
  0 <= x < n ->
  exists p, f x = Ok p /\ load32 m' (rgb + 4 * x) = Ok p.
Proof.
  intros Hf H Hx.
  bind_inv H as ps Hps. injection H as <-.
  pose proof (pixels_from_length _ _ _ _ Hps) as Hlen.
  pose proof (pixels_from_nth _ _ _ _ Hps (Z.to_nat x) ltac:(lia)) as Hn.
  rewrite Z2Nat.id, Z.add_0_l in Hn by lia.
  exists (nth (Z.to_nat x) ps 0). split; [exact Hn|].
  replace (rgb + 4 * x) with (rgb + 4 * Z.of_nat (Z.to_nat x)) by lia.
  apply load32_store_pixels; [lia | eapply Hf; exact Hn].
Qed.

(** A row conversion completes as soon as each of its pixels can be
    computed: its samples are allocated and its three lookups are inside the
    table. *)
Lemma ScaleYV12ToRGB32Row_completes (y u v rgb width sw : Z) (m : mem) :
  scale_row_ok m y u v rgb width sw ->
  (forall x, 0 <= x < sw ->
             exists p, scale_pixel m y u v (spec_position width sw x) = Ok p) ->
  exists m', ScaleYV12ToRGB32Row y u v rgb width sw m = Ok m'.
Proof.
  intros Hok Hp. rewrite ScaleYV12ToRGB32Row_pure by exact Hok.
  destruct (pixels_from_total
              (fun x => scale_pixel m y u v (spec_position width sw x))
              (Z.to_nat sw) 0) as [ps Hps].
  { intros i Hi. apply Hp. lia. }
  rewrite Hps. cbn [bind]. eauto.
Qed.

Lemma HalfYV12ToRGB32Row_completes (y u v rgb width : Z) (m : mem) :
  half_row_ok m y u v rgb width ->
  (forall x, 0 <= x < width -> exists p, half_pixel m y u v x = Ok p) ->
  exists m', HalfYV12ToRGB32Row y u v rgb width m = Ok m'.
Proof.
  intros Hok Hp. rewrite HalfYV12ToRGB32Row_pure by exact Hok.
  destruct (pixels_from_total (half_pixel m y u v) (Z.to_nat width) 0)
    as [ps Hps].
  { intros i Hi. apply Hp. lia. }
  rewrite Hps. cbn [bind]. eauto.
Qed.

(** The colour transform produces a pixel exactly when its three 8.8 values
    are in the range the table covers. *)
Lemma spec_pixel_ok_iff (luma U V : Z) :
  (exists p, spec_pixel luma U V = Ok p) <->
  covered ((luma - 16) * 298 + 128 + (516 * (U - 128) + 128)) /\
  covered ((luma - 16) * 298 + 128
           + (-100 * (U - 128) - 208 * (V - 128) + 128)) /\
  covered ((luma - 16) * 298 + 128 + (409 * (V - 128) + 128)).
Proof.
  unfold spec_pixel. cbv zeta. split.
  - intros [p H].
    bind_inv H as B EB. bind_inv H as G EG. bind_inv H as R ER.
    apply clip_ok_inv in EB, EG, ER. tauto.
  - intros (HB & HG & HR).
    rewrite (clip_covered _ HB), (clip_covered _ HG), (clip_covered _ HR).
    cbn [bind]. eauto.
Qed.

Lemma scale_pixel_inv (m : mem) (y u v pos p : Z) :
  scale_pixel m y u v pos = Ok p ->
  exists U V y0 y1,
    load8 m (u + Z.shiftr pos 5) = Ok U /\
    load8 m (v + Z.shiftr pos 5) = Ok V /\
    load8 m (y + Z.shiftr pos 4) = Ok y0 /\
    load8 m (y + (Z.shiftr pos 4 + 1)) = Ok y1 /\
    spec_pixel (spec_blend (Z.shiftr (Z.land pos 15) 2) y0 y1) U V = Ok p.
Proof.
  unfold scale_pixel. intros H.
  bind_inv H as U EU.
  bind_inv H as V EV.
  bind_inv H as y0 E0.
  bind_inv H as y1 E1.
  exists U, V, y0, y1. auto.
Qed.

Lemma half_pixel_inv (m : mem) (y u v x p : Z) :
  half_pixel m y u v x = Ok p ->
  exists U V y0 y1,
    load8 m (u + x) = Ok U /\ load8 m (v + x) = Ok V /\
    load8 m (y + 2 * x) = Ok y0 /\ load8 m (y + (2 * x + 1)) = Ok y1 /\
    spec_pixel ((y0 + y1) / 2) U V = Ok p.
Proof.
  unfold half_pixel. intros H.
  bind_inv H as U EU.
  bind_inv H as V EV.
  bind_inv H as y0 E0.
  bind_inv H as y1 E1.
  exists U, V, y0, y1. auto.
Qed.

Lemma scale_pixel_range (m : mem) (y u v pos p : Z) :
  scale_pixel m y u v pos = Ok p -> 0 <= p < 2 ^ 32.
Proof.
  intros H. apply scale_pixel_inv in H.
  destruct H as (U & V & y0 & y1 & _ & _ & _ & _ & H).
  eapply spec_pixel_range, H.
Qed.

Lemma half_pixel_range (m : mem) (y u v x p : Z) :
  half_pixel m y u v x = Ok p -> 0 <= p < 2 ^ 32.
Proof.
  intros H. apply half_pixel_inv in H.
  destruct H as (U & V & y0 & y1 & _ & _ & _ & _ & H).
  eapply spec_pixel_range, H.
Qed.

(** ** The colour transform and the pixel layout *)

Lemma channel_div (p k : Z) :
  0 <= k -> channel p k = (p / 2 ^ (8 * k)) mod 256.
Proof.
  intros Hk. unfold channel.
  change 255 with (Z.ones 8). rewrite Z.land_ones by lia.
  rewrite Z.shiftr_div_pow2 by lia. reflexivity.
Qed.

Lemma channels_of_packed (B G R : Z) :
  0 <= B <= 255 -> 0 <= G <= 255 -> 0 <= R <= 255 ->
  let p := B + G * 2 ^ 8 + R * 2 ^ 16 + 255 * 2 ^ 24 in
  channel p 0 = B /\ channel p 1 = G /\ channel p 2 = R /\ channel p 3 = 255.
Proof.
  intros HB HG HR p. subst p.
  rewrite !channel_div by lia.
  change (8 * 0) with 0. change (8 * 1) with 8.
  change (8 * 2) with 16. change (8 * 3) with 24.
  change (2 ^ 0) with 1. change (2 ^ 8) with 256.
  change (2 ^ 16) with 65536. change (2 ^ 24) with 16777216.
  repeat split; Z.div_mod_to_equations; lia.
Qed.

Lemma spec_pixel_is_bgra (luma U V p : Z) :
  spec_pixel luma U V = Ok p -> is_bgra_pixel luma U V p.
Proof.
  unfold spec_pixel, is_bgra_pixel. cbv zeta. intros H.
  bind_inv H as B EB.
  bind_inv H as G EG.
  bind_inv H as R ER.
  injection H as <-.
  exists R, G, B. repeat (split; [assumption|]).
  apply channels_of_packed; eapply clip_range; eassumption.
Qed.

(** C5: every pixel either row converter produces is the colour transform of
    the luma and chroma samples of its column, packed with B in bits 0-7, G
    in bits 8-15, R in bits 16-23 and alpha 255. *)
Theorem row_pixels_are_bgra (y_buf u_buf v_buf rgb_buf : Z) (m : mem) :
  (forall width scaled_width m' x,
      scale_row_ok m y_buf u_buf v_buf rgb_buf width scaled_width ->
      ScaleYV12ToRGB32Row y_buf u_buf v_buf rgb_buf width scaled_width m
      = Ok m' ->
      0 <= x < scaled_width ->
      let pos := spec_position width scaled_width x in
      exists U V y0 y1 p,
        load8 m (u_buf + Z.shiftr pos 5) = Ok U /\
        load8 m (v_buf + Z.shiftr pos 5) = Ok V /\
        load8 m (y_buf + Z.shiftr pos 4) = Ok y0 /\
        load8 m (y_buf + (Z.shiftr pos 4 + 1)) = Ok y1 /\
        load32 m' (rgb_buf + 4 * x) = Ok p /\
        is_bgra_pixel (spec_blend (Z.shiftr (Z.land pos 15) 2) y0 y1) U V p)
  /\
  (forall width m' x,
      half_row_ok m y_buf u_buf v_buf rgb_buf width ->
      HalfYV12ToRGB32Row y_buf u_buf v_buf rgb_buf width m = Ok m' ->
      0 <= x < width ->
      exists U V y0 y1 p,
        load8 m (u_buf + x) = Ok U /\ load8 m (v_buf + x) = Ok V /\
        load8 m (y_buf + 2 * x) = Ok y0 /\
        load8 m (y_buf + (2 * x + 1)) = Ok y1 /\
        load32 m' (rgb_buf + 4 * x) = Ok p /\
        is_bgra_pixel ((y0 + y1) / 2) U V p).
Proof.
  split.
  - intros width sw m' x Hok H Hx pos.
    rewrite ScaleYV12ToRGB32Row_pure in H by exact Hok.
    destruct (row_pixel_at _ sw x rgb_buf m m'
                (fun k => scale_pixel_range m y_buf u_buf v_buf _) H Hx)
      as (p & Hp & Hl).
    apply scale_pixel_inv in Hp.
    destruct Hp as (U & V & y0 & y1 & EU & EV & E0 & E1 & Hp).
    exists U, V, y0, y1, p.
    repeat (split; [assumption|]). now apply spec_pixel_is_bgra.
  - intros width m' x Hok H Hx.
    rewrite HalfYV12ToRGB32Row_pure in H by exact Hok.
    destruct (row_pixel_at _ width x rgb_buf m m'
                (half_pixel_range m y_buf u_buf v_buf) H Hx)
      as (p & Hp & Hl).
    apply half_pixel_inv in Hp.
    destruct Hp as (U & V & y0 & y1 & EU & EV & E0 & E1 & Hp).
    exists U, V, y0, y1, p.
    repeat (split; [assumption|]). now apply spec_pixel_is_bgra.
Qed.

Lemma row_pixels_are_bgra_witness :
  (exists U V y0 y1 p,
     load8 example_frame (32 + Z.shiftr (spec_position 4 3 2) 5) = Ok U /\
     load8 example_frame (48 + Z.shiftr (spec_position 4 3 2) 5) = Ok V /\
     load8 example_frame (0 + Z.shiftr (spec_position 4 3 2) 4) = Ok y0 /\
     load8 example_frame (0 + (Z.shiftr (spec_position 4 3 2) 4 + 1))
     = Ok y1 /\
     load32 (get_mem (ScaleYV12ToRGB32Row 0 32 48 100 4 3 example_frame))
            (100 + 4 * 2) = Ok p /\
     is_bgra_pixel
       (spec_blend (Z.shiftr (Z.land (spec_position 4 3 2) 15) 2) y0 y1)
       U V p)
  /\
  (exists U V y0 y1 p,
     load8 example_frame (32 + 1) = Ok U /\
     load8 example_frame (48 + 1) = Ok V /\
     load8 example_frame (0 + 2 * 1) = Ok y0 /\
     load8 example_frame (0 + (2 * 1 + 1)) = Ok y1 /\
     load32 (get_mem (HalfYV12ToRGB32Row 0 32 48 100 2 example_frame))
            (100 + 4 * 1) = Ok p /\
     is_bgra_pixel ((y0 + y1) / 2) U V p).
Proof.
  destruct (row_pixels_are_bgra 0 32 48 100 example_frame) as [Hs Hh].
  split.
  - apply (Hs 4 3 _ 2).
    + apply scale_row_okb_sound. vm_compute. reflexivity.
    + apply is_ok_get_mem. vm_compute. reflexivity.
    + lia.
  - apply (Hh 2 _ 1).
    + apply half_row_okb_sound. vm_compute. reflexivity.
    + apply is_ok_get_mem. vm_compute. reflexivity.
    + lia.
Defined.

(** ** Horizontal sampling of the general-ratio converter *)




(** ** Lookups outside the saturation table *)

(** C2 fails on the code: for Y = 0 and U = 0 the blue channel's 8.8 value is
    -70560 and the lookup is at index -148, before the table; for Y = 255 and
    U = 255 it is at index 663, past its 512 entries.  Both row converters
    make these lookups. *)
Theorem clip_index_leaves_table :
  ScaleYV12ToRGB32Row 0 32 48 100 4 3 dark_row
  = Fault (ClipTableOutOfRange (-148)) /\
  HalfYV12ToRGB32Row 0 32 48 100 2 dark_row
  = Fault (ClipTableOutOfRange (-148)) /\
  ScaleYV12ToRGB32Row 0 32 48 100 4 3 bright_row
  = Fault (ClipTableOutOfRange 663) /\
  HalfYV12ToRGB32Row 0 32 48 100 2 bright_row
  = Fault (ClipTableOutOfRange 663) /\
  ~ covered ((0 - 16) * 298 + 128 + (516 * (0 - 128) + 128)) /\
  ~ covered ((255 - 16) * 298 + 128 + (516 * (255 - 128) + 128)).
Proof.
  repeat split; try (vm_compute; reflexivity); unfold covered; lia.
Qed.

(** ** Luma indices of the general-ratio converter *)

Lemma shiftr4_div (z : Z) : Z.shiftr z 4 = z / 16.
Proof. rewrite Z.shiftr_div_pow2 by lia. reflexivity. Qed.

Lemma shiftr5_div (z : Z) : Z.shiftr z 5 = z / 32.
Proof. rewrite Z.shiftr_div_pow2 by lia. reflexivity. Qed.

Lemma spec_dx_floor (width scaled_width : Z) :
  0 <= width -> 0 < scaled_width ->
  spec_dx width scaled_width = width * 16 / scaled_width.
Proof. intros. unfold spec_dx. apply Z.quot_div_nonneg; lia. Qed.

(** The first luma sample of every column lies in the row. *)
Lemma luma_index_in_row (width scaled_width x : Z) :
  0 < scaled_width <= width -> 0 <= x < scaled_width ->
  0 <= Z.shiftr (spec_position width scaled_width x) 4 <= width - 1.
Proof.
  intros Hs Hx. unfold spec_position.
  rewrite spec_dx_floor, shiftr4_div by lia.
  set (dx := width * 16 / scaled_width).
  assert (Hdx : scaled_width * dx <= width * 16)
    by (apply Z.mul_div_le; lia).
  assert (Hdx0 : 0 <= dx) by (apply Z.div_pos; lia).
  assert (Hdx16 : 16 <= dx) by (apply Z.div_le_lower_bound; lia).
  split.
  - apply Z.div_pos; nia.
  - assert (x * dx <= 16 * width - 16) by nia.
    assert (x * dx / 16 < width); [|lia].
    apply Z.div_lt_upper_bound; lia.
Qed.

(** When the row is really scaled down, the next sample does too. *)
Lemma luma_next_index_in_row (width scaled_width x : Z) :
  0 < scaled_width < width -> 0 <= x < scaled_width ->
  Z.shiftr (spec_position width scaled_width x) 4 + 1 <= width - 1.
Proof.
  intros Hs Hx. unfold spec_position.
  rewrite spec_dx_floor, shiftr4_div by lia.
  set (dx := width * 16 / scaled_width).
  assert (Hdx : scaled_width * dx <= width * 16)
    by (apply Z.mul_div_le; lia).
  assert (Hdx16 : 16 <= dx) by (apply Z.div_le_lower_bound; lia).
  assert (H : x * dx <= 16 * width - 17) by nia.
  assert (x * dx / 16 < width - 1); [|lia].
  apply Z.div_lt_upper_bound; lia.
Qed.

(** At the identity ratio the last column's next sample is [y[width]]. *)
Lemma luma_next_index_identity (width : Z) :
  0 < width ->
  Z.shiftr (spec_position width width (width - 1)) 4 + 1 = width.
Proof.
  intros Hw. unfold spec_position.
  rewrite spec_dx_floor, shiftr4_div by lia.
  rewrite (Z.mul_comm width 16), Z.div_mul by lia.
  rewrite Z.div_mul by lia. lia.
Qed.

(** C8 fails on the code: with [scaled_width = width = 4] and a luma row of
    exactly four samples the converter reads [y_buf[4]] at the last column;
    [ScaleYV16ToRGB32] makes this call for a frame shown at its own size. *)
Theorem scale_row_reads_past_row_end :
  ScaleYV12ToRGB32Row 0 32 48 100 4 4 tight_row = Fault (InvalidAccess 4) /\
  (forall DEBUG,
      ScaleYV16ToRGB32 DEBUG 0 32 48 100 4 1 4 1 4 2 16 ROTATE_0 tight_row
      = Fault (InvalidAccess 4)) /\
  Z.shiftr (spec_position 4 4 3) 4 + 1 = 4.
Proof.
  split; [vm_compute; reflexivity|].
  split; [|vm_compute; reflexivity].
  intros DEBUG. unfold ScaleYV16ToRGB32, DCHECK.
  replace (implemented ROTATE_0) with true by reflexivity.
  rewrite andb_false_r. cbn [bind]. vm_compute. reflexivity.
Qed.

(** ** The half-rate converter against the general one at ratio 2 *)

Lemma div_close_298 (a b : Z) :
  Z.abs (a - b) <= 298 -> Z.abs (a / 256 - b / 256) <= 2.
Proof. intros H. Z.div_mod_to_equations. lia. Qed.

Lemma clamp_close (a b d : Z) :
  Z.abs (a - b) <= d -> Z.abs (clamp a 0 255 - clamp b 0 255) <= d.
Proof. unfold clamp. lia. Qed.

Lemma clip_close (a b ca cb : Z) :
  clip a = Ok ca -> clip b = Ok cb ->
  Z.abs (a - b) <= 298 -> Z.abs (ca - cb) <= 2.
Proof.
  intros Ha Hb H.
  apply clip_ok_inv in Ha, Hb. destruct Ha as [_ ->], Hb as [_ ->].
  apply clamp_close, div_close_298, H.
Qed.

(** Lumas one apart give channels at most two apart. *)
Lemma spec_pixel_close (l1 l2 U V p1 p2 k : Z) :
  spec_pixel l1 U V = Ok p1 -> spec_pixel l2 U V = Ok p2 ->
  Z.abs (l1 - l2) <= 1 -> 0 <= k < 4 ->
  Z.abs (channel p1 k - channel p2 k) <= 2.
Proof.
  intros H1 H2 Hl Hk.
  apply spec_pixel_is_bgra in H1, H2.
  destruct H1 as (R1 & G1 & B1 & HR1 & HG1 & HB1 & C10 & C11 & C12 & C13).
  destruct H2 as (R2 & G2 & B2 & HR2 & HG2 & HB2 & C20 & C21 & C22 & C23).
  assert (Hc : k = 0 \/ k = 1 \/ k = 2 \/ k = 3) by lia.
  destruct Hc as [-> | [-> | [-> | ->]]].
  - rewrite C10, C20. eapply clip_close; [exact HB1 | exact HB2 | lia].
  - rewrite C11, C21. eapply clip_close; [exact HG1 | exact HG2 | lia].
  - rewrite C12, C22. eapply clip_close; [exact HR1 | exact HR2 | lia].
  - rewrite C13, C23. lia.
Qed.

Lemma spec_dx_half (w : Z) : 0 < w -> w mod 2 = 0 -> spec_dx w (w / 2) = 32.
Proof.
  intros Hw He. unfold spec_dx.
  assert (E : w = 2 * (w / 2)) by (apply Z.div_exact; lia).
  assert (0 < w / 2) by lia.
  rewrite Z.quot_div_nonneg by lia.
  rewrite E at 1. replace (2 * (w / 2) * 16) with (32 * (w / 2)) by lia.
  apply Z.div_mul. lia.
Qed.

Lemma position_half (x : Z) :
  Z.shiftr (x * 32) 5 = x /\ Z.shiftr (x * 32) 4 = 2 * x /\
  Z.shiftr (Z.land (x * 32) 15) 2 = 0.
Proof.
  rewrite shiftr5_div, shiftr4_div.
  change 15 with (Z.ones 4). rewrite Z.land_ones by lia.
  rewrite Z.shiftr_div_pow2 by lia.
  change (2 ^ 4) with 16. change (2 ^ 2) with 4.
  repeat split; Z.div_mod_to_equations; lia.
Qed.

Lemma scale_pixel_half (m : mem) (y u v x : Z) :
  scale_pixel m y u v (x * 32)
  = (U <- load8 m (u + x) ;;
     V <- load8 m (v + x) ;;
     y0 <- load8 m (y + 2 * x) ;;
     y1 <- load8 m (y + (2 * x + 1)) ;;
     spec_pixel y0 U V).
Proof.
  unfold scale_pixel.
  destruct (position_half x) as (-> & -> & ->). reflexivity.
Qed.

Lemma half_ok_scale_ok (m : mem) (y u v rgb w : Z) :
  0 < w -> w mod 2 = 0 -> in_int32 (w * 16) ->
  half_row_ok m y u v rgb (w / 2) -> scale_row_ok m y u v rgb w (w / 2).
Proof.
  intros Hw He Hi (Hn & Hd & Hr).
  assert (E : w = 2 * (w / 2)) by (apply Z.div_exact; lia).
  split; [lia|]. split; [exact Hi|]. split; [exact Hd|].
  intros x Hx. unfold spec_position. rewrite spec_dx_half by assumption.
  split.
  - unfold in_int32 in *. lia.
  - unfold scale_reads. destruct (position_half x) as (-> & -> & _).
    apply Hr, Hx.
Qed.

(** C3, as the code has it: for a row of even source width [w] shown at
    [w / 2], the general converter steps by 32 with blend pattern 0.  At
    every destination column [x] both converters read chroma samples [u[x]]
    and [v[x]] and the luma pair [y[2x]], [y[2x+1]]; the half-rate converter
    writes the pixel of the mean [floor ((y[2x] + y[2x+1]) / 2)], the
    general converter the pixel of [y[2x]] alone.  Where the second sample
    of the pair is between 2 below and 3 above the first, every channel of
    the two pixels differs by at most 2. *)
Theorem half_row_near_scale_row (y_buf u_buf v_buf rgb_buf w : Z)
    (m m1 m2 : mem) :
  0 < w -> w mod 2 = 0 -> in_int32 (w * 16) ->
  half_row_ok m y_buf u_buf v_buf rgb_buf (w / 2) ->
  HalfYV12ToRGB32Row y_buf u_buf v_buf rgb_buf (w / 2) m = Ok m1 ->
  ScaleYV12ToRGB32Row y_buf u_buf v_buf rgb_buf w (w / 2) m = Ok m2 ->
  spec_dx w (w / 2) = 32 /\
  forall x,
    0 <= x < w / 2 ->
    Z.shiftr (Z.land (spec_position w (w / 2) x) 15) 2 = 0 /\
    exists U V y0 y1 p1 p2,
      load8 m (u_buf + x) = Ok U /\
      load8 m (v_buf + x) = Ok V /\
      load8 m (y_buf + 2 * x) = Ok y0 /\
      load8 m (y_buf + (2 * x + 1)) = Ok y1 /\
      load32 m1 (rgb_buf + 4 * x) = Ok p1 /\
      spec_pixel ((y0 + y1) / 2) U V = Ok p1 /\
      load32 m2 (rgb_buf + 4 * x) = Ok p2 /\
      spec_pixel y0 U V = Ok p2 /\
      (-2 <= y1 - y0 <= 3 ->
       forall k, 0 <= k < 4 ->
                 Z.abs (channel p1 k - channel p2 k) <= 2).
Proof.
  intros Hw He Hi Hok H1 H2.
  split; [apply spec_dx_half; assumption|].
  intros x Hx.
  pose proof (half_ok_scale_ok m _ _ _ _ w Hw He Hi Hok) as Hok2.
  rewrite HalfYV12ToRGB32Row_pure in H1 by exact Hok.
  rewrite ScaleYV12ToRGB32Row_pure in H2 by exact Hok2.
  destruct (row_pixel_at _ (w / 2) x rgb_buf m m1
              (half_pixel_range m y_buf u_buf v_buf) H1 Hx)
    as (p1 & Hp1 & Hl1).
  destruct (row_pixel_at _ (w / 2) x rgb_buf m m2
              (fun k => scale_pixel_range m y_buf u_buf v_buf _) H2 Hx)
    as (p2 & Hp2 & Hl2).
  unfold spec_position in *. rewrite spec_dx_half in * by assumption.
  split; [apply position_half|].
  rewrite scale_pixel_half in Hp2.
  apply half_pixel_inv in Hp1.
  destruct Hp1 as (U & V & y0 & y1 & EU & EV & E0 & E1 & Hp1).
  rewrite EU, EV, E0, E1 in Hp2. cbn [bind] in Hp2.
  exists U, V, y0, y1, p1, p2.
  repeat (split; [assumption|]).
  intros Hpair k Hk.
  apply (spec_pixel_close ((y0 + y1) / 2) y0 U V); try assumption.
  Z.div_mod_to_equations. lia.
Qed.

Lemma half_row_near_scale_row_witness :
  spec_dx 8 (8 / 2) = 32 /\
  Z.shiftr (Z.land (spec_position 8 (8 / 2) 1) 15) 2 = 0 /\
  exists U V y0 y1 p1 p2,
    load8 example_frame (40 + 1) = Ok U /\
    load8 example_frame (56 + 1) = Ok V /\
    load8 example_frame (16 + 2 * 1) = Ok y0 /\
    load8 example_frame (16 + (2 * 1 + 1)) = Ok y1 /\
    load32 (get_mem (HalfYV12ToRGB32Row 16 40 56 100 (8 / 2) example_frame))
           (100 + 4 * 1) = Ok p1 /\
    spec_pixel ((y0 + y1) / 2) U V = Ok p1 /\
    load32 (get_mem (ScaleYV12ToRGB32Row 16 40 56 100 8 (8 / 2)
                       example_frame))
           (100 + 4 * 1) = Ok p2 /\
    spec_pixel y0 U V = Ok p2 /\
    forall k, 0 <= k < 4 -> Z.abs (channel p1 k - channel p2 k) <= 2.
Proof.
  destruct (half_row_near_scale_row 16 40 56 100 8 example_frame
              (get_mem (HalfYV12ToRGB32Row 16 40 56 100 (8 / 2)
                          example_frame))
              (get_mem (ScaleYV12ToRGB32Row 16 40 56 100 8 (8 / 2)
                          example_frame)))
    as [Hdx Hcol].
  - lia.
  - reflexivity.
  - unfold in_int32. lia.
  - apply half_row_okb_sound. vm_compute. reflexivity.
  - apply is_ok_get_mem. vm_compute. reflexivity.
  - apply is_ok_get_mem. vm_compute. reflexivity.
  - split; [exact Hdx|].
    destruct (Hcol 1) as (Hpat & U & V & y0 & y1 & p1 & p2 & EU & EV & E0 &
                          E1 & L1 & P1 & L2 & P2 & Hclose).
    { change (8 / 2) with 4. lia. }
    split; [exact Hpat|].
    exists U, V, y0, y1, p1, p2.
    repeat (split; [assumption|]).
    apply Hclose.
    vm_compute in E0. vm_compute in E1.
    injection E0 as <-. injection E1 as <-. lia.
Defined.

(** C3 as stated fails: for the luma pair (100, 200) the half-rate converter
    converts luma 150 and the general converter luma 100, and the blue
    channels are 140 and 82. *)
Lemma half_row_far_from_scale_row :
  half_row_ok example_frame 0 32 48 100 (4 / 2) /\
  scale_row_ok example_frame 0 32 48 100 4 (4 / 2) /\
  pixel_result (HalfYV12ToRGB32Row 0 32 48 100 (4 / 2) example_frame)
               (100 + 4 * 1) = Ok 4289239692 /\
  pixel_result (ScaleYV12ToRGB32Row 0 32 48 100 4 (4 / 2) example_frame)
               (100 + 4 * 1) = Ok 4285358162 /\
  channel 4289239692 0 = 140 /\ channel 4285358162 0 = 82.
Proof.
  split; [apply half_row_okb_sound; vm_compute; reflexivity|].
  split; [apply scale_row_okb_sound; vm_compute; reflexivity|].
  repeat split; vm_compute; reflexivity.
Qed.

(** ** What a row converter writes *)

Lemma writes_row_refl (m : mem) (rgb : Z) : writes_row m m rgb 0.
Proof.
  split; [reflexivity|]. split; [intros a Ha; lia | reflexivity].
Qed.

Lemma poke8_none (m : mem) (p v a : Z) :
  m p <> None -> (poke8 m p v a = None <-> m a = None).
Proof.
  intros Hp. unfold poke8. destruct (Z.eqb_spec a p) as [->|Hne].
  - split; [discriminate | tauto].
  - reflexivity.
Qed.

Lemma store32_writes (m m' : mem) (p v : Z) :
  store32 m p v = Ok m' -> writes_row m m' p 1.
Proof.
  unfold store32. intros H.
  bind_inv H as m1 H1.
  bind_inv H as m2 H2.
  bind_inv H as m3 H3.
  apply store8_inv in H1, H2, H3, H.
  destruct H1 as [-> A0], H2 as [-> A1], H3 as [-> A2], H as [-> A3].
  assert (B1 : m (p + 1) <> None) by (rewrite poke8_other in A1 by lia; exact A1).
  assert (B2 : m (p + 2) <> None)
    by (rewrite !poke8_other in A2 by lia; exact A2).
  assert (B3 : m (p + 3) <> None)
    by (rewrite !poke8_other in A3 by lia; exact A3).
  split; [|split].
  - unfold outside. intros a Ha. rewrite !poke8_other by lia. reflexivity.
  - intros a Ha.
    assert (Hc : a = p \/ a = p + 1 \/ a = p + 2 \/ a = p + 3) by lia.
    destruct Hc as [-> | [-> | [-> | ->]]]; assumption.
  - intros a.
    rewrite poke8_none by exact A3. rewrite poke8_none by exact A2.
    rewrite poke8_none by exact A1. now apply poke8_none.
Qed.

(** A pixel stored, then [n] more from the next address on. *)
Lemma writes_row_cons (m m1 m' : mem) (rgb n : Z) :
  0 <= n ->
  writes_row m m1 rgb 1 -> writes_row m1 m' (rgb + 4) n ->
  writes_row m m' rgb (n + 1).
Proof.
  unfold writes_row, outside.
  intros Hn (O1 & I1 & A1) (O2 & I2 & A2). split; [|split].
  - intros a Ha. rewrite O2 by lia. apply O1. lia.
  - intros a Ha. destruct (Z_lt_le_dec a (rgb + 4)) as [Hlt|Hge].
    + apply I1. lia.
    + rewrite <- A1. apply I2. lia.
  - intros a. rewrite A2. apply A1.
Qed.

Lemma ScaleYV12ToRGB32Row_loop_writes (y u v dx : Z) :
  forall (n : nat) (rgb sx : Z) (mc m' : mem),
    ScaleYV12ToRGB32Row_loop n y u v dx rgb sx mc = Ok m' ->
    writes_row mc m' rgb (Z.of_nat n).
Proof.
  induction n as [|n IH]; intros rgb sx mc m' H.
  - injection H as <-. apply writes_row_refl.
  - rewrite ScaleYV12ToRGB32Row_loop_step in H.
    bind_inv H as p _.
    bind_inv H as m1 Hs.
    replace (Z.of_nat (S n)) with (Z.of_nat n + 1) by lia.
    apply (writes_row_cons mc m1 m'); [lia | | ].
    + now apply (store32_writes mc m1 rgb p).
    + now apply (IH _ _ _ _ H).
Qed.

Lemma HalfYV12ToRGB32Row_loop_writes (y u v : Z) :
  forall (n : nat) (rgb x : Z) (mc m' : mem),
    HalfYV12ToRGB32Row_loop n y u v rgb x mc = Ok m' ->
    writes_row mc m' rgb (Z.of_nat n).
Proof.
  induction n as [|n IH]; intros rgb x mc m' H.
  - injection H as <-. apply writes_row_refl.
  - cbn [HalfYV12ToRGB32Row_loop] in H.
    bind_inv H as U _.
    bind_inv H as V _.
    bind_inv H as y0 _.
    bind_inv H as y1 _.
    cbv zeta in H.
    bind_inv H as b _.
    bind_inv H as g _.
    bind_inv H as r _.
    bind_inv H as m1 Hs.
    replace (Z.of_nat (S n)) with (Z.of_nat n + 1) by lia.
    apply (writes_row_cons mc m1 m'); [lia | | ].
    + eapply store32_writes, Hs.
    + now apply (IH _ _ _ _ H).
Qed.

Lemma writes_row_of_nat (m m' : mem) (rgb n : Z) :
  writes_row m m' rgb (Z.of_nat (Z.to_nat n)) -> writes_row m m' rgb n.
Proof.
  destruct (Z_le_gt_dec 0 n) as [Hn|Hn].
  - now rewrite Z2Nat.id by lia.
  - replace (Z.to_nat n) with O by lia. cbn [Z.of_nat].
    unfold writes_row, outside. intros (O1 & _ & A1). split; [|split].
    + intros a _. apply O1. lia.
    + intros a Ha. lia.
    + exact A1.
Qed.

Lemma ScaleYV12ToRGB32Row_writes (y u v rgb width sw : Z) (m m' : mem) :
  ScaleYV12ToRGB32Row y u v rgb width sw m = Ok m' -> writes_row m m' rgb sw.
Proof.
  unfold ScaleYV12ToRGB32Row. intros H.
  bind_inv H as dx _.
  eapply writes_row_of_nat, ScaleYV12ToRGB32Row_loop_writes, H.
Qed.

Lemma HalfYV12ToRGB32Row_writes (y u v rgb width : Z) (m m' : mem) :
  HalfYV12ToRGB32Row y u v rgb width m = Ok m' -> writes_row m m' rgb width.
Proof.
  unfold HalfYV12ToRGB32Row. intros H.
  eapply writes_row_of_nat, HalfYV12ToRGB32Row_loop_writes, H.
Qed.

(** ** What a frame scaler writes *)

Lemma writes_rows_nil (m : mem) (rgb pitch sw y0 : Z) :
  writes_rows m m rgb pitch sw y0 0.
Proof.
  split; [reflexivity|]. split; [intros y a Hy; lia | reflexivity].
Qed.

Lemma writes_rows_cons (m m1 m' : mem) (rgb pitch sw y0 n : Z) :
  0 <= n ->
  writes_row m m1 (rgb + y0 * pitch) sw ->
  writes_rows m1 m' rgb pitch sw (y0 + 1) n ->
  writes_rows m m' rgb pitch sw y0 (n + 1).
Proof.
  unfold writes_rows, writes_row, in_dest_row, outside.
  intros Hn (O1 & I1 & A1) (O2 & I2 & A2). split; [|split].
  - intros a Ha. rewrite O2.
    + apply O1. specialize (Ha y0 ltac:(lia)). lia.
    + intros y Hy. apply Ha. lia.
  - intros y a Hy Hin. destruct (Z.eq_dec y y0) as [->|Hne].
    + apply I1. lia.
    + rewrite <- A1. apply (I2 y a); [lia | exact Hin].
  - intros a. rewrite A2. apply A1.
Qed.

Lemma writes_rows_of_nat (m m' : mem) (rgb pitch sw n : Z) :
  writes_rows m m' rgb pitch sw 0 (Z.of_nat (Z.to_nat n)) ->
  writes_rows m m' rgb pitch sw 0 n.
Proof.
  destruct (Z_le_gt_dec 0 n) as [Hn|Hn].
  - now rewrite Z2Nat.id by lia.
  - replace (Z.to_nat n) with O by lia. cbn [Z.of_nat].
    unfold writes_rows. intros (O1 & _ & A1). split; [|split].
    + intros a _. apply O1. intros y Hy. lia.
    + intros y a Hy. lia.
    + exact A1.
Qed.

Section FrameWrites.

Variable DEBUG : bool.
Variable ConvertYV12ToRGB32Row : Z -> Z -> Z -> Z -> Z -> mem -> result mem.

(** The converter defined outside the file writes one destination row. *)
Hypothesis Convert_writes :
  forall y u v rgb w m m',
    ConvertYV12ToRGB32Row y u v rgb w m = Ok m' -> writes_row m m' rgb w.

Variables (y_buf u_buf v_buf rgb_buf : Z).
Variables (width height scaled_width scaled_height : Z).
Variables (y_pitch uv_pitch rgb_pitch : Z).

Hypothesis rgb_offsets :
  forall y, 0 <= y < scaled_height -> in_int32 (y * rgb_pitch).

Hypothesis scaled_width_range : 0 < scaled_width < 2 ^ 31.

Lemma ScaleYV12ToRGB32_loop_writes :
  forall (n : nat) (y : Z) (m m' : mem),
    0 <= y -> y + Z.of_nat n <= scaled_height ->
    ScaleYV12ToRGB32_loop ConvertYV12ToRGB32Row n y y_buf u_buf v_buf
      rgb_buf width height scaled_width scaled_height
      y_pitch uv_pitch rgb_pitch m = Ok m' ->
    writes_rows m m' rgb_buf rgb_pitch scaled_width y (Z.of_nat n).
Proof.
  induction n as [|n IH]; intros y m m' Hy Hn H.
  - injection H as <-. apply writes_rows_nil.
  - cbn [ScaleYV12ToRGB32_loop] in H.
    bind_inv H as scaled_y _.
    bind_inv H as m1 Hrow.
    rewrite (int_mul_id y rgb_pitch) in Hrow by (apply rgb_offsets; lia).
    replace (Z.of_nat (S n)) with (Z.of_nat n + 1) by lia.
    apply (writes_rows_cons m m1 m'); [lia | | apply IH; [lia | lia | exact H]].
    destruct (scaled_width =? width).
    + rewrite size_t_of_int_id in Hrow by lia.
      eapply Convert_writes, Hrow.
    + destruct (scaled_width =? int_divc width 2).
      * eapply HalfYV12ToRGB32Row_writes, Hrow.
      * eapply ScaleYV12ToRGB32Row_writes, Hrow.
Qed.

Lemma ScaleYV16ToRGB32_loop_writes :
  forall (n : nat) (y : Z) (m m' : mem),
    0 <= y -> y + Z.of_nat n <= scaled_height ->
    ScaleYV16ToRGB32_loop n y y_buf u_buf v_buf
      rgb_buf width height scaled_width scaled_height
      y_pitch uv_pitch rgb_pitch m = Ok m' ->
    writes_rows m m' rgb_buf rgb_pitch scaled_width y (Z.of_nat n).
Proof.
  induction n as [|n IH]; intros y m m' Hy Hn H.
  - injection H as <-. apply writes_rows_nil.
  - cbn [ScaleYV16ToRGB32_loop] in H.
    bind_inv H as scaled_y _.
    bind_inv H as m1 Hrow.
    rewrite (int_mul_id y rgb_pitch) in Hrow by (apply rgb_offsets; lia).
    replace (Z.of_nat (S n)) with (Z.of_nat n + 1) by lia.
    apply (writes_rows_cons m m1 m'); [lia | | apply IH; [lia | lia | exact H]].
    destruct (scaled_width =? int_divc width 2).
    + eapply HalfYV12ToRGB32Row_writes, Hrow.
    + eapply ScaleYV12ToRGB32Row_writes, Hrow.
Qed.

End FrameWrites.

(** ** Vertical resampling *)

Lemma in_int32_mul_abs (a b B : Z) :
  0 <= a <= B -> B * Z.abs b < 2 ^ 31 -> in_int32 (a * b).
Proof.
  unfold in_int32. intros Ha Hb.
  destruct (Z.abs_spec b) as [[H0 E]|[H0 E]]; rewrite E in Hb; nia.
Qed.

Lemma int_divc_nonneg (a b : Z) :
  0 < b -> 0 <= a < 2 ^ 31 -> int_divc a b = a / b.
Proof.
  intros Hb Ha. unfold int_divc.
  rewrite Z.quot_div_nonneg by lia.
  apply wrap32_id. unfold in_int32.
  pose proof (Z.div_pos a b ltac:(lia) Hb).
  assert (a / b <= a) by (apply Z.div_le_upper_bound; nia). lia.
Qed.

Section VerticalResampling.

Variable ConvertYV12ToRGB32Row : Z -> Z -> Z -> Z -> Z -> mem -> result mem.
Variables (y_buf u_buf v_buf rgb_buf : Z).
Variables (width height scaled_width scaled_height : Z).
Variables (y_pitch uv_pitch rgb_pitch : Z).

Hypothesis small :
  frame_small height scaled_height y_pitch uv_pitch rgb_pitch.

Lemma source_row_range (y : Z) :
  0 <= y < scaled_height ->
  0 <= spec_source_row height scaled_height y <= height /\
  spec_source_row height scaled_height y < 2 ^ 31.
Proof.
  destruct small as (Hh & Hs & Hsh & _).
  intros Hy. unfold spec_source_row.
  assert (0 <= y * height) by nia.
  assert (y * height <= scaled_height * height) by nia.
  pose proof (Z.div_pos (y * height) scaled_height ltac:(lia) ltac:(lia)).
  assert (y * height / scaled_height <= height)
    by (apply Z.div_le_upper_bound; nia).
  assert (y * height / scaled_height <= y * height)
    by (apply Z.div_le_upper_bound; nia).
  lia.
Qed.

Lemma scaled_y_spec (y : Z) :
  0 <= y < scaled_height ->
  int_div (int_mul y height) scaled_height
  = Ok (spec_source_row height scaled_height y).
Proof.
  intros Hy. pose proof (source_row_range y Hy) as Hr.
  destruct small as (Hh & Hs & Hsh & _).
  rewrite int_div_positive by lia.
  unfold spec_source_row in *.
  rewrite int_mul_id by (unfold in_int32; nia).
  rewrite Z.quot_div_nonneg by nia.
  rewrite wrap32_id by (unfold in_int32; lia).
  reflexivity.
Qed.

Lemma row_offsets (y : Z) :
  0 <= y < scaled_height ->
  let row := spec_source_row height scaled_height y in
  int_mul y rgb_pitch = y * rgb_pitch /\
  int_mul row y_pitch = row * y_pitch /\
  int_mul row uv_pitch = row * uv_pitch /\
  int_mul (int_divc row 2) uv_pitch = row / 2 * uv_pitch.
Proof.
  intros Hy row. pose proof (source_row_range y Hy) as Hr. fold row in Hr.
  destruct small as (Hh & Hs & Hsh & Hyp & Huv & Hrgb).
  rewrite int_divc_nonneg by lia.
  assert (0 <= row / 2 <= height).
  { split; [apply Z.div_pos; lia|].
    apply Z.le_trans with row; [|lia].
    apply Z.div_le_upper_bound; lia. }
  repeat split; apply int_mul_id.
  - apply (in_int32_mul_abs _ _ scaled_height); lia.
  - apply (in_int32_mul_abs _ _ height); lia.
  - apply (in_int32_mul_abs _ _ height); lia.
  - apply (in_int32_mul_abs _ _ height); lia.
Qed.

Lemma ScaleYV12ToRGB32_loop_rows :
  forall (n : nat) (y : Z) (m : mem),
    0 <= y -> y + Z.of_nat n <= scaled_height ->
    ScaleYV12ToRGB32_loop ConvertYV12ToRGB32Row n y y_buf u_buf v_buf
      rgb_buf width height scaled_width scaled_height
      y_pitch uv_pitch rgb_pitch m
    = spec_rows (spec_yv12_row ConvertYV12ToRGB32Row y_buf u_buf v_buf
                   rgb_buf width height scaled_width scaled_height
                   y_pitch uv_pitch rgb_pitch) n y m.
Proof.
  induction n as [|n IH]; intros y m Hy Hn; [reflexivity|].
  cbn [ScaleYV12ToRGB32_loop spec_rows].
  rewrite scaled_y_spec by lia. cbn [bind].
  destruct (row_offsets y ltac:(lia)) as (-> & -> & _ & ->).
  unfold spec_yv12_row. cbv zeta.
  apply bind_ext. intros m1. apply IH; lia.
Qed.

Lemma ScaleYV16ToRGB32_loop_rows :
  forall (n : nat) (y : Z) (m : mem),
    0 <= y -> y + Z.of_nat n <= scaled_height ->
    ScaleYV16ToRGB32_loop n y y_buf u_buf v_buf
      rgb_buf width height scaled_width scaled_height
      y_pitch uv_pitch rgb_pitch m
    = spec_rows (spec_yv16_row y_buf u_buf v_buf
                   rgb_buf width height scaled_width scaled_height
                   y_pitch uv_pitch rgb_pitch) n y m.
Proof.
  induction n as [|n IH]; intros y m Hy Hn; [reflexivity|].
  cbn [ScaleYV16ToRGB32_loop spec_rows].
  rewrite scaled_y_spec by lia. cbn [bind].
  destruct (row_offsets y ltac:(lia)) as (-> & -> & -> & _).
  unfold spec_yv16_row. cbv zeta.
  apply bind_ext. intros m1. apply IH; lia.
Qed.

End VerticalResampling.

(** C9: at 0 degrees the frame scalers convert, for each destination row [y]
    in turn, the single luma row [floor (y * height / scaled_height)]; the
    chroma row is half of that index, rounded down, for the 4:2:0 scaler and
    the index itself for the 4:2:2 scaler. *)
Theorem rows_are_nearest_neighbour (DEBUG : bool)
    (ConvertYV12ToRGB32Row : Z -> Z -> Z -> Z -> Z -> mem -> result mem)
    (y_buf u_buf v_buf rgb_buf : Z)
    (width height scaled_width scaled_height : Z)
    (y_pitch uv_pitch rgb_pitch : Z) (m : mem) :
  frame_small height scaled_height y_pitch uv_pitch rgb_pitch ->
  ScaleYV12ToRGB32 DEBUG ConvertYV12ToRGB32Row y_buf u_buf v_buf rgb_buf
    width height scaled_width scaled_height y_pitch uv_pitch rgb_pitch
    ROTATE_0 m
  = spec_rows (spec_yv12_row ConvertYV12ToRGB32Row y_buf u_buf v_buf rgb_buf
                 width height scaled_width scaled_height
                 y_pitch uv_pitch rgb_pitch)
              (Z.to_nat scaled_height) 0 m
  /\
  ScaleYV16ToRGB32 DEBUG y_buf u_buf v_buf rgb_buf
    width height scaled_width scaled_height y_pitch uv_pitch rgb_pitch
    ROTATE_0 m
  = spec_rows (spec_yv16_row y_buf u_buf v_buf rgb_buf
                 width height scaled_width scaled_height
                 y_pitch uv_pitch rgb_pitch)
              (Z.to_nat scaled_height) 0 m.
Proof.
  intros Hsmall.
  assert (Hs : 0 <= scaled_height) by (destruct Hsmall as (_ & Hs & _); exact Hs).
  assert (Hd : DCHECK DEBUG (implemented ROTATE_0) = Ok tt)
    by (unfold DCHECK; cbn; now rewrite andb_false_r).
  split.
  - unfold ScaleYV12ToRGB32. rewrite Hd. cbn [bind].
    apply ScaleYV12ToRGB32_loop_rows; [exact Hsmall | lia | lia].
  - unfold ScaleYV16ToRGB32. rewrite Hd. cbn [bind].
    apply ScaleYV16ToRGB32_loop_rows; [exact Hsmall | lia | lia].
Qed.

Lemma rows_are_nearest_neighbour_witness :
  ScaleYV12ToRGB32 false identity_row 0 32 48 100 8 4 3 3 8 4 16 ROTATE_0
    example_frame
  = spec_rows (spec_yv12_row identity_row 0 32 48 100 8 4 3 3 8 4 16)
              (Z.to_nat 3) 0 example_frame
  /\
  ScaleYV16ToRGB32 false 0 32 48 100 8 4 3 3 8 4 16 ROTATE_0 example_frame
  = spec_rows (spec_yv16_row 0 32 48 100 8 4 3 3 8 4 16)
              (Z.to_nat 3) 0 example_frame.
Proof.
  apply (rows_are_nearest_neighbour false identity_row 0 32 48 100 8 4 3 3
           8 4 16 example_frame).
  unfold frame_small. cbn. lia.
Defined.

(** ** Rotations *)

(** In a debug build the [DCHECK] stops a call with a rotation that is not
    implemented. *)
Lemma debug_build_rejects_rotation
    (ConvertYV12ToRGB32Row : Z -> Z -> Z -> Z -> Z -> mem -> result mem)
    (y_buf u_buf v_buf rgb_buf : Z)
    (width height scaled_width scaled_height : Z)
    (y_pitch uv_pitch rgb_pitch : Z) (view_rotate : Rotate) (m : mem) :
  implemented view_rotate = false ->
  ScaleYV12ToRGB32 true ConvertYV12ToRGB32Row y_buf u_buf v_buf rgb_buf
    width height scaled_width scaled_height y_pitch uv_pitch rgb_pitch
    view_rotate m = Fault DCheckFailure /\
  ScaleYV16ToRGB32 true y_buf u_buf v_buf rgb_buf
    width height scaled_width scaled_height y_pitch uv_pitch rgb_pitch
    view_rotate m = Fault DCheckFailure.
Proof.
  intros H. unfold ScaleYV12ToRGB32, ScaleYV16ToRGB32, DCHECK.
  rewrite H. split; reflexivity.
Qed.

(** Otherwise [DCHECK] is defined away and checks nothing. *)
Lemma release_build_checks_nothing (a : bool) : DCHECK false a = Ok tt.
Proof. reflexivity. Qed.

(** C1 fails on the code: in a build without [_DEBUG] a call with 90, 270,
    mirror-90 or mirror-270 degrees reports nothing and converts; at 90
    degrees the destination receives the rows of the 0 degree picture in
    reverse order. *)
Theorem unimplemented_rotation_converts
    (ConvertYV12ToRGB32Row : Z -> Z -> Z -> Z -> Z -> mem -> result mem) :
  forallb
    (fun r =>
       negb (implemented r) &&
       is_ok (ScaleYV12ToRGB32 false ConvertYV12ToRGB32Row
                0 32 48 100 4 2 2 2 8 4 8 r example_frame) &&
       is_ok (ScaleYV16ToRGB32 false
                0 32 48 100 4 2 2 2 8 4 8 r example_frame))
    [ROTATE_90; ROTATE_270; MIRROR_ROTATE_90; MIRROR_ROTATE_270] = true /\
  frame_pixels
    (ScaleYV12ToRGB32 false ConvertYV12ToRGB32Row
       0 32 48 100 4 2 2 2 8 4 8 ROTATE_90 example_frame) 100 8 2 2
  = Ok [[4281216558; 4283450165]; [4284637794; 4289239692]] /\
  frame_pixels
    (ScaleYV12ToRGB32 false ConvertYV12ToRGB32Row
       0 32 48 100 4 2 2 2 8 4 8 ROTATE_0 example_frame) 100 8 2 2
  = Ok [[4284637794; 4289239692]; [4281216558; 4283450165]].
Proof.
  repeat split; vm_compute; reflexivity.
Qed.

(** C4 fails on the code: for a 4 x 2 frame shown at 2 x 2 the picture at 180
    degrees is not the picture at 0 degrees turned around.  At 0 degrees the
    half-rate converter averages each luma pair; at 180 degrees the width is
    negated, the general converter runs at step -32 and takes one luma sample
    of each pair. *)
Theorem rotate_180_differs_from_turned_0 (DEBUG : bool)
    (ConvertYV12ToRGB32Row : Z -> Z -> Z -> Z -> Z -> mem -> result mem) :
  frame_pixels
    (ScaleYV12ToRGB32 DEBUG ConvertYV12ToRGB32Row
       0 32 48 100 4 2 2 2 8 4 8 ROTATE_0 example_frame) 100 8 2 2
  = Ok [[4284637794; 4289239692]; [4281216558; 4283450165]] /\
  frame_pixels
    (ScaleYV12ToRGB32 DEBUG ConvertYV12ToRGB32Row
       0 32 48 100 4 2 2 2 8 4 8 ROTATE_180 example_frame) 100 8 2 2
  = Ok [[4283844667; 4281611316]; [4293055687; 4284637794]] /\
  rotate_180 [[4284637794; 4289239692]; [4281216558; 4283450165]]
  = [[4283450165; 4281216558]; [4289239692; 4284637794]].
Proof.
  destruct DEBUG; repeat split; vm_compute; reflexivity.
Qed.

(** With planes that are not padded the 180 degree call leaves the Y plane:
    the first pixel of the bottom row reads the luma sample after the
    plane's last. *)
Lemma rotate_180_reads_past_plane
    (ConvertYV12ToRGB32Row : Z -> Z -> Z -> Z -> Z -> mem -> result mem) :
  ScaleYV12ToRGB32 false ConvertYV12ToRGB32Row
    0 32 48 100 4 2 2 2 4 2 8 ROTATE_180 packed_frame
  = Fault (InvalidAccess 8).
Proof. vm_compute. reflexivity. Qed.

(** * Further properties *)

(** ** The saturation table *)

(** X1: [g_rgb_clip_table] has 512 entries, each a byte; the entries never
    decrease from one index to the next, the first 129 are 0 and those from
    index 383 on are 255. *)
Theorem clip_table_monotone (i : Z) :
  0 <= i < 511 ->
  length g_rgb_clip_table = 512%nat /\
  0 <= nth (Z.to_nat i) g_rgb_clip_table 0
    <= nth (Z.to_nat (i + 1)) g_rgb_clip_table 0 /\
  nth (Z.to_nat (i + 1)) g_rgb_clip_table 0 <= 255 /\
  (i <= 128 -> nth (Z.to_nat i) g_rgb_clip_table 0 = 0) /\
  (383 <= i + 1 -> nth (Z.to_nat (i + 1)) g_rgb_clip_table 0 = 255).
Proof.
  intros Hi.
  rewrite (table_closed_form i), (table_closed_form (i + 1)) by lia.
  unfold clamp, kClipOverflow.
  split; [reflexivity|]. lia.
Qed.

Lemma clip_table_monotone_witness :
  length g_rgb_clip_table = 512%nat /\
  0 <= nth (Z.to_nat 200) g_rgb_clip_table 0
    <= nth (Z.to_nat (200 + 1)) g_rgb_clip_table 0 /\
  nth (Z.to_nat (200 + 1)) g_rgb_clip_table 0 <= 255 /\
  (200 <= 128 -> nth (Z.to_nat 200) g_rgb_clip_table 0 = 0) /\
  (383 <= 200 + 1 -> nth (Z.to_nat (200 + 1)) g_rgb_clip_table 0 = 255).
Proof. apply (clip_table_monotone 200). lia. Defined.

(** X2: on the covered range [clip] is monotone: a larger 8.8 value never
    gives a smaller channel, and every channel is a byte. *)
Theorem clip_monotone (v1 v2 : Z) :
  covered v1 -> covered v2 -> v1 <= v2 ->
  exists c1 c2,
    clip v1 = Ok c1 /\ clip v2 = Ok c2 /\ 0 <= c1 /\ c1 <= c2 /\ c2 <= 255.
Proof.
  intros H1 H2 Hle.
  exists (clamp (v1 / 256) 0 255), (clamp (v2 / 256) 0 255).
  rewrite (clip_covered _ H1), (clip_covered _ H2).
  assert (v1 / 256 <= v2 / 256) by (apply Z.div_le_mono; lia).
  unfold clamp. repeat split; lia.
Qed.

Lemma clip_monotone_witness :
  exists c1 c2,
    clip (-300) = Ok c1 /\ clip 70000 = Ok c2 /\
    0 <= c1 /\ c1 <= c2 /\ c2 <= 255.
Proof.
  apply (clip_monotone (-300) 70000); unfold covered; lia.
Defined.

Lemma clip_in_table_or_not (v : Z) :
  (exists c, clip v = Ok c) \/
  clip v = Fault (ClipTableOutOfRange (Z.shiftr v 8 + kClipOverflow)).
Proof.
  destruct (Z_le_dec (-128 * 256) v) as [H1|H1];
    [destruct (Z_lt_dec v (384 * 256)) as [H2|H2]|].
  - left. eexists. apply clip_covered. unfold covered. lia.
  - right. apply clip_not_covered. unfold covered. lia.
  - right. apply clip_not_covered. unfold covered. lia.
Qed.

(** X3: [clip] either finds its index in the table, when the value is in the
    covered range, and returns a byte, or indexes outside the table, at
    [(value >> 8) + 128]; there is no third outcome and no wrap-around. *)
Theorem clip_in_table_iff_covered (v : Z) :
  (covered v /\ exists c, clip v = Ok c /\ 0 <= c <= 255) \/
  (~ covered v /\
   clip v = Fault (ClipTableOutOfRange (Z.shiftr v 8 + kClipOverflow)) /\
   (Z.shiftr v 8 + kClipOverflow < 0 \/ 512 <= Z.shiftr v 8 + kClipOverflow)).
Proof.
  destruct (Z_le_dec (-128 * 256) v) as [H1|H1];
    [destruct (Z_lt_dec v (384 * 256)) as [H2|H2]|].
  - left. assert (Hc : covered v) by (unfold covered; lia).
    split; [exact Hc|]. exists (clamp (v / 256) 0 255).
    split; [apply clip_covered, Hc | apply clamp_range].
  - right. assert (Hc : ~ covered v) by (unfold covered; lia).
    split; [exact Hc|]. split; [apply clip_not_covered, Hc|].
    right. rewrite shiftr8_div. unfold kClipOverflow.
    assert (384 <= v / 256) by (apply Z.div_le_lower_bound; lia). lia.
  - right. assert (Hc : ~ covered v) by (unfold covered; lia).
    split; [exact Hc|]. split; [apply clip_not_covered, Hc|].
    left. rewrite shiftr8_div. unfold kClipOverflow.
    assert (v / 256 < -128) by (apply Z.div_lt_upper_bound; lia). lia.
Qed.

(** X4: [clip] saturates: a covered value below 1.0 gives 0, one from 255.0
    up gives 255, and a value between gives its integer part. *)
Theorem clip_saturates (v : Z) :
  covered v ->
  (v < 256 -> clip v = Ok 0) /\
  (255 * 256 <= v -> clip v = Ok 255) /\
  (0 <= v < 256 * 256 -> clip v = Ok (v / 256)).
Proof.
  intros Hc. rewrite (clip_covered _ Hc). unfold clamp.
  repeat split; intros H; f_equal.
  - assert (v / 256 <= 0); [|lia].
    assert (v / 256 < 1); [apply Z.div_lt_upper_bound; lia | lia].
  - assert (255 <= v / 256) by (apply Z.div_le_lower_bound; lia). lia.
  - assert (0 <= v / 256) by (apply Z.div_pos; lia).
    assert (v / 256 < 256) by (apply Z.div_lt_upper_bound; lia). lia.
Qed.

Lemma clip_saturates_witness :
  (-5000 < 256 -> clip (-5000) = Ok 0) /\
  (255 * 256 <= -5000 -> clip (-5000) = Ok 255) /\
  (0 <= -5000 < 256 * 256 -> clip (-5000) = Ok (-5000 / 256)).
Proof. apply (clip_saturates (-5000)). unfold covered. lia. Defined.

(** ** Degenerate sizes *)

(** X5: a row of no pixels.  [HalfYV12ToRGB32Row] with a width of zero or
    less returns at once and leaves memory as it is.  [ScaleYV12ToRGB32Row]
    divides before its loop: with [scaled_width = 0] it divides by zero,
    with [scaled_width = -1] and [width * 16] equal to [INT_MIN] the
    division overflows, and with every other negative [scaled_width] it
    returns and leaves memory as it is. *)
Theorem row_of_no_pixels (y_buf u_buf v_buf rgb_buf width n : Z) (m : mem) :
  n <= 0 ->
  HalfYV12ToRGB32Row y_buf u_buf v_buf rgb_buf n m = Ok m /\
  ScaleYV12ToRGB32Row y_buf u_buf v_buf rgb_buf width n m
  = if n =? 0 then Fault DivisionByZero
    else if (int_mul width 16 =? - 2 ^ 31) && (n =? -1)
         then Fault DivisionOverflow
         else Ok m.
Proof.
  intros Hn. unfold HalfYV12ToRGB32Row, ScaleYV12ToRGB32Row, int_div.
  replace (Z.to_nat n) with O by lia. split; [reflexivity|].
  destruct (n =? 0); [reflexivity|].
  destruct ((int_mul width 16 =? - 2 ^ 31) && (n =? -1)); reflexivity.
Qed.

Lemma row_of_no_pixels_witness :
  HalfYV12ToRGB32Row 0 32 48 100 (-3) example_frame = Ok example_frame /\
  ScaleYV12ToRGB32Row 0 32 48 100 4 (-3) example_frame = Ok example_frame.
Proof. apply (row_of_no_pixels 0 32 48 100 4 (-3) example_frame). lia. Defined.

(** X6: a frame of no rows.  With [scaled_height] zero or less the row loop
    of either frame scaler does not run: once past the [DCHECK] the call
    returns with memory as it was, whatever the planes and the other sizes,
    and in particular it never divides by [scaled_height]. *)
Theorem frame_of_no_rows (DEBUG : bool)
    (ConvertYV12ToRGB32Row : Z -> Z -> Z -> Z -> Z -> mem -> result mem)
    (y_buf u_buf v_buf rgb_buf : Z)
    (width height scaled_width scaled_height : Z)
    (y_pitch uv_pitch rgb_pitch : Z) (view_rotate : Rotate) (m : mem) :
  scaled_height <= 0 ->
  DEBUG = false \/ implemented view_rotate = true ->
  ScaleYV12ToRGB32 DEBUG ConvertYV12ToRGB32Row y_buf u_buf v_buf rgb_buf
    width height scaled_width scaled_height y_pitch uv_pitch rgb_pitch
    view_rotate m = Ok m /\
  ScaleYV16ToRGB32 DEBUG y_buf u_buf v_buf rgb_buf
    width height scaled_width scaled_height y_pitch uv_pitch rgb_pitch
    view_rotate m = Ok m.
Proof.
  intros Hs Hd.
  assert (Hc : DCHECK DEBUG (implemented view_rotate) = Ok tt).
  { unfold DCHECK. destruct Hd as [-> | ->]; [reflexivity|].
    now rewrite andb_false_r. }
  unfold ScaleYV12ToRGB32, ScaleYV16ToRGB32. rewrite Hc.
  replace (Z.to_nat scaled_height) with O by lia.
  split; reflexivity.
Qed.

Lemma frame_of_no_rows_witness :
  ScaleYV12ToRGB32 true identity_row 0 32 48 100 4 2 2 0 8 4 8
    ROTATE_180 example_frame = Ok example_frame /\
  ScaleYV16ToRGB32 true 0 32 48 100 4 2 2 0 8 4 8
    ROTATE_180 example_frame = Ok example_frame.
Proof.
  apply (frame_of_no_rows true identity_row 0 32 48 100 4 2 2 0 8 4 8
           ROTATE_180 example_frame).
  - lia.
  - right. reflexivity.
Defined.

Lemma int_divc_two_nonzero (w : Z) :
  2 <= w < 2 ^ 31 ->
  int_divc w 2 <> 0 /\ int_divc (int_neg w) 2 <> 0 /\ int_neg w <> 0.
Proof.
  intros Hw. unfold int_divc, int_neg.
  rewrite (wrap32_id (- w)) by (unfold in_int32; lia).
  assert (H1 : 1 <= Z.quot w 2 <= w).
  { rewrite Z.quot_div_nonneg by lia. split.
    - apply Z.div_le_lower_bound; lia.
    - apply Z.div_le_upper_bound; lia. }
  rewrite Z.quot_opp_l by lia.
  rewrite !wrap32_id by (unfold in_int32; lia). lia.
Qed.

Lemma rebase_right_extent (r : Rotate) (y u v w : Z) :
  p_extent (rebase_right r y u v w) = w \/
  p_extent (rebase_right r y u v w) = int_neg w.
Proof.
  unfold rebase_right.
  destruct (_ || _); cbn [p_extent]; [right | left]; reflexivity.
Qed.

(** X7: a frame of rows of no pixels.  With [scaled_width = 0], at least one
    row to convert and a source at least two pixels wide, neither special
    case of the dispatch applies, the first row goes to the general row
    converter and both frame scalers stop there with a division by zero;
    nothing is written. *)
Theorem frame_of_zero_width_divides_by_zero (DEBUG : bool)
    (ConvertYV12ToRGB32Row : Z -> Z -> Z -> Z -> Z -> mem -> result mem)
    (y_buf u_buf v_buf rgb_buf : Z)
    (width height scaled_height : Z)
    (y_pitch uv_pitch rgb_pitch : Z) (view_rotate : Rotate) (m : mem) :
  0 < scaled_height -> 2 <= width < 2 ^ 31 ->
  DEBUG = false \/ implemented view_rotate = true ->
  ScaleYV12ToRGB32 DEBUG ConvertYV12ToRGB32Row y_buf u_buf v_buf rgb_buf
    width height 0 scaled_height y_pitch uv_pitch rgb_pitch
    view_rotate m = Fault DivisionByZero /\
  ScaleYV16ToRGB32 DEBUG y_buf u_buf v_buf rgb_buf
    width height 0 scaled_height y_pitch uv_pitch rgb_pitch
    view_rotate m = Fault DivisionByZero.
Proof.
  intros Hs Hw Hd.
  assert (Hc : DCHECK DEBUG (implemented view_rotate) = Ok tt).
  { unfold DCHECK. destruct Hd as [-> | ->]; [reflexivity|].
    now rewrite andb_false_r. }
  destruct (int_divc_two_nonzero width Hw) as (N1 & N2 & N3).
  unfold ScaleYV12ToRGB32, ScaleYV16ToRGB32. rewrite Hc. cbn [bind].
  destruct (Z.to_nat scaled_height) as [|n] eqn:En; [lia|].
  cbn [ScaleYV12ToRGB32_loop ScaleYV16ToRGB32_loop].
  set (w' := p_extent (rebase_right view_rotate y_buf u_buf v_buf width)).
  assert (Hw' : w' <> 0 /\ int_divc w' 2 <> 0).
  { subst w'.
    destruct (rebase_right_extent view_rotate y_buf u_buf v_buf width)
      as [-> | ->]; split; (assumption || lia). }
  destruct Hw' as [W1 W2].
  assert (Hy : forall h, int_div (int_mul 0 h) scaled_height = Ok 0).
  { intros h. rewrite int_div_positive by lia. reflexivity. }
  rewrite !Hy. cbn [bind].
  destruct (Z.eqb_spec 0 w') as [E|_]; [congruence|].
  destruct (Z.eqb_spec 0 (int_divc w' 2)) as [E|_]; [congruence|].
  split; reflexivity.
Qed.

Lemma frame_of_zero_width_divides_by_zero_witness :
  ScaleYV12ToRGB32 false identity_row 0 32 48 100 4 2 0 2 8 4 8
    MIRROR_ROTATE_0 example_frame = Fault DivisionByZero /\
  ScaleYV16ToRGB32 false 0 32 48 100 4 2 0 2 8 4 8
    MIRROR_ROTATE_0 example_frame = Fault DivisionByZero.
Proof.
  apply (frame_of_zero_width_divides_by_zero false identity_row 0 32 48 100
           4 2 2 8 4 8 MIRROR_ROTATE_0 example_frame).
  - lia.
  - lia.
  - left. reflexivity.
Defined.

(** ** The alpha byte *)

Lemma store32_ok_poke (m m' : mem) (p v : Z) :
  store32 m p v = Ok m' -> m' = poke32 m p v.
Proof.
  unfold store32, poke32. intros H.
  bind_inv H as m1 H1. bind_inv H as m2 H2. bind_inv H as m3 H3.
  apply store8_inv in H1, H2, H3, H.
  destruct H1 as [-> _], H2 as [-> _], H3 as [-> _], H as [-> _].
  reflexivity.
Qed.

Lemma packed_alpha (b g r vb vg vr : Z) :
  clip vb = Ok b -> clip vg = Ok g -> clip vr = Ok r ->
  uint8 (Z.shiftr (Z.lor (Z.lor (Z.lor b (uint32 (Z.shiftl g 8)))
                                (uint32 (Z.shiftl r 16)))
                         0xff000000) (8 * 3)) = 255.
Proof.
  intros Hb Hg Hr. apply clip_range in Hb, Hg, Hr.
  rewrite pack_arith by assumption.
  destruct (channels_of_packed b g r Hb Hg Hr) as (_ & _ & _ & H3).
  rewrite channel_div in H3 by lia. unfold uint8.
  rewrite Z.shiftr_div_pow2 by lia. exact H3.
Qed.

Lemma stored_alpha (mc m1 m' : mem) (rgb n v : Z) :
  store32 mc rgb v = Ok m1 -> uint8 (Z.shiftr v (8 * 3)) = 255 ->
  writes_row m1 m' (rgb + 4) n ->
  m' (rgb + 4 * 0 + 3) = Some 255.
Proof.
  intros Hs Hv (Ho & _).
  rewrite Ho by (unfold outside; lia).
  apply store32_ok_poke in Hs. subst m1.
  replace (rgb + 4 * 0 + 3) with (rgb + 3) by lia.
  rewrite poke32_byte by lia. now rewrite Hv.
Qed.

Lemma ScaleYV12ToRGB32Row_loop_alpha (y u v dx : Z) :
  forall (n : nat) (rgb sx : Z) (mc m' : mem),
    ScaleYV12ToRGB32Row_loop n y u v dx rgb sx mc = Ok m' ->
    forall x, 0 <= x < Z.of_nat n -> m' (rgb + 4 * x + 3) = Some 255.
Proof.
  induction n as [|n IH]; intros rgb sx mc m' H x Hx; [lia|].
  cbn [ScaleYV12ToRGB32Row_loop] in H.
  bind_inv H as U EU. bind_inv H as V EV.
  bind_inv H as y0 E0. bind_inv H as y1 E1. cbv zeta in H.
  bind_inv H as b Eb. bind_inv H as g Eg. bind_inv H as r Er.
  bind_inv H as m1 Hs.
  destruct (Z.eq_dec x 0) as [->|Hne].
  - eapply stored_alpha; [exact Hs | | ].
    + eapply packed_alpha; eassumption.
    + eapply ScaleYV12ToRGB32Row_loop_writes, H.
  - replace (rgb + 4 * x + 3) with (rgb + 4 + 4 * (x - 1) + 3) by lia.
    apply (IH _ _ _ _ H). lia.
Qed.

Lemma HalfYV12ToRGB32Row_loop_alpha (y u v : Z) :
  forall (n : nat) (rgb x0 : Z) (mc m' : mem),
    HalfYV12ToRGB32Row_loop n y u v rgb x0 mc = Ok m' ->
    forall x, 0 <= x < Z.of_nat n -> m' (rgb + 4 * x + 3) = Some 255.
Proof.
  induction n as [|n IH]; intros rgb x0 mc m' H x Hx; [lia|].
  cbn [HalfYV12ToRGB32Row_loop] in H.
  bind_inv H as U EU. bind_inv H as V EV.
  bind_inv H as y0 E0. bind_inv H as y1 E1. cbv zeta in H.
  bind_inv H as b Eb. bind_inv H as g Eg. bind_inv H as r Er.
  bind_inv H as m1 Hs.
  destruct (Z.eq_dec x 0) as [->|Hne].
  - eapply stored_alpha; [exact Hs | | ].
    + eapply packed_alpha; eassumption.
    + eapply HalfYV12ToRGB32Row_loop_writes, H.
  - replace (rgb + 4 * x + 3) with (rgb + 4 + 4 * (x - 1) + 3) by lia.
    apply (IH _ _ _ _ H). lia.
Qed.

(** X8: every pixel a row converter writes is opaque.  After a completed
    call of either converter the fourth byte of each of the [n] destination
    pixels is 255, whatever the samples and even when the destination
    overlaps the source. *)
Theorem row_alpha_is_opaque (y_buf u_buf v_buf rgb_buf width n : Z)
    (m m' : mem) (x : Z) :
  ScaleYV12ToRGB32Row y_buf u_buf v_buf rgb_buf width n m = Ok m' \/
  HalfYV12ToRGB32Row y_buf u_buf v_buf rgb_buf n m = Ok m' ->
  0 <= x < n ->
  m' (rgb_buf + 4 * x + 3) = Some 255.
Proof.
  intros [H|H] Hx.
  - unfold ScaleYV12ToRGB32Row in H. bind_inv H as dx Hdx.
    apply (ScaleYV12ToRGB32Row_loop_alpha _ _ _ _ _ _ _ _ _ H). lia.
  - unfold HalfYV12ToRGB32Row in H.
    apply (HalfYV12ToRGB32Row_loop_alpha _ _ _ _ _ _ _ _ H). lia.
Qed.

Lemma row_alpha_is_opaque_witness :
  get_mem (ScaleYV12ToRGB32Row 0 32 48 100 4 3 example_frame)
          (100 + 4 * 2 + 3) = Some 255.
Proof.
  apply (row_alpha_is_opaque 0 32 48 100 4 3 example_frame _ 2).
  - left. apply is_ok_get_mem. vm_compute. reflexivity.
  - lia.
Defined.

(** ** Memory safety of the row converters *)

Lemma allocated_rangeb_sound (m : mem) (p n : Z) :
  allocated_rangeb m p n = true -> allocated_range m p n.
Proof.
  unfold allocated_rangeb, allocated_range. rewrite forallb_forall.
  intros H i Hi. specialize (H i (in_columns _ _ Hi)).
  unfold allocated in H. destruct (m (p + i)); discriminate.
Qed.

Lemma separateb_sound (p n rgb k : Z) :
  separateb p n rgb k = true -> separate p n rgb k.
Proof.
  unfold separateb, separate. rewrite orb_true_iff, !Z.leb_le. tauto.
Qed.

Lemma row_buffersb_sound (m : mem) (y u v rgb ln cn dn : Z) :
  row_buffersb m y u v rgb ln cn dn = true ->
  row_buffers m y u v rgb ln cn dn.
Proof.
  unfold row_buffersb, row_buffers. rewrite !andb_true_iff.
  intros [[[[[[H1 H2] H3] H4] H5] H6] H7].
  repeat split;
    auto using allocated_rangeb_sound, separateb_sound, writableb_sound.
Qed.

Lemma load8_allocated (m : mem) (p : Z) :
  m p <> None -> exists b, load8 m p = Ok b.
Proof. unfold load8. destruct (m p); [eauto | congruence]. Qed.

Lemma separate_outside (p n rgb k i : Z) :
  separate p n rgb k -> 0 <= i < n -> outside rgb k (p + i).
Proof. unfold separate, outside. lia. Qed.

Lemma clip_fault (v : Z) (e : fault) :
  clip v = Fault e -> exists i, e = ClipTableOutOfRange i.
Proof.
  intros H. destruct (clip_in_table_or_not v) as [(c & Hc)|Hf].
  - congruence.
  - rewrite Hf in H. injection H as <-. eauto.
Qed.

Lemma spec_pixel_fault (luma U V : Z) (e : fault) :
  spec_pixel luma U V = Fault e -> exists i, e = ClipTableOutOfRange i.
Proof.
  unfold spec_pixel. cbv zeta. intros H.
  destruct (clip _) as [B|f] eqn:EB in H; cbn [bind] in H;
    [|injection H as <-; eapply clip_fault, EB].
  destruct (clip _) as [G|f] eqn:EG in H; cbn [bind] in H;
    [|injection H as <-; eapply clip_fault, EG].
  destruct (clip _) as [R|f] eqn:ER in H; cbn [bind] in H;
    [discriminate | injection H as <-; eapply clip_fault, ER].
Qed.

Lemma pixels_from_fault (f : Z -> result Z) (n : nat) (x : Z) (e : fault) :
  pixels_from f n x = Fault e ->
  exists i, (i < n)%nat /\ f (x + Z.of_nat i) = Fault e.
Proof.
  revert x. induction n as [|n IH]; intros x H; cbn [pixels_from] in H;
    [discriminate|].
  destruct (f x) as [p|f0] eqn:Ef; cbn [bind] in H.
  - destruct (pixels_from f n (x + 1)) as [ps|f1] eqn:Eps; cbn [bind] in H;
      [discriminate|].
    injection H as <-.
    destruct (IH _ Eps) as (i & Hi & Hfi).
    exists (S i). split; [lia|].
    rewrite <- Hfi. f_equal. lia.
  - injection H as <-. exists O. split; [lia|]. now rewrite Z.add_0_r.
Qed.

(** A row in pure form ends with its pixels stored or with the fault of one
    of its columns. *)
Lemma pure_row_outcome (f : Z -> result Z) (n rgb : Z) (m : mem) (P : fault -> Prop) :
  (forall x e, 0 <= x < n -> f x = Fault e -> P e) ->
  (exists m', (ps <- pixels_from f (Z.to_nat n) 0 ;;
               Ok (store_pixels m rgb ps)) = Ok m') \/
  (exists e, (ps <- pixels_from f (Z.to_nat n) 0 ;;
              Ok (store_pixels m rgb ps)) = Fault e /\ P e).
Proof.
  intros Hf.
  destruct (pixels_from f (Z.to_nat n) 0) as [ps|e] eqn:E; cbn [bind].
  - left. eauto.
  - right. exists e. split; [reflexivity|].
    destruct (pixels_from_fault _ _ _ _ E) as (i & Hi & Hfi).
    apply (Hf (0 + Z.of_nat i)); [lia | exact Hfi].
Qed.

Lemma shiftr5_half (pos : Z) : Z.shiftr pos 5 = Z.shiftr pos 4 / 2.
Proof.
  rewrite shiftr5_div, shiftr4_div. Z.div_mod_to_equations. lia.
Qed.

Lemma scale_down_row_ok (m : mem) (y u v rgb w sw : Z) :
  0 < sw < w -> in_int32 (w * 16) ->
  row_buffers m y u v rgb w ((w + 1) / 2) sw ->
  scale_row_ok m y u v rgb w sw /\
  forall x, 0 <= x < sw ->
    Forall (fun a => m a <> None)
           (scale_reads y u v (spec_position w sw x)).
Proof.
  intros Hs Hi (Ay & Au & Av & Hw & Sy & Su & Sv).
  assert (Hidx : forall x, 0 <= x < sw ->
            0 <= Z.shiftr (spec_position w sw x) 4 /\
            Z.shiftr (spec_position w sw x) 4 + 1 < w /\
            0 <= Z.shiftr (spec_position w sw x) 5 < (w + 1) / 2).
  { intros x Hx.
    pose proof (luma_index_in_row w sw x ltac:(lia) Hx) as H1.
    pose proof (luma_next_index_in_row w sw x Hs Hx) as H2.
    rewrite shiftr5_half.
    set (L := Z.shiftr (spec_position w sw x) 4) in *.
    split; [lia|]. split; [lia|].
    Z.div_mod_to_equations. lia. }
  split.
  - split; [lia|]. split; [exact Hi|]. split; [exact Hw|].
    intros x Hx. destruct (Hidx x Hx) as (L0 & L1 & C).
    split.
    + rewrite shiftr4_div in L0, L1. unfold in_int32 in *.
      Z.div_mod_to_equations. lia.
    + unfold scale_reads.
      repeat (apply Forall_cons || apply Forall_nil).
      * apply (separate_outside _ _ _ _ _ Su); lia.
      * apply (separate_outside _ _ _ _ _ Sv); lia.
      * apply (separate_outside _ _ _ _ _ Sy); lia.
      * apply (separate_outside _ _ _ _ _ Sy); lia.
  - intros x Hx. destruct (Hidx x Hx) as (L0 & L1 & C).
    unfold scale_reads.
    repeat (apply Forall_cons || apply Forall_nil).
    + apply Au; lia.
    + apply Av; lia.
    + apply Ay; lia.
    + apply Ay; lia.
Qed.

Lemma scale_pixel_fault (m : mem) (y u v pos : Z) (e : fault) :
  Forall (fun a => m a <> None) (scale_reads y u v pos) ->
  scale_pixel m y u v pos = Fault e -> exists i, e = ClipTableOutOfRange i.
Proof.
  unfold scale_reads. intros H.
  rewrite !Forall_cons_iff in H. destruct H as (Hu & Hv & Hy0 & Hy1 & _).
  destruct (load8_allocated _ _ Hu) as [U EU].
  destruct (load8_allocated _ _ Hv) as [V EV].
  destruct (load8_allocated _ _ Hy0) as [y0 E0].
  destruct (load8_allocated _ _ Hy1) as [y1 E1].
  unfold scale_pixel. rewrite EU, EV, E0, E1. cbn [bind].
  apply spec_pixel_fault.
Qed.

Lemma half_pixel_fault (m : mem) (y u v x : Z) (e : fault) :
  Forall (fun a => m a <> None) (half_reads y u v x) ->
  half_pixel m y u v x = Fault e -> exists i, e = ClipTableOutOfRange i.
Proof.
  unfold half_reads. intros H.
  rewrite !Forall_cons_iff in H. destruct H as (Hu & Hv & Hy0 & Hy1 & _).
  destruct (load8_allocated _ _ Hu) as [U EU].
  destruct (load8_allocated _ _ Hv) as [V EV].
  destruct (load8_allocated _ _ Hy0) as [y0 E0].
  destruct (load8_allocated _ _ Hy1) as [y1 E1].
  unfold half_pixel. rewrite EU, EV, E0, E1. cbn [bind].
  apply spec_pixel_fault.
Qed.

(** X9: scaling a row down is memory safe.  When [0 < scaled_width < width],
    the general-ratio converter reads no luma sample outside
    [y_buf[0 .. width-1]] and no chroma sample outside the first
    [(width + 1) / 2] of each plane: with those and the destination row
    allocated, and the destination apart from them, the call never makes an
    invalid access.  It ends with the row written or at a lookup outside the
    saturation table. *)
Theorem scale_down_is_memory_safe (y_buf u_buf v_buf rgb_buf : Z)
    (width scaled_width : Z) (m : mem) :
  0 < scaled_width < width -> in_int32 (width * 16) ->
  row_buffers m y_buf u_buf v_buf rgb_buf
    width ((width + 1) / 2) scaled_width ->
  (exists m',
      ScaleYV12ToRGB32Row y_buf u_buf v_buf rgb_buf width scaled_width m
      = Ok m') \/
  (exists i,
      ScaleYV12ToRGB32Row y_buf u_buf v_buf rgb_buf width scaled_width m
      = Fault (ClipTableOutOfRange i)).
Proof.
  intros Hs Hi Hb.
  destruct (scale_down_row_ok m _ _ _ _ _ _ Hs Hi Hb) as [Hok Hal].
  rewrite ScaleYV12ToRGB32Row_pure by exact Hok.
  destruct (pure_row_outcome
              (fun x => scale_pixel m y_buf u_buf v_buf
                          (spec_position width scaled_width x))
              scaled_width rgb_buf m
              (fun e => exists i, e = ClipTableOutOfRange i))
    as [Hm|(e & He & i & ->)].
  - intros x e Hx. apply scale_pixel_fault, Hal, Hx.
  - left. exact Hm.
  - right. eauto.
Qed.

Lemma scale_down_is_memory_safe_witness :
  (exists m', ScaleYV12ToRGB32Row 0 32 48 100 4 3 tight_row = Ok m') \/
  (exists i, ScaleYV12ToRGB32Row 0 32 48 100 4 3 tight_row
             = Fault (ClipTableOutOfRange i)).
Proof.
  apply (scale_down_is_memory_safe 0 32 48 100 4 3 tight_row).
  - lia.
  - unfold in_int32. lia.
  - apply row_buffersb_sound. vm_compute. reflexivity.
Defined.

Lemma half_row_buffers_ok (m : mem) (y u v rgb n : Z) :
  0 < n <= 2 ^ 30 ->
  row_buffers m y u v rgb (2 * n) n n ->
  half_row_ok m y u v rgb n /\
  forall x, 0 <= x < n ->
    Forall (fun a => m a <> None) (half_reads y u v x).
Proof.
  intros Hn (Ay & Au & Av & Hw & Sy & Su & Sv). split.
  - split; [exact Hn|]. split; [exact Hw|].
    intros x Hx. unfold half_reads.
    repeat (apply Forall_cons || apply Forall_nil).
    + apply (separate_outside _ _ _ _ _ Su); lia.
    + apply (separate_outside _ _ _ _ _ Sv); lia.
    + apply (separate_outside _ _ _ _ _ Sy); lia.
    + apply (separate_outside _ _ _ _ _ Sy); lia.
  - intros x Hx. unfold half_reads.
    repeat (apply Forall_cons || apply Forall_nil).
    + apply Au; lia.
    + apply Av; lia.
    + apply Ay; lia.
    + apply Ay; lia.
Qed.

(** X10: the half-rate converter is memory safe.  For [width] destination
    pixels it reads [2 * width] luma samples and [width] samples of each
    chroma plane, no more: with those and the destination row allocated, and
    the destination apart from them, the call never makes an invalid access.
    It ends with the row written or at a lookup outside the saturation
    table. *)
Theorem half_row_is_memory_safe (y_buf u_buf v_buf rgb_buf width : Z)
    (m : mem) :
  0 < width <= 2 ^ 30 ->
  row_buffers m y_buf u_buf v_buf rgb_buf (2 * width) width width ->
  (exists m', HalfYV12ToRGB32Row y_buf u_buf v_buf rgb_buf width m = Ok m') \/
  (exists i, HalfYV12ToRGB32Row y_buf u_buf v_buf rgb_buf width m
             = Fault (ClipTableOutOfRange i)).
Proof.
  intros Hn Hb.
  destruct (half_row_buffers_ok m _ _ _ _ _ Hn Hb) as [Hok Hal].
  rewrite HalfYV12ToRGB32Row_pure by exact Hok.
  destruct (pure_row_outcome (half_pixel m y_buf u_buf v_buf)
              width rgb_buf m
              (fun e => exists i, e = ClipTableOutOfRange i))
    as [Hm|(e & He & i & ->)].
  - intros x e Hx. apply half_pixel_fault, Hal, Hx.
  - left. exact Hm.
  - right. eauto.
Qed.

Lemma half_row_is_memory_safe_witness :
  (exists m', HalfYV12ToRGB32Row 0 32 48 100 2 tight_row = Ok m') \/
  (exists i, HalfYV12ToRGB32Row 0 32 48 100 2 tight_row
             = Fault (ClipTableOutOfRange i)).
Proof.
  apply (half_row_is_memory_safe 0 32 48 100 2 tight_row).
  - lia.
  - apply row_buffersb_sound. vm_compute. reflexivity.
Defined.

(** ** Particular ratios of the general converter *)

Lemma pixels_from_ext (f g : Z -> result Z) (n : nat) (x : Z) :
  (forall i, (i < n)%nat -> f (x + Z.of_nat i) = g (x + Z.of_nat i)) ->
  pixels_from f n x = pixels_from g n x.
Proof.
  revert x. induction n as [|n IH]; intros x H; cbn [pixels_from];
    [reflexivity|].
  pose proof (H O ltac:(lia)) as H0. rewrite Z.add_0_r in H0. rewrite H0.
  apply bind_ext. intros p. rewrite (IH (x + 1)); [reflexivity|].
  intros i Hi. specialize (H (S i) ltac:(lia)).
  replace (x + 1 + Z.of_nat i) with (x + Z.of_nat (S i)) by lia. exact H.
Qed.

Lemma pure_row_ext (f g : Z -> result Z) (n rgb : Z) (m : mem) :
  (forall x, 0 <= x < n -> f x = g x) ->
  (ps <- pixels_from f (Z.to_nat n) 0 ;; Ok (store_pixels m rgb ps))
  = (ps <- pixels_from g (Z.to_nat n) 0 ;; Ok (store_pixels m rgb ps)).
Proof.
  intros H. rewrite (pixels_from_ext f g); [reflexivity|].
  intros i Hi. apply H. lia.
Qed.

Lemma spec_dx_identity (w : Z) : 0 < w -> spec_dx w w = 16.
Proof.
  intros Hw. unfold spec_dx. rewrite Z.quot_div_nonneg by lia.
  rewrite (Z.mul_comm w 16). apply Z.div_mul. lia.
Qed.

Lemma position_identity (x : Z) :
  Z.shiftr (x * 16) 5 = x / 2 /\ Z.shiftr (x * 16) 4 = x /\
  Z.shiftr (Z.land (x * 16) 15) 2 = 0.
Proof.
  rewrite shiftr5_div, shiftr4_div.
  change 15 with (Z.ones 4). rewrite Z.land_ones by lia.
  rewrite Z.shiftr_div_pow2 by lia.
  change (2 ^ 4) with 16. change (2 ^ 2) with 4.
  repeat split; Z.div_mod_to_equations; lia.
Qed.

(** X11: at the identity ratio the general converter blends nothing.  With
    [scaled_width = width] the step is 16 and pixel [x] is the transform of
    luma sample [x] alone and of chroma sample [x / 2]; the row is those
    pixels stored in order.  (The sample after [x] is still read.) *)
Theorem identity_ratio_blends_nothing (y_buf u_buf v_buf rgb_buf width : Z)
    (m : mem) :
  scale_row_ok m y_buf u_buf v_buf rgb_buf width width ->
  ScaleYV12ToRGB32Row y_buf u_buf v_buf rgb_buf width width m
  = (ps <- pixels_from (identity_pixel m y_buf u_buf v_buf)
                       (Z.to_nat width) 0 ;;
     Ok (store_pixels m rgb_buf ps)).
Proof.
  intros Hok. rewrite ScaleYV12ToRGB32Row_pure by exact Hok.
  destruct Hok as (Hw & _).
  apply pure_row_ext. intros x Hx.
  unfold spec_position. rewrite spec_dx_identity by exact Hw.
  unfold scale_pixel, identity_pixel.
  destruct (position_identity x) as (-> & -> & ->). reflexivity.
Qed.

Lemma identity_ratio_blends_nothing_witness :
  ScaleYV12ToRGB32Row 0 32 48 100 4 4 example_frame
  = (ps <- pixels_from (identity_pixel example_frame 0 32 48)
                       (Z.to_nat 4) 0 ;;
     Ok (store_pixels example_frame 100 ps)).
Proof.
  apply (identity_ratio_blends_nothing 0 32 48 100 4 example_frame).
  apply scale_row_okb_sound. vm_compute. reflexivity.
Defined.

Lemma spec_dx_double (w : Z) : 0 < w -> spec_dx w (2 * w) = 8.
Proof.
  intros Hw. unfold spec_dx. rewrite Z.quot_div_nonneg by lia.
  replace (w * 16) with (8 * (2 * w)) by lia. apply Z.div_mul. lia.
Qed.

Lemma position_double (x : Z) :
  Z.shiftr (x * 8) 5 = x / 4 /\ Z.shiftr (x * 8) 4 = x / 2 /\
  Z.shiftr (Z.land (x * 8) 15) 2 = 2 * (x mod 2).
Proof.
  rewrite shiftr5_div, shiftr4_div.
  change 15 with (Z.ones 4). rewrite Z.land_ones by lia.
  rewrite Z.shiftr_div_pow2 by lia.
  change (2 ^ 4) with 16. change (2 ^ 2) with 4.
  repeat split; Z.div_mod_to_equations; lia.
Qed.

Lemma blend_double (x y0 y1 : Z) :
  spec_blend (2 * (x mod 2)) y0 y1
  = if x mod 2 =? 0 then y0 else (y0 + y1) / 2.
Proof.
  pose proof (Z.mod_pos_bound x 2 ltac:(lia)) as Hm.
  assert (Hc : x mod 2 = 0 \/ x mod 2 = 1) by lia.
  destruct Hc as [-> | ->]; reflexivity.
Qed.

(** X12: doubling a row.  With [scaled_width = 2 * width] the step is 8:
    even destination columns take luma sample [x / 2] as it is, odd columns
    the mean of that sample and the next, and every four columns share one
    chroma sample. *)
Theorem doubling_interleaves_means (y_buf u_buf v_buf rgb_buf width : Z)
    (m : mem) :
  scale_row_ok m y_buf u_buf v_buf rgb_buf width (2 * width) ->
  ScaleYV12ToRGB32Row y_buf u_buf v_buf rgb_buf width (2 * width) m
  = (ps <- pixels_from (doubled_pixel m y_buf u_buf v_buf)
                       (Z.to_nat (2 * width)) 0 ;;
     Ok (store_pixels m rgb_buf ps)).
Proof.
  intros Hok. rewrite ScaleYV12ToRGB32Row_pure by exact Hok.
  destruct Hok as (Hw & _).
  apply pure_row_ext. intros x Hx.
  unfold spec_position. rewrite spec_dx_double by lia.
  unfold scale_pixel, doubled_pixel.
  destruct (position_double x) as (-> & -> & ->).
  do 4 (apply bind_ext; intros ?). now rewrite blend_double.
Qed.

Lemma doubling_interleaves_means_witness :
  ScaleYV12ToRGB32Row 0 32 48 100 3 (2 * 3) example_frame
  = (ps <- pixels_from (doubled_pixel example_frame 0 32 48)
                       (Z.to_nat (2 * 3)) 0 ;;
     Ok (store_pixels example_frame 100 ps)).
Proof.
  apply (doubling_interleaves_means 0 32 48 100 3 example_frame).
  apply scale_row_okb_sound. vm_compute. reflexivity.
Defined.

(** X13: where the two luma samples of every pair are equal, or the second
    is one more than the first, the half-rate converter and the general
    converter at ratio 2 are the same function: same row written, same
    fault otherwise. *)
Theorem half_row_equals_scale_row_on_flat_pairs
    (y_buf u_buf v_buf rgb_buf w : Z) (m : mem) :
  0 < w -> w mod 2 = 0 -> in_int32 (w * 16) ->
  half_row_ok m y_buf u_buf v_buf rgb_buf (w / 2) ->
  (forall x y0 y1,
      0 <= x < w / 2 ->
      load8 m (y_buf + 2 * x) = Ok y0 ->
      load8 m (y_buf + (2 * x + 1)) = Ok y1 ->
      0 <= y1 - y0 <= 1) ->
  HalfYV12ToRGB32Row y_buf u_buf v_buf rgb_buf (w / 2) m
  = ScaleYV12ToRGB32Row y_buf u_buf v_buf rgb_buf w (w / 2) m.
Proof.
  intros Hw He Hi Hok Hpairs.
  pose proof (half_ok_scale_ok m _ _ _ _ w Hw He Hi Hok) as Hok2.
  rewrite HalfYV12ToRGB32Row_pure by exact Hok.
  rewrite ScaleYV12ToRGB32Row_pure by exact Hok2.
  apply pure_row_ext. intros x Hx.
  unfold spec_position. rewrite spec_dx_half by assumption.
  rewrite scale_pixel_half. unfold half_pixel.
  do 2 (apply bind_ext; intros ?).
  destruct (load8 m (y_buf + 2 * x)) as [y0|] eqn:E0; cbn [bind];
    [|reflexivity].
  destruct (load8 m (y_buf + (2 * x + 1))) as [y1|] eqn:E1; cbn [bind];
    [|reflexivity].
  specialize (Hpairs x y0 y1 Hx E0 E1).
  f_equal. Z.div_mod_to_equations. lia.
Qed.

Lemma half_row_equals_scale_row_on_flat_pairs_witness :
  HalfYV12ToRGB32Row 24 44 60 100 (4 / 2) example_frame
  = ScaleYV12ToRGB32Row 24 44 60 100 4 (4 / 2) example_frame.
Proof.
  apply (half_row_equals_scale_row_on_flat_pairs 24 44 60 100 4
           example_frame).
  - lia.
  - reflexivity.
  - unfold in_int32. lia.
  - apply half_row_okb_sound. vm_compute. reflexivity.
  - intros x y0 y1 Hx.
    assert (Hc : x = 0 \/ x = 1) by (change (4 / 2) with 2 in Hx; lia).
    destruct Hc as [-> | ->]; vm_compute;
      intros [= <-] [= <-]; split; discriminate.
Defined.

(** ** Neutral chroma *)

Lemma spec_blend_range (pattern y0 y1 : Z) :
  0 <= y0 < 256 -> 0 <= y1 < 256 -> 0 <= spec_blend pattern y0 y1 < 256.
Proof.
  intros H0 H1. unfold spec_blend.
  destruct (pattern =? 1); [|destruct (pattern =? 2);
                             [|destruct (pattern =? 3)]];
    try lia; Z.div_mod_to_equations; lia.
Qed.

(** With both chroma samples at 128 the three channels are one value. *)
Lemma spec_pixel_grey (luma : Z) :
  0 <= luma < 256 ->
  exists p,
    spec_pixel luma 128 128 = Ok p /\
    channel p 0 = clamp (((luma - 16) * 298 + 256) / 256) 0 255 /\
    channel p 1 = channel p 0 /\ channel p 2 = channel p 0 /\
    channel p 3 = 255.
Proof.
  intros Hl.
  destruct (proj2 (spec_pixel_ok_iff luma 128 128)) as [p Hp].
  { unfold covered. lia. }
  exists p. split; [exact Hp|].
  apply spec_pixel_is_bgra in Hp.
  destruct Hp as (R & G & B & HR & HG & HB & C0 & C1 & C2 & C3).
  apply clip_ok_inv in HR, HG, HB.
  destruct HR as [_ HR], HG as [_ HG], HB as [_ HB].
  rewrite C0, C1, C2, C3, HR, HG, HB.
  repeat split; f_equal; f_equal; lia.
Qed.

(** X14: a row with neutral chroma converts to grey and cannot fail.  When
    every chroma sample read is 128 and the luma samples are allocated, both
    row converters complete, whatever the luma, and every pixel has
    [B = G = R] and alpha 255. *)
Theorem neutral_chroma_gives_grey (y_buf u_buf v_buf rgb_buf : Z) (m : mem) :
  (forall width scaled_width,
      scale_row_ok m y_buf u_buf v_buf rgb_buf width scaled_width ->
      (forall x, 0 <= x < scaled_width ->
         let pos := spec_position width scaled_width x in
         load8 m (u_buf + Z.shiftr pos 5) = Ok 128 /\
         load8 m (v_buf + Z.shiftr pos 5) = Ok 128 /\
         m (y_buf + Z.shiftr pos 4) <> None /\
         m (y_buf + (Z.shiftr pos 4 + 1)) <> None) ->
      exists m',
        ScaleYV12ToRGB32Row y_buf u_buf v_buf rgb_buf width scaled_width m
        = Ok m' /\
        forall x, 0 <= x < scaled_width ->
          exists p, load32 m' (rgb_buf + 4 * x) = Ok p /\
                    channel p 1 = channel p 0 /\ channel p 2 = channel p 0 /\
                    channel p 3 = 255)
  /\
  (forall width,
      half_row_ok m y_buf u_buf v_buf rgb_buf width ->
      (forall x, 0 <= x < width ->
         load8 m (u_buf + x) = Ok 128 /\ load8 m (v_buf + x) = Ok 128 /\
         m (y_buf + 2 * x) <> None /\ m (y_buf + (2 * x + 1)) <> None) ->
      exists m',
        HalfYV12ToRGB32Row y_buf u_buf v_buf rgb_buf width m = Ok m' /\
        forall x, 0 <= x < width ->
          exists p, load32 m' (rgb_buf + 4 * x) = Ok p /\
                    channel p 1 = channel p 0 /\ channel p 2 = channel p 0 /\
                    channel p 3 = 255).
Proof.
  split.
  - intros width sw Hok Hn.
    assert (Hpix : forall x, 0 <= x < sw ->
              exists p, scale_pixel m y_buf u_buf v_buf
                          (spec_position width sw x) = Ok p /\
                        channel p 1 = channel p 0 /\
                        channel p 2 = channel p 0 /\ channel p 3 = 255).
    { intros x Hx. destruct (Hn x Hx) as (EU & EV & A0 & A1).
      destruct (load8_allocated _ _ A0) as [y0 E0].
      destruct (load8_allocated _ _ A1) as [y1 E1].
      unfold scale_pixel. rewrite EU, EV, E0, E1. cbn [bind].
      destruct (spec_pixel_grey
                  (spec_blend
                     (Z.shiftr (Z.land (spec_position width sw x) 15) 2)
                     y0 y1))
        as (p & Hp & _ & C1 & C2 & C3).
      { apply spec_blend_range; eapply load8_range; eassumption. }
      exists p. auto. }
    destruct (ScaleYV12ToRGB32Row_completes _ _ _ _ _ _ m Hok) as [m' Hm'].
    { intros x Hx. destruct (Hpix x Hx) as (p & Hp & _). eauto. }
    exists m'. split; [exact Hm'|]. intros x Hx.
    rewrite ScaleYV12ToRGB32Row_pure in Hm' by exact Hok.
    destruct (row_pixel_at _ sw x rgb_buf m m'
                (fun k => scale_pixel_range m y_buf u_buf v_buf _) Hm' Hx)
      as (p & Hp & Hl).
    destruct (Hpix x Hx) as (q & Hq & C).
    assert (q = p) by congruence. subst q. exists p. auto.
  - intros width Hok Hn.
    assert (Hpix : forall x, 0 <= x < width ->
              exists p, half_pixel m y_buf u_buf v_buf x = Ok p /\
                        channel p 1 = channel p 0 /\
                        channel p 2 = channel p 0 /\ channel p 3 = 255).
    { intros x Hx. destruct (Hn x Hx) as (EU & EV & A0 & A1).
      destruct (load8_allocated _ _ A0) as [y0 E0].
      destruct (load8_allocated _ _ A1) as [y1 E1].
      unfold half_pixel. rewrite EU, EV, E0, E1. cbn [bind].
      destruct (spec_pixel_grey ((y0 + y1) / 2))
        as (p & Hp & _ & C1 & C2 & C3).
      { apply load8_range in E0, E1. Z.div_mod_to_equations. lia. }
      exists p. auto. }
    destruct (HalfYV12ToRGB32Row_completes _ _ _ _ _ m Hok) as [m' Hm'].
    { intros x Hx. destruct (Hpix x Hx) as (p & Hp & _). eauto. }
    exists m'. split; [exact Hm'|]. intros x Hx.
    rewrite HalfYV12ToRGB32Row_pure in Hm' by exact Hok.
    destruct (row_pixel_at _ width x rgb_buf m m'
                (half_pixel_range m y_buf u_buf v_buf) Hm' Hx)
      as (p & Hp & Hl).
    destruct (Hpix x Hx) as (q & Hq & C).
    assert (q = p) by congruence. subst q. exists p. auto.
Qed.

Lemma neutral_chroma_gives_grey_witness :
  (exists m',
      ScaleYV12ToRGB32Row 8 36 52 100 8 3 example_frame = Ok m' /\
      forall x, 0 <= x < 3 ->
        exists p, load32 m' (100 + 4 * x) = Ok p /\
                  channel p 1 = channel p 0 /\ channel p 2 = channel p 0 /\
                  channel p 3 = 255)
  /\
  (exists m',
      HalfYV12ToRGB32Row 8 36 52 100 4 example_frame = Ok m' /\
      forall x, 0 <= x < 4 ->
        exists p, load32 m' (100 + 4 * x) = Ok p /\
                  channel p 1 = channel p 0 /\ channel p 2 = channel p 0 /\
                  channel p 3 = 255).
Proof.
  destruct (neutral_chroma_gives_grey 8 36 52 100 example_frame) as [Hs Hh].
  split.
  - apply (Hs 8 3).
    + apply scale_row_okb_sound. vm_compute. reflexivity.
    + intros x Hx. assert (Hc : x = 0 \/ x = 1 \/ x = 2) by lia.
      destruct Hc as [-> | [-> | ->]]; vm_compute;
        repeat split; discriminate.
  - apply (Hh 4).
    + apply half_row_okb_sound. vm_compute. reflexivity.
    + intros x Hx. assert (Hc : x = 0 \/ x = 1 \/ x = 2 \/ x = 3) by lia.
      destruct Hc as [-> | [-> | [-> | ->]]]; vm_compute;
        repeat split; discriminate.
Defined.

(** ** Rows are independent *)

Lemma store_pixels_elsewhere (ps : list Z) (m : mem) (p a : Z) :
  outside p (Z.of_nat (length ps)) a -> store_pixels m p ps a = m a.
Proof.
  revert m p. unfold outside.
  induction ps as [|v ps IH]; intros m p Ha; cbn [store_pixels].
  - reflexivity.
  - cbn [length] in Ha. rewrite IH by lia. apply poke32_other. lia.
Qed.

(** Inside the row the stored bytes are those of the pixels, whatever the
    memory was. *)
Lemma store_pixels_inside (ps : list Z) (m1 m2 : mem) (p a : Z) :
  p <= a < p + 4 * Z.of_nat (length ps) ->
  store_pixels m1 p ps a = store_pixels m2 p ps a.
Proof.
  intros Ha.
  replace a with (p + 4 * Z.of_nat (Z.to_nat ((a - p) / 4)) + (a - p) mod 4).
  - rewrite !store_pixels_byte; [reflexivity| | | | ];
      try (apply Z.mod_pos_bound; lia).
    + assert ((a - p) / 4 < Z.of_nat (length ps))
        by (apply Z.div_lt_upper_bound; lia).
      assert (0 <= (a - p) / 4) by (apply Z.div_pos; lia). lia.
    + assert ((a - p) / 4 < Z.of_nat (length ps))
        by (apply Z.div_lt_upper_bound; lia).
      assert (0 <= (a - p) / 4) by (apply Z.div_pos; lia). lia.
  - rewrite Z2Nat.id by (apply Z.div_pos; lia).
    pose proof (Z.div_mod (a - p) 4 ltac:(lia)). lia.
Qed.

Lemma store_pixels_commute (psA psB : list Z) (m : mem) (rgbA rgbB a : Z) :
  rgbA + 4 * Z.of_nat (length psA) <= rgbB \/
  rgbB + 4 * Z.of_nat (length psB) <= rgbA ->
  store_pixels (store_pixels m rgbA psA) rgbB psB a
  = store_pixels (store_pixels m rgbB psB) rgbA psA a.
Proof.
  intros Hd.
  destruct (Z_le_dec rgbA a) as [HA1|HA1];
    [destruct (Z_lt_dec a (rgbA + 4 * Z.of_nat (length psA))) as [HA2|HA2]|].
  - rewrite store_pixels_elsewhere by (unfold outside; lia).
    apply store_pixels_inside. lia.
  - destruct (Z_le_dec rgbB a) as [HB1|HB1];
      [destruct (Z_lt_dec a (rgbB + 4 * Z.of_nat (length psB))) as [HB2|HB2]|].
    + rewrite (store_pixels_elsewhere psA (store_pixels m rgbB psB))
        by (unfold outside; lia).
      apply store_pixels_inside. lia.
    + rewrite !store_pixels_elsewhere by (unfold outside; lia). reflexivity.
    + rewrite !store_pixels_elsewhere by (unfold outside; lia). reflexivity.
  - destruct (Z_le_dec rgbB a) as [HB1|HB1];
      [destruct (Z_lt_dec a (rgbB + 4 * Z.of_nat (length psB))) as [HB2|HB2]|].
    + rewrite (store_pixels_elsewhere psA (store_pixels m rgbB psB))
        by (unfold outside; lia).
      apply store_pixels_inside. lia.
    + rewrite !store_pixels_elsewhere by (unfold outside; lia). reflexivity.
    + rewrite !store_pixels_elsewhere by (unfold outside; lia). reflexivity.
Qed.

(** A row converted after another row whose destination it does not read
    and does not share: the same pixels, stored over the other row's
    result. *)
Lemma scale_row_after_row (m : mem) (psA psB : list Z)
    (rgbA nA y u v rgb w sw : Z) :
  length psA = Z.to_nat nA -> 0 <= nA ->
  scale_row_ok m y u v rgb w sw ->
  rgbA + 4 * nA <= rgb \/ rgb + 4 * sw <= rgbA ->
  (forall x, 0 <= x < sw ->
     Forall (outside rgbA nA) (scale_reads y u v (spec_position w sw x))) ->
  pixels_from (fun x => scale_pixel m y u v (spec_position w sw x))
              (Z.to_nat sw) 0 = Ok psB ->
  ScaleYV12ToRGB32Row y u v rgb w sw (store_pixels m rgbA psA)
  = Ok (store_pixels (store_pixels m rgbA psA) rgb psB).
Proof.
  intros Hlen HnA (Hs & Hi & Hw & Hx) Hd Hr HpsB.
  assert (Hout : forall a, outside rgbA nA a ->
                           store_pixels m rgbA psA a = m a).
  { intros a Ha. apply store_pixels_elsewhere.
    rewrite Hlen, Z2Nat.id by lia. exact Ha. }
  rewrite ScaleYV12ToRGB32Row_pure.
  - rewrite (pixels_from_ext _
               (fun x => scale_pixel m y u v (spec_position w sw x))).
    + rewrite HpsB. reflexivity.
    + intros i Hi'. apply scale_pixel_agree.
      eapply Forall_impl; [|apply Hr; lia]. exact Hout.
  - split; [exact Hs|]. split; [exact Hi|]. split; [|exact Hx].
    intros a Ha. rewrite Hout by (unfold outside; lia). apply Hw, Ha.
Qed.

(** X15: rows can be converted in any order.  Two calls of the general row
    converter whose destination rows are disjoint, and neither of which
    reads the other's destination, commute: each completes after the other
    as it does alone, and the two orders leave the same memory.  This is
    what the [omp parallel for] over the rows of a frame relies on. *)
Theorem scale_rows_commute
    (yA uA vA rgbA wA swA yB uB vB rgbB wB swB : Z) (m mA mB : mem) :
  scale_row_ok m yA uA vA rgbA wA swA ->
  scale_row_ok m yB uB vB rgbB wB swB ->
  rgbA + 4 * swA <= rgbB \/ rgbB + 4 * swB <= rgbA ->
  (forall x, 0 <= x < swA ->
     Forall (outside rgbB swB)
            (scale_reads yA uA vA (spec_position wA swA x))) ->
  (forall x, 0 <= x < swB ->
     Forall (outside rgbA swA)
            (scale_reads yB uB vB (spec_position wB swB x))) ->
  ScaleYV12ToRGB32Row yA uA vA rgbA wA swA m = Ok mA ->
  ScaleYV12ToRGB32Row yB uB vB rgbB wB swB m = Ok mB ->
  exists m1 m2,
    ScaleYV12ToRGB32Row yB uB vB rgbB wB swB mA = Ok m1 /\
    ScaleYV12ToRGB32Row yA uA vA rgbA wA swA mB = Ok m2 /\
    forall a, m1 a = m2 a.
Proof.
  intros HokA HokB Hd HrA HrB HA HB.
  rewrite ScaleYV12ToRGB32Row_pure in HA by exact HokA.
  rewrite ScaleYV12ToRGB32Row_pure in HB by exact HokB.
  bind_inv HA as psA HpsA. injection HA as <-.
  bind_inv HB as psB HpsB. injection HB as <-.
  pose proof (pixels_from_length _ _ _ _ HpsA) as LA.
  pose proof (pixels_from_length _ _ _ _ HpsB) as LB.
  assert (PA : 0 < swA) by (destruct HokA as (H & _); exact H).
  assert (PB : 0 < swB) by (destruct HokB as (H & _); exact H).
  exists (store_pixels (store_pixels m rgbA psA) rgbB psB),
         (store_pixels (store_pixels m rgbB psB) rgbA psA).
  split; [|split].
  - apply (scale_row_after_row m psA psB rgbA swA); auto; lia.
  - apply (scale_row_after_row m psB psA rgbB swB); auto; lia.
  - intros a. apply store_pixels_commute. rewrite LA, LB. lia.
Qed.

Lemma scale_rows_commute_witness :
  exists m1 m2,
    ScaleYV12ToRGB32Row 8 36 52 116 8 3
      (get_mem (ScaleYV12ToRGB32Row 0 32 48 100 8 3 example_frame)) = Ok m1 /\
    ScaleYV12ToRGB32Row 0 32 48 100 8 3
      (get_mem (ScaleYV12ToRGB32Row 8 36 52 116 8 3 example_frame)) = Ok m2 /\
    forall a, m1 a = m2 a.
Proof.
  apply (scale_rows_commute 0 32 48 100 8 3 8 36 52 116 8 3 example_frame).
  - apply scale_row_okb_sound. vm_compute. reflexivity.
  - apply scale_row_okb_sound. vm_compute. reflexivity.
  - lia.
  - intros x Hx. assert (Hc : x = 0 \/ x = 1 \/ x = 2) by lia.
    destruct Hc as [-> | [-> | ->]]; apply forallb_outsideb_sound;
      vm_compute; reflexivity.
  - intros x Hx. assert (Hc : x = 0 \/ x = 1 \/ x = 2) by lia.
    destruct Hc as [-> | [-> | ->]]; apply forallb_outsideb_sound;
      vm_compute; reflexivity.
  - apply is_ok_get_mem. vm_compute. reflexivity.
  - apply is_ok_get_mem. vm_compute. reflexivity.
Defined.

(** ** Vertical traversal under rotation *)

Lemma in_int32_mul_signed (a b B : Z) :
  Z.abs a <= B -> B * Z.abs b < 2 ^ 31 -> in_int32 (a * b).
Proof.
  unfold in_int32. intros Ha Hb.
  destruct (Z.abs_spec a) as [[A0 EA]|[A0 EA]]; rewrite EA in Ha;
    destruct (Z.abs_spec b) as [[B0 EB]|[B0 EB]]; rewrite EB in Hb; nia.
Qed.

Lemma spec_rows_ext (row1 row2 : Z -> mem -> result mem) :
  (forall y m, row1 y m = row2 y m) ->
  forall (n : nat) (y : Z) (m : mem),
    spec_rows row1 n y m = spec_rows row2 n y m.
Proof.
  intros H. induction n as [|n IH]; intros y m; cbn [spec_rows];
    [reflexivity|].
  rewrite H. apply bind_ext. intros m1. apply IH.
Qed.

Lemma spec_yv12_row_at_shift
    (C : Z -> Z -> Z -> Z -> Z -> mem -> result mem)
    (yb ub vb rgb w sw yp uvp rp a c l ch y : Z) (m : mem) :
  spec_yv12_row_at C (yb + a * yp) (ub + c * uvp) (vb + c * uvp)
    rgb w sw yp uvp rp l ch y m
  = spec_yv12_row_at C yb ub vb rgb w sw yp uvp rp (a + l) (c + ch) y m.
Proof.
  unfold spec_yv12_row_at. cbv zeta.
  replace (yb + a * yp + l * yp) with (yb + (a + l) * yp) by ring.
  replace (ub + c * uvp + ch * uvp) with (ub + (c + ch) * uvp) by ring.
  replace (vb + c * uvp + ch * uvp) with (vb + (c + ch) * uvp) by ring.
  reflexivity.
Qed.

Lemma spec_yv16_row_at_shift (yb ub vb rgb w sw yp uvp rp a c l ch y : Z)
    (m : mem) :
  spec_yv16_row_at (yb + a * yp) (ub + c * uvp) (vb + c * uvp)
    rgb w sw yp uvp rp l ch y m
  = spec_yv16_row_at yb ub vb rgb w sw yp uvp rp (a + l) (c + ch) y m.
Proof.
  unfold spec_yv16_row_at. cbv zeta.
  replace (yb + a * yp + l * yp) with (yb + (a + l) * yp) by ring.
  replace (ub + c * uvp + ch * uvp) with (ub + (c + ch) * uvp) by ring.
  replace (vb + c * uvp + ch * uvp) with (vb + (c + ch) * uvp) by ring.
  reflexivity.
Qed.

Section SignedRows.

Variable ConvertYV12ToRGB32Row : Z -> Z -> Z -> Z -> Z -> mem -> result mem.
Variables (y_buf u_buf v_buf rgb_buf : Z).
Variables (width height scaled_width scaled_height : Z).
Variables (y_pitch uv_pitch rgb_pitch : Z).

Hypothesis small :
  frame_small height scaled_height y_pitch uv_pitch rgb_pitch.

(** The direction of the traversal: 1 from the top, -1 from the bottom. *)
Variable s : Z.
Hypothesis s_sign : s = 1 \/ s = -1.

Lemma signed_row_offsets (y : Z) :
  0 <= y < scaled_height ->
  let row := spec_source_row height scaled_height y in
  int_div (int_mul y (s * height)) scaled_height = Ok (s * row) /\
  int_mul y rgb_pitch = y * rgb_pitch /\
  int_mul (s * row) y_pitch = s * row * y_pitch /\
  int_mul (s * row) uv_pitch = s * row * uv_pitch /\
  int_mul (int_divc (s * row) 2) uv_pitch = s * (row / 2) * uv_pitch.
Proof.
  intros Hy row.
  pose proof (source_row_range _ _ _ _ _ small y Hy) as Hr. fold row in Hr.
  destruct small as (Hh & Hs & Hsh & Hyp & Huv & Hrgb).
  assert (Hhalf : 0 <= row / 2 <= height).
  { split; [apply Z.div_pos; lia|].
    apply Z.le_trans with row; [|lia]. apply Z.div_le_upper_bound; lia. }
  assert (Hhalf' : row / 2 <= row) by (apply Z.div_le_upper_bound; lia).
  assert (Hq : Z.quot (y * (s * height)) scaled_height = s * row).
  { unfold row, spec_source_row.
    destruct s_sign as [-> | ->].
    - rewrite !Z.mul_1_l. apply Z.quot_div_nonneg; nia.
    - replace (y * (-1 * height)) with (- (y * height)) by ring.
      rewrite Z.quot_opp_l by lia. rewrite Z.quot_div_nonneg by nia. ring. }
  assert (Hd : int_divc (s * row) 2 = s * (row / 2)).
  { unfold int_divc. destruct s_sign as [-> | ->].
    - rewrite !Z.mul_1_l. rewrite Z.quot_div_nonneg by lia.
      apply wrap32_id. unfold in_int32. lia.
    - replace (-1 * row) with (- row) by ring.
      rewrite Z.quot_opp_l by lia. rewrite Z.quot_div_nonneg by lia.
      rewrite wrap32_id by (unfold in_int32; lia). ring. }
  split; [|split; [|split; [|split]]].
  - rewrite int_div_positive by lia.
    rewrite int_mul_id
      by (apply (in_int32_mul_signed _ _ scaled_height);
          [lia | destruct s_sign as [-> | ->]; lia]).
    rewrite Hq. rewrite wrap32_id; [reflexivity|].
    unfold in_int32. destruct s_sign as [-> | ->]; lia.
  - apply int_mul_id, (in_int32_mul_signed _ _ scaled_height); lia.
  - apply int_mul_id, (in_int32_mul_signed _ _ height);
      [destruct s_sign as [-> | ->]; lia | lia].
  - apply int_mul_id, (in_int32_mul_signed _ _ height);
      [destruct s_sign as [-> | ->]; lia | lia].
  - rewrite Hd. apply int_mul_id, (in_int32_mul_signed _ _ height);
      [destruct s_sign as [-> | ->]; lia | lia].
Qed.

Lemma ScaleYV12ToRGB32_loop_signed :
  forall (n : nat) (y : Z) (m : mem),
    0 <= y -> y + Z.of_nat n <= scaled_height ->
    ScaleYV12ToRGB32_loop ConvertYV12ToRGB32Row n y y_buf u_buf v_buf
      rgb_buf width (s * height) scaled_width scaled_height
      y_pitch uv_pitch rgb_pitch m
    = spec_rows
        (fun y =>
           spec_yv12_row_at ConvertYV12ToRGB32Row y_buf u_buf v_buf rgb_buf
             width scaled_width y_pitch uv_pitch rgb_pitch
             (s * spec_source_row height scaled_height y)
             (s * (spec_source_row height scaled_height y / 2)) y)
        n y m.
Proof.
  induction n as [|n IH]; intros y m Hy Hn; [reflexivity|].
  cbn [ScaleYV12ToRGB32_loop spec_rows].
  destruct (signed_row_offsets y ltac:(lia)) as (E1 & E2 & E3 & _ & E5).
  rewrite E1. cbn [bind]. rewrite E2, E3, E5.
  unfold spec_yv12_row_at. cbv zeta.
  apply bind_ext. intros m1. apply IH; lia.
Qed.

Lemma ScaleYV16ToRGB32_loop_signed :
  forall (n : nat) (y : Z) (m : mem),
    0 <= y -> y + Z.of_nat n <= scaled_height ->
    ScaleYV16ToRGB32_loop n y y_buf u_buf v_buf
      rgb_buf width (s * height) scaled_width scaled_height
      y_pitch uv_pitch rgb_pitch m
    = spec_rows
        (fun y =>
           spec_yv16_row_at y_buf u_buf v_buf rgb_buf
             width scaled_width y_pitch uv_pitch rgb_pitch
             (s * spec_source_row height scaled_height y)
             (s * spec_source_row height scaled_height y) y)
        n y m.
Proof.
  induction n as [|n IH]; intros y m Hy Hn; [reflexivity|].
  cbn [ScaleYV16ToRGB32_loop spec_rows].
  destruct (signed_row_offsets y ltac:(lia)) as (E1 & E2 & E3 & E4 & _).
  rewrite E1. cbn [bind]. rewrite E2, E3, E4.
  unfold spec_yv16_row_at. cbv zeta.
  apply bind_ext. intros m1. apply IH; lia.
Qed.

End SignedRows.

Lemma dcheck_passes (DEBUG : bool) (view_rotate : Rotate) :
  DEBUG = false \/ implemented view_rotate = true ->
  DCHECK DEBUG (implemented view_rotate) = Ok tt.
Proof.
  unfold DCHECK. intros [-> | ->]; [reflexivity|]. now rewrite andb_false_r.
Qed.

Lemma height_offsets (height scaled_height y_pitch uv_pitch rgb_pitch : Z) :
  frame_small height scaled_height y_pitch uv_pitch rgb_pitch ->
  0 < height -> 0 < scaled_height ->
  int_neg height = -1 * height /\
  int_mul (int_sub height 1) y_pitch = (height - 1) * y_pitch /\
  int_mul (int_sub height 1) uv_pitch = (height - 1) * uv_pitch /\
  int_mul (int_sub (int_divc height 2) 1) uv_pitch
  = (height / 2 - 1) * uv_pitch.
Proof.
  intros (Hh & Hs & Hsh & Hyp & Huv & Hrgb) Hh0 Hs0.
  assert (Hlt : height < 2 ^ 31) by nia.
  assert (Hhalf : 0 <= height / 2 <= height).
  { split; [apply Z.div_pos; lia | apply Z.div_le_upper_bound; lia]. }
  unfold int_neg, int_sub.
  rewrite int_divc_nonneg by lia.
  rewrite !wrap32_id by (unfold in_int32; lia).
  split; [ring|].
  repeat split; apply int_mul_id, (in_int32_mul_signed _ _ height); lia.
Qed.

Lemma frame_rows_by_rotation (DEBUG : bool)
    (ConvertYV12ToRGB32Row : Z -> Z -> Z -> Z -> Z -> mem -> result mem)
    (y_buf u_buf v_buf rgb_buf : Z)
    (width height scaled_width scaled_height : Z)
    (y_pitch uv_pitch rgb_pitch : Z) (view_rotate : Rotate) (m : mem) :
  frame_small height scaled_height y_pitch uv_pitch rgb_pitch ->
  0 < height ->
  DEBUG = false \/ implemented view_rotate = true ->
  let hz := rebase_right view_rotate y_buf u_buf v_buf width in
  ScaleYV12ToRGB32 DEBUG ConvertYV12ToRGB32Row y_buf u_buf v_buf rgb_buf
    width height scaled_width scaled_height y_pitch uv_pitch rgb_pitch
    view_rotate m
  = spec_rows
      (fun y =>
         spec_yv12_row_at ConvertYV12ToRGB32Row (p_y hz) (p_u hz) (p_v hz)
           rgb_buf (p_extent hz) scaled_width y_pitch uv_pitch rgb_pitch
           (spec_luma_row view_rotate height scaled_height y)
           (spec_chroma_row_yv12 view_rotate height scaled_height y) y)
      (Z.to_nat scaled_height) 0 m
  /\
  ScaleYV16ToRGB32 DEBUG y_buf u_buf v_buf rgb_buf
    width height scaled_width scaled_height y_pitch uv_pitch rgb_pitch
    view_rotate m
  = spec_rows
      (fun y =>
         spec_yv16_row_at (p_y hz) (p_u hz) (p_v hz)
           rgb_buf (p_extent hz) scaled_width y_pitch uv_pitch rgb_pitch
           (spec_luma_row view_rotate height scaled_height y)
           (spec_luma_row view_rotate height scaled_height y) y)
      (Z.to_nat scaled_height) 0 m.
Proof.
  intros Hsmall Hh Hd hz.
  pose proof (dcheck_passes _ _ Hd) as Hc.
  unfold ScaleYV12ToRGB32, ScaleYV16ToRGB32. rewrite Hc. cbn [bind].
  fold hz.
  destruct (Z_le_gt_dec scaled_height 0) as [Hs|Hs].
  { replace (Z.to_nat scaled_height) with O by lia. split; reflexivity. }
  destruct (height_offsets _ _ _ _ _ Hsmall Hh ltac:(lia))
    as (En & Ey & Eu16 & Eu12).
  unfold rebase_bottom_yv12, rebase_bottom_yv16.
  unfold spec_luma_row, spec_chroma_row_yv12, starts_at_bottom.
  destruct ((view_rotate == ROTATE_90) || (view_rotate == ROTATE_180) ||
            (view_rotate == MIRROR_ROTATE_90) ||
            (view_rotate == MIRROR_ROTATE_180)); cbn [p_y p_u p_v p_extent].
  - rewrite En, Ey, Eu16, Eu12. split.
    + rewrite (ScaleYV12ToRGB32_loop_signed ConvertYV12ToRGB32Row
                 _ _ _ _ _ _ _ _ _ _ _ Hsmall (-1)) by (auto; lia).
      apply spec_rows_ext. intros y m0.
      rewrite spec_yv12_row_at_shift. cbv zeta.
      f_equal; ring.
    + rewrite (ScaleYV16ToRGB32_loop_signed
                 _ _ _ _ _ _ _ _ _ _ _ Hsmall (-1)) by (auto; lia).
      apply spec_rows_ext. intros y m0.
      rewrite spec_yv16_row_at_shift. cbv zeta.
      f_equal; ring.
  - split.
    + pose proof (ScaleYV12ToRGB32_loop_signed ConvertYV12ToRGB32Row
                    (p_y hz) (p_u hz) (p_v hz) rgb_buf (p_extent hz) height
                    scaled_width scaled_height y_pitch uv_pitch rgb_pitch
                    Hsmall 1 (or_introl eq_refl)
                    (Z.to_nat scaled_height) 0 m ltac:(lia) ltac:(lia)) as L.
      rewrite Z.mul_1_l in L. rewrite L.
      apply spec_rows_ext. intros y m0. cbv zeta.
      f_equal; ring.
    + pose proof (ScaleYV16ToRGB32_loop_signed
                    (p_y hz) (p_u hz) (p_v hz) rgb_buf (p_extent hz) height
                    scaled_width scaled_height y_pitch uv_pitch rgb_pitch
                    Hsmall 1 (or_introl eq_refl)
                    (Z.to_nat scaled_height) 0 m ltac:(lia) ltac:(lia)) as L.
      rewrite Z.mul_1_l in L. rewrite L.
      apply spec_rows_ext. intros y m0. cbv zeta.
      f_equal; ring.
Qed.

(** X16: how each rotation walks the source rows.  For every rotation that
    passes the [DCHECK], destination row [y] of either frame scaler is one
    row conversion from the planes rebased for the horizontal direction:
    luma row [floor (y * height / scaled_height)] counted from the top, or
    from the last row upward when the rotation starts at the bottom; the
    4:2:0 chroma row is half that index from row 0, or [height / 2 - 1]
    less that half, and the 4:2:2 chroma row is the luma row. *)
Theorem rows_follow_rotation (DEBUG : bool)
    (ConvertYV12ToRGB32Row : Z -> Z -> Z -> Z -> Z -> mem -> result mem)
    (y_buf u_buf v_buf rgb_buf : Z)
    (width height scaled_width scaled_height : Z)
    (y_pitch uv_pitch rgb_pitch : Z) (view_rotate : Rotate) (m : mem) :
  frame_small height scaled_height y_pitch uv_pitch rgb_pitch ->
  0 < height ->
  DEBUG = false \/ implemented view_rotate = true ->
  let hz := rebase_right view_rotate y_buf u_buf v_buf width in
  ScaleYV12ToRGB32 DEBUG ConvertYV12ToRGB32Row y_buf u_buf v_buf rgb_buf
    width height scaled_width scaled_height y_pitch uv_pitch rgb_pitch
    view_rotate m
  = spec_rows
      (fun y =>
         spec_yv12_row_at ConvertYV12ToRGB32Row (p_y hz) (p_u hz) (p_v hz)
           rgb_buf (p_extent hz) scaled_width y_pitch uv_pitch rgb_pitch
           (spec_luma_row view_rotate height scaled_height y)
           (spec_chroma_row_yv12 view_rotate height scaled_height y) y)
      (Z.to_nat scaled_height) 0 m
  /\
  ScaleYV16ToRGB32 DEBUG y_buf u_buf v_buf rgb_buf
    width height scaled_width scaled_height y_pitch uv_pitch rgb_pitch
    view_rotate m
  = spec_rows
      (fun y =>
         spec_yv16_row_at (p_y hz) (p_u hz) (p_v hz)
           rgb_buf (p_extent hz) scaled_width y_pitch uv_pitch rgb_pitch
           (spec_luma_row view_rotate height scaled_height y)
           (spec_luma_row view_rotate height scaled_height y) y)
      (Z.to_nat scaled_height) 0 m.
Proof.
  intros Hsmall Hh Hd.
  exact (frame_rows_by_rotation DEBUG ConvertYV12ToRGB32Row
           y_buf u_buf v_buf rgb_buf width height scaled_width scaled_height
           y_pitch uv_pitch rgb_pitch view_rotate m Hsmall Hh Hd).
Qed.

Lemma rows_follow_rotation_witness :
  ScaleYV12ToRGB32 true identity_row 0 32 48 100 8 4 3 3 8 4 16
    ROTATE_180 example_frame
  = spec_rows
      (fun y =>
         spec_yv12_row_at identity_row (p_y (rebase_right ROTATE_180 0 32 48 8))
           (p_u (rebase_right ROTATE_180 0 32 48 8))
           (p_v (rebase_right ROTATE_180 0 32 48 8))
           100 (p_extent (rebase_right ROTATE_180 0 32 48 8)) 3 8 4 16
           (spec_luma_row ROTATE_180 4 3 y)
           (spec_chroma_row_yv12 ROTATE_180 4 3 y) y)
      (Z.to_nat 3) 0 example_frame
  /\
  ScaleYV16ToRGB32 true 0 32 48 100 8 4 3 3 8 4 16 ROTATE_180 example_frame
  = spec_rows
      (fun y =>
         spec_yv16_row_at (p_y (rebase_right ROTATE_180 0 32 48 8))
           (p_u (rebase_right ROTATE_180 0 32 48 8))
           (p_v (rebase_right ROTATE_180 0 32 48 8))
           100 (p_extent (rebase_right ROTATE_180 0 32 48 8)) 3 8 4 16
           (spec_luma_row ROTATE_180 4 3 y)
           (spec_luma_row ROTATE_180 4 3 y) y)
      (Z.to_nat 3) 0 example_frame.
Proof.
  apply (rows_follow_rotation true identity_row 0 32 48 100 8 4 3 3 8 4 16
           ROTATE_180 example_frame).
  - unfold frame_small. cbn. lia.
  - lia.
  - right. reflexivity.
Defined.

(** X17: a vertical flip is exact.  With [MIRROR_ROTATE_180] and no vertical
    scaling, destination row [y] is converted from exactly the source rows
    that the 0 degree call converts for destination row [height - 1 - y]:
    luma row [height - 1 - y] and, for 4:2:0 frames of even height, chroma
    row [(height - 1 - y) / 2]; for 4:2:2 frames of any height the chroma
    row is the luma row. *)
Theorem vertical_flip_is_exact (DEBUG : bool)
    (ConvertYV12ToRGB32Row : Z -> Z -> Z -> Z -> Z -> mem -> result mem)
    (y_buf u_buf v_buf rgb_buf : Z)
    (width height scaled_width : Z)
    (y_pitch uv_pitch rgb_pitch : Z) (m : mem) :
  frame_small height height y_pitch uv_pitch rgb_pitch ->
  0 < height ->
  (height mod 2 = 0 ->
   ScaleYV12ToRGB32 DEBUG ConvertYV12ToRGB32Row y_buf u_buf v_buf rgb_buf
     width height scaled_width height y_pitch uv_pitch rgb_pitch
     MIRROR_ROTATE_180 m
   = spec_rows
       (fun y =>
          spec_yv12_row_at ConvertYV12ToRGB32Row y_buf u_buf v_buf
            rgb_buf width scaled_width y_pitch uv_pitch rgb_pitch
            (height - 1 - y) ((height - 1 - y) / 2) y)
       (Z.to_nat height) 0 m) /\
  ScaleYV12ToRGB32 DEBUG ConvertYV12ToRGB32Row y_buf u_buf v_buf rgb_buf
    width height scaled_width height y_pitch uv_pitch rgb_pitch
    ROTATE_0 m
  = spec_rows
      (fun y =>
         spec_yv12_row_at ConvertYV12ToRGB32Row y_buf u_buf v_buf
           rgb_buf width scaled_width y_pitch uv_pitch rgb_pitch
           y (y / 2) y)
      (Z.to_nat height) 0 m /\
  ScaleYV16ToRGB32 DEBUG y_buf u_buf v_buf rgb_buf
    width height scaled_width height y_pitch uv_pitch rgb_pitch
    MIRROR_ROTATE_180 m
  = spec_rows
      (fun y =>
         spec_yv16_row_at y_buf u_buf v_buf
           rgb_buf width scaled_width y_pitch uv_pitch rgb_pitch
           (height - 1 - y) (height - 1 - y) y)
      (Z.to_nat height) 0 m /\
  ScaleYV16ToRGB32 DEBUG y_buf u_buf v_buf rgb_buf
    width height scaled_width height y_pitch uv_pitch rgb_pitch
    ROTATE_0 m
  = spec_rows
      (fun y =>
         spec_yv16_row_at y_buf u_buf v_buf
           rgb_buf width scaled_width y_pitch uv_pitch rgb_pitch
           y y y)
      (Z.to_nat height) 0 m.
Proof.
  intros Hsmall Hh.
  assert (Hrow : forall y, spec_source_row height height y = y).
  { intros y. unfold spec_source_row. apply Z.div_mul. lia. }
  destruct (frame_rows_by_rotation DEBUG ConvertYV12ToRGB32Row
              y_buf u_buf v_buf rgb_buf width height scaled_width height
              y_pitch uv_pitch rgb_pitch MIRROR_ROTATE_180 m Hsmall Hh
              (or_intror eq_refl)) as [F12 F16].
  destruct (frame_rows_by_rotation DEBUG ConvertYV12ToRGB32Row
              y_buf u_buf v_buf rgb_buf width height scaled_width height
              y_pitch uv_pitch rgb_pitch ROTATE_0 m Hsmall Hh
              (or_intror eq_refl)) as [U12 U16].
  cbn [rebase_right Rotate_eqb orb p_y p_u p_v p_extent] in F12, F16, U12, U16.
  unfold spec_luma_row, spec_chroma_row_yv12 in F12, F16, U12, U16.
  cbn [starts_at_bottom Rotate_eqb orb] in F12, F16, U12, U16.
  split; [|split; [|split]].
  - intros He. rewrite F12. apply spec_rows_ext. intros y m0.
    rewrite Hrow. f_equal. Z.div_mod_to_equations. lia.
  - rewrite U12. apply spec_rows_ext. intros y m0.
    rewrite Hrow. reflexivity.
  - rewrite F16. apply spec_rows_ext. intros y m0.
    rewrite Hrow. reflexivity.
  - rewrite U16. apply spec_rows_ext. intros y m0.
    rewrite Hrow. reflexivity.
Qed.

Lemma vertical_flip_is_exact_witness :
  (4 mod 2 = 0 ->
   ScaleYV12ToRGB32 true identity_row 0 32 48 100 8 4 3 4 8 4 16
     MIRROR_ROTATE_180 example_frame
   = spec_rows
       (fun y =>
          spec_yv12_row_at identity_row 0 32 48 100 8 3 8 4 16
            (4 - 1 - y) ((4 - 1 - y) / 2) y)
       (Z.to_nat 4) 0 example_frame) /\
  ScaleYV12ToRGB32 true identity_row 0 32 48 100 8 4 3 4 8 4 16
    ROTATE_0 example_frame
  = spec_rows
      (fun y => spec_yv12_row_at identity_row 0 32 48 100 8 3 8 4 16
                  y (y / 2) y)
      (Z.to_nat 4) 0 example_frame /\
  ScaleYV16ToRGB32 true 0 32 48 100 8 4 3 4 8 4 16
    MIRROR_ROTATE_180 example_frame
  = spec_rows
      (fun y => spec_yv16_row_at 0 32 48 100 8 3 8 4 16
                  (4 - 1 - y) (4 - 1 - y) y)
      (Z.to_nat 4) 0 example_frame /\
  ScaleYV16ToRGB32 true 0 32 48 100 8 4 3 4 8 4 16 ROTATE_0 example_frame
  = spec_rows
      (fun y => spec_yv16_row_at 0 32 48 100 8 3 8 4 16 y y y)
      (Z.to_nat 4) 0 example_frame.
Proof.
  apply (vertical_flip_is_exact true identity_row 0 32 48 100 8 4 3 8 4 16
           example_frame).
  - unfold frame_small. cbn. lia.
  - lia.
Defined.

(** ** One guard sample *)

(** For every ratio the first luma sample of a column lies in the row. *)
Lemma luma_index_any_ratio (width scaled_width x : Z) :
  0 < width -> 0 < scaled_width -> 0 <= x < scaled_width ->
  0 <= spec_position width scaled_width x /\
  0 <= Z.shiftr (spec_position width scaled_width x) 4 <= width - 1.
Proof.
  intros Hw Hs Hx. unfold spec_position.
  rewrite spec_dx_floor, shiftr4_div by lia.
  set (dx := width * 16 / scaled_width).
  assert (Hdx : scaled_width * dx <= width * 16)
    by (apply Z.mul_div_le; lia).
  assert (Hdx0 : 0 <= dx) by (apply Z.div_pos; lia).
  assert (Hp : 0 <= x * dx) by nia.
  assert (Hq : x * dx <= 16 * width - 1).
  { destruct (Z.eq_dec dx 0) as [->|Hne]; nia. }
  split; [exact Hp|]. split.
  - apply Z.div_pos; lia.
  - assert (x * dx / 16 < width); [|lia].
    apply Z.div_lt_upper_bound; lia.
Qed.

Lemma guarded_row_ok (m : mem) (y u v rgb w sw : Z) :
  0 < w -> 0 < sw -> in_int32 (w * 16) ->
  row_buffers m y u v rgb (w + 1) ((w + 1) / 2) sw ->
  scale_row_ok m y u v rgb w sw /\
  forall x, 0 <= x < sw ->
    Forall (fun a => m a <> None)
           (scale_reads y u v (spec_position w sw x)).
Proof.
  intros Hw0 Hs Hi (Ay & Au & Av & Hw & Sy & Su & Sv).
  assert (Hidx : forall x, 0 <= x < sw ->
            0 <= spec_position w sw x < 16 * w /\
            0 <= Z.shiftr (spec_position w sw x) 4 < w /\
            0 <= Z.shiftr (spec_position w sw x) 5 < (w + 1) / 2).
  { intros x Hx.
    destruct (luma_index_any_ratio w sw x Hw0 Hs Hx) as (P0 & L).
    rewrite shiftr5_half.
    split; [|split; [lia|]].
    - rewrite shiftr4_div in L. Z.div_mod_to_equations. lia.
    - set (L4 := Z.shiftr (spec_position w sw x) 4) in *.
      Z.div_mod_to_equations. lia. }
  split.
  - split; [lia|]. split; [exact Hi|]. split; [exact Hw|].
    intros x Hx. destruct (Hidx x Hx) as (P & L & C).
    split; [unfold in_int32 in *; lia|].
    unfold scale_reads.
    repeat (apply Forall_cons || apply Forall_nil).
    + apply (separate_outside _ _ _ _ _ Su); lia.
    + apply (separate_outside _ _ _ _ _ Sv); lia.
    + apply (separate_outside _ _ _ _ _ Sy); lia.
    + apply (separate_outside _ _ _ _ _ Sy); lia.
  - intros x Hx. destruct (Hidx x Hx) as (P & L & C).
    unfold scale_reads.
    repeat (apply Forall_cons || apply Forall_nil).
    + apply Au; lia.
    + apply Av; lia.
    + apply Ay; lia.
    + apply Ay; lia.
Qed.

Lemma scale_row_ok_or_table_fault (m : mem) (y u v rgb w sw : Z) :
  scale_row_ok m y u v rgb w sw ->
  (forall x, 0 <= x < sw ->
     Forall (fun a => m a <> None)
            (scale_reads y u v (spec_position w sw x))) ->
  ok_or_table_fault (ScaleYV12ToRGB32Row y u v rgb w sw m).
Proof.
  intros Hok Hal. unfold ok_or_table_fault.
  rewrite ScaleYV12ToRGB32Row_pure by exact Hok.
  destruct (pure_row_outcome
              (fun x => scale_pixel m y u v (spec_position w sw x))
              sw rgb m (fun e => exists i, e = ClipTableOutOfRange i))
    as [Hm|(e & He & i & ->)].
  - intros x e Hx. apply scale_pixel_fault, Hal, Hx.
  - left. exact Hm.
  - right. eauto.
Qed.

Lemma half_row_ok_or_table_fault (m : mem) (y u v rgb n : Z) :
  half_row_ok m y u v rgb n ->
  (forall x, 0 <= x < n ->
     Forall (fun a => m a <> None) (half_reads y u v x)) ->
  ok_or_table_fault (HalfYV12ToRGB32Row y u v rgb n m).
Proof.
  intros Hok Hal. unfold ok_or_table_fault.
  rewrite HalfYV12ToRGB32Row_pure by exact Hok.
  destruct (pure_row_outcome (half_pixel m y u v) n rgb m
              (fun e => exists i, e = ClipTableOutOfRange i))
    as [Hm|(e & He & i & ->)].
  - intros x e Hx. apply half_pixel_fault, Hal, Hx.
  - left. exact Hm.
  - right. eauto.
Qed.

(** X18: one guard sample is enough.  For every ratio, up or down, the
    general converter reads luma samples [y_buf[0 .. width]] only, the last
    being the look-ahead of the last column, and chroma samples among the
    first [(width + 1) / 2]: with a luma row of [width + 1] allocated
    samples, those chroma samples and the destination row allocated, and the
    destination apart from them, the call reads and writes allocated
    addresses only.  It ends with the row written or at a lookup outside
    the saturation table. *)
Theorem one_guard_sample_suffices (y_buf u_buf v_buf rgb_buf : Z)
    (width scaled_width : Z) (m : mem) :
  0 < width -> 0 < scaled_width -> in_int32 (width * 16) ->
  row_buffers m y_buf u_buf v_buf rgb_buf
    (width + 1) ((width + 1) / 2) scaled_width ->
  ok_or_table_fault
    (ScaleYV12ToRGB32Row y_buf u_buf v_buf rgb_buf width scaled_width m).
Proof.
  intros Hw Hs Hi Hb.
  destruct (guarded_row_ok m _ _ _ _ _ _ Hw Hs Hi Hb) as [Hok Hal].
  now apply scale_row_ok_or_table_fault.
Qed.

Lemma one_guard_sample_suffices_witness :
  ok_or_table_fault (ScaleYV12ToRGB32Row 0 32 48 100 4 4 guarded_row).
Proof.
  apply (one_guard_sample_suffices 0 32 48 100 4 4 guarded_row).
  - lia.
  - lia.
  - unfold in_int32. lia.
  - apply row_buffersb_sound. vm_compute. reflexivity.
Defined.

(** ** The addresses a frame conversion touches *)

Lemma frame_buffersb_sound (m : mem) (y u v rgb w h ch sw sh yp uvp rp : Z) :
  frame_buffersb m y u v rgb w h ch sw sh yp uvp rp = true ->
  frame_buffers m y u v rgb w h ch sw sh yp uvp rp.
Proof.
  unfold frame_buffersb, frame_buffers. rewrite forallb_forall.
  intros H row crow d Hr Hc Hd.
  specialize (H row (in_columns _ _ Hr)). rewrite forallb_forall in H.
  specialize (H crow (in_columns _ _ Hc)). rewrite forallb_forall in H.
  apply row_buffersb_sound, H, in_columns, Hd.
Qed.

Lemma row_buffers_same_allocation (m0 m : mem) (y u v rgb ln cn dn : Z) :
  (forall a, m a = None <-> m0 a = None) ->
  row_buffers m0 y u v rgb ln cn dn -> row_buffers m y u v rgb ln cn dn.
Proof.
  intros Ha (Ay & Au & Av & Hw & Sy & Su & Sv).
  unfold row_buffers, allocated_range, writable in *.
  repeat split; try assumption; intros i Hi; rewrite Ha; auto.
Qed.

Lemma row_buffers_shrink (m : mem) (y u v rgb ln cn dn ln' cn' : Z) :
  ln' <= ln -> cn' <= cn ->
  row_buffers m y u v rgb ln cn dn -> row_buffers m y u v rgb ln' cn' dn.
Proof.
  intros Hl Hc (Ay & Au & Av & Hw & Sy & Su & Sv).
  unfold row_buffers, allocated_range, separate in *.
  repeat split; try assumption; try lia; intros i Hi; auto with zarith.
Qed.

(** One row of a frame scaled down, from buffers allocated as at the call. *)
Lemma scaled_down_row_at_safe
    (C : Z -> Z -> Z -> Z -> Z -> mem -> result mem)
    (m0 m : mem) (y u v rgb w sw : Z) :
  0 < sw < w -> in_int32 (w * 16) ->
  (forall a, m a = None <-> m0 a = None) ->
  row_buffers m0 y u v rgb w ((w + 1) / 2) sw ->
  let r := if sw =? w then C y u v rgb (size_t_of_int sw) m
           else if sw =? int_divc w 2 then HalfYV12ToRGB32Row y u v rgb sw m
           else ScaleYV12ToRGB32Row y u v rgb w sw m in
  let r16 := if sw =? int_divc w 2 then HalfYV12ToRGB32Row y u v rgb sw m
             else ScaleYV12ToRGB32Row y u v rgb w sw m in
  r = r16 /\ ok_or_table_fault r16 /\
  forall m', r16 = Ok m' -> forall a, m' a = None <-> m0 a = None.
Proof.
  intros Hs Hi Ha Hb0 r r16. subst r r16.
  pose proof (row_buffers_same_allocation m0 m _ _ _ _ _ _ _ Ha Hb0) as Hb.
  destruct (Z.eqb_spec sw w) as [E|_]; [lia|].
  split; [reflexivity|].
  assert (Hhalf : int_divc w 2 = w / 2)
    by (apply int_divc_nonneg; unfold in_int32 in Hi; lia).
  rewrite Hhalf.
  destruct (Z.eqb_spec sw (w / 2)) as [E|_].
  - assert (H2 : 2 * sw <= w /\ sw <= (w + 1) / 2)
      by (subst sw; Z.div_mod_to_equations; lia).
    destruct (half_row_buffers_ok m y u v rgb sw) as [Hok Hal].
    { unfold in_int32 in Hi. lia. }
    { eapply row_buffers_shrink; [| |exact Hb]; lia. }
    split; [now apply half_row_ok_or_table_fault|].
    intros m' Hm' a. apply HalfYV12ToRGB32Row_writes in Hm'.
    destruct Hm' as (_ & _ & Hal'). rewrite Hal'. apply Ha.
  - destruct (scale_down_row_ok m y u v rgb w sw Hs Hi Hb) as [Hok Hal].
    split; [now apply scale_row_ok_or_table_fault|].
    intros m' Hm' a. apply ScaleYV12ToRGB32Row_writes in Hm'.
    destruct Hm' as (_ & _ & Hal'). rewrite Hal'. apply Ha.
Qed.

Lemma spec_rows_ok_or_table_fault (row : Z -> mem -> result mem) (m0 : mem) (hi : Z) :
  (forall y m, 0 <= y < hi ->
     (forall a, m a = None <-> m0 a = None) ->
     ok_or_table_fault (row y m) /\
     forall m', row y m = Ok m' -> forall a, m' a = None <-> m0 a = None) ->
  forall (n : nat) (y : Z) (m : mem),
    0 <= y -> y + Z.of_nat n <= hi ->
    (forall a, m a = None <-> m0 a = None) ->
    ok_or_table_fault (spec_rows row n y m).
Proof.
  intros Hrow. induction n as [|n IH]; intros y m Hy Hn Ha;
    cbn [spec_rows].
  - left. eauto.
  - destruct (Hrow y m ltac:(lia) Ha) as [[(m1 & E)|(i & E)] Hnext];
      rewrite E; cbn [bind].
    + apply IH; [lia | lia | apply Hnext, E].
    + right. eauto.
Qed.

Lemma source_row_below (height scaled_height y : Z) :
  0 < height -> 0 <= y < scaled_height ->
  0 <= spec_source_row height scaled_height y < height /\
  0 <= spec_source_row height scaled_height y / 2 < (height + 1) / 2.
Proof.
  intros Hh Hy. unfold spec_source_row.
  assert (H0 : 0 <= y * height / scaled_height)
    by (apply Z.div_pos; nia).
  assert (H1 : y * height / scaled_height < height)
    by (apply Z.div_lt_upper_bound; nia).
  split; [lia|]. Z.div_mod_to_equations. lia.
Qed.

(** X19: scaling a frame down at 0 degrees stays inside the planes.  When
    [0 < scaled_width < width], with every luma row of [width] samples,
    every chroma row of [(width + 1) / 2] samples ([(height + 1) / 2] rows
    for 4:2:0, [height] rows for 4:2:2) and every destination row allocated,
    and the destination rows apart from the source rows, both frame scalers
    read and write allocated addresses only, whatever the vertical ratio.
    The call ends with the frame written or at a lookup outside the
    saturation table. *)
Theorem frame_scale_down_stays_in_planes (DEBUG : bool)
    (ConvertYV12ToRGB32Row : Z -> Z -> Z -> Z -> Z -> mem -> result mem)
    (y_buf u_buf v_buf rgb_buf : Z)
    (width height scaled_width scaled_height : Z)
    (y_pitch uv_pitch rgb_pitch : Z) (m : mem) :
  frame_small height scaled_height y_pitch uv_pitch rgb_pitch ->
  0 < height -> 0 < scaled_width < width -> in_int32 (width * 16) ->
  (frame_buffers m y_buf u_buf v_buf rgb_buf width height
     ((height + 1) / 2) scaled_width scaled_height
     y_pitch uv_pitch rgb_pitch ->
   ok_or_table_fault
     (ScaleYV12ToRGB32 DEBUG ConvertYV12ToRGB32Row y_buf u_buf v_buf rgb_buf
        width height scaled_width scaled_height y_pitch uv_pitch rgb_pitch
        ROTATE_0 m)) /\
  (frame_buffers m y_buf u_buf v_buf rgb_buf width height
     height scaled_width scaled_height y_pitch uv_pitch rgb_pitch ->
   ok_or_table_fault
     (ScaleYV16ToRGB32 DEBUG y_buf u_buf v_buf rgb_buf
        width height scaled_width scaled_height y_pitch uv_pitch rgb_pitch
        ROTATE_0 m)).
Proof.
  intros Hsmall Hh Hs Hi.
  destruct (frame_rows_by_rotation DEBUG ConvertYV12ToRGB32Row
              y_buf u_buf v_buf rgb_buf width height scaled_width
              scaled_height y_pitch uv_pitch rgb_pitch ROTATE_0 m Hsmall Hh
              (or_intror eq_refl)) as [E12 E16].
  cbn [rebase_right Rotate_eqb orb p_y p_u p_v p_extent] in E12, E16.
  unfold spec_luma_row, spec_chroma_row_yv12 in E12, E16.
  cbn [starts_at_bottom Rotate_eqb orb] in E12, E16.
  assert (Hsh : 0 <= scaled_height)
    by (destruct Hsmall as (_ & H & _); exact H).
  split; intros Hb.
  - rewrite E12.
    apply (spec_rows_ok_or_table_fault _ m scaled_height);
      [|lia|lia|reflexivity].
    intros y m1 Hy Ha.
    destruct (source_row_below height scaled_height y Hh Hy) as [Hr Hc].
    destruct (scaled_down_row_at_safe ConvertYV12ToRGB32Row m m1
                _ _ _ _ _ _ Hs Hi Ha
                (Hb _ _ _ Hr Hc Hy)) as (Er & Hsafe & Hnext).
    unfold spec_yv12_row_at. cbv zeta. rewrite Er. split; assumption.
  - rewrite E16.
    apply (spec_rows_ok_or_table_fault _ m scaled_height);
      [|lia|lia|reflexivity].
    intros y m1 Hy Ha.
    destruct (source_row_below height scaled_height y Hh Hy) as [Hr Hc].
    destruct (scaled_down_row_at_safe ConvertYV12ToRGB32Row m m1
                _ _ _ _ _ _ Hs Hi Ha
                (Hb _ _ _ Hr Hr Hy)) as (_ & Hsafe & Hnext).
    unfold spec_yv16_row_at. cbv zeta. split; assumption.
Qed.

Lemma frame_scale_down_stays_in_planes_witness :
  ok_or_table_fault
    (ScaleYV12ToRGB32 false identity_row 0 32 48 100 4 2 3 2 8 4 16
       ROTATE_0 example_frame) /\
  ok_or_table_fault
    (ScaleYV16ToRGB32 false 0 32 48 100 4 2 3 2 8 4 16
       ROTATE_0 example_frame).
Proof.
  assert (Hsmall : frame_small 2 2 8 4 16) by (unfold frame_small; cbn; lia).
  assert (Hi : in_int32 (4 * 16)) by (unfold in_int32; lia).
  destruct (frame_scale_down_stays_in_planes false identity_row 0 32 48 100
              4 2 3 2 8 4 16 example_frame Hsmall ltac:(lia) ltac:(lia) Hi)
    as [H12 H16].
  split; [apply H12 | apply H16];
    apply frame_buffersb_sound; vm_compute; reflexivity.
Defined.

(** ** Rows read right to left *)

Lemma load8_ok_allocated (m : mem) (p b : Z) :
  load8 m p = Ok b -> m p <> None.
Proof. unfold load8. destruct (m p); [congruence | discriminate]. Qed.

Lemma rebase_right_flipped (r : Rotate) (y u v w : Z) :
  In r [ROTATE_180; ROTATE_270; MIRROR_ROTATE_0; MIRROR_ROTATE_90] ->
  0 < w < 2 ^ 31 ->
  rebase_right r y u v w
  = Planes (y + (w - 1)) (u + (w / 2 - 1)) (v + (w / 2 - 1)) (- w).
Proof.
  intros Hr Hw.
  assert (E1 : int_sub w 1 = w - 1)
    by (apply wrap32_id; unfold in_int32; lia).
  assert (E2 : int_divc w 2 = w / 2) by (apply int_divc_nonneg; lia).
  assert (E3 : int_sub (w / 2) 1 = w / 2 - 1).
  { apply wrap32_id. unfold in_int32.
    pose proof (Z.div_pos w 2 ltac:(lia) ltac:(lia)).
    assert (w / 2 <= w) by (Z.div_mod_to_equations; lia). lia. }
  assert (E4 : int_neg w = - w) by (apply wrap32_id; unfold in_int32; lia).
  cbn [In] in Hr.
  destruct Hr as [<- | [<- | [<- | [<- | []]]]];
    cbn [rebase_right Rotate_eqb orb]; rewrite E2, E1, E3, E4; reflexivity.
Qed.

Lemma spec_dx_mirror (w : Z) : 0 < w -> spec_dx (- w) w = -16.
Proof.
  intros Hw. unfold spec_dx.
  replace (- w * 16) with (- (16 * w)) by lia.
  rewrite Z.quot_opp_l by lia. rewrite Z.quot_mul by lia. reflexivity.
Qed.

Lemma position_mirror (x : Z) :
  Z.shiftr (x * -16) 5 = - ((x + 1) / 2) /\ Z.shiftr (x * -16) 4 = - x /\
  Z.shiftr (Z.land (x * -16) 15) 2 = 0.
Proof.
  rewrite shiftr5_div, shiftr4_div.
  change 15 with (Z.ones 4). rewrite Z.land_ones by lia.
  rewrite Z.shiftr_div_pow2 by lia.
  change (2 ^ 4) with 16. change (2 ^ 2) with 4.
  repeat split; Z.div_mod_to_equations; lia.
Qed.

Lemma mirrored_pixel_reads (m : mem) (y u v w x p : Z) :
  mirrored_pixel m y u v w x = Ok p ->
  m (u + (w / 2 - 1 - (x + 1) / 2)) <> None /\
  m (v + (w / 2 - 1 - (x + 1) / 2)) <> None /\
  m (y + (w - 1 - x)) <> None /\ m (y + (w - x)) <> None.
Proof.
  unfold mirrored_pixel. intros H.
  bind_inv H as U HU. bind_inv H as V HV.
  bind_inv H as y0 Hy0. bind_inv H as y1 Hy1.
  repeat split; eapply load8_ok_allocated; eassumption.
Qed.

(** X20: a row read right to left at its own size.  For the four rotations
    that start at the right side, the frame scalers rebase the row to its
    last luma sample and to chroma sample [width / 2 - 1] and negate
    [width]; with [scaled_width = width] the general converter then steps by
    -16 and blends nothing.  Column [x] takes luma sample [width - 1 - x],
    the mirror image, but chroma sample [width / 2 - 1 - (x + 1) / 2], and
    reads the luma sample to the right as look-ahead: a completed call has
    read [y_buf[width]], [u_buf[-1]] and [v_buf[-1]], outside the row. *)
Theorem mirrored_row_at_same_size (view_rotate : Rotate)
    (y_buf u_buf v_buf rgb_buf width : Z) (m : mem) :
  In view_rotate [ROTATE_180; ROTATE_270; MIRROR_ROTATE_0; MIRROR_ROTATE_90] ->
  0 < width < 2 ^ 31 ->
  scale_row_ok m (p_y (rebase_right view_rotate y_buf u_buf v_buf width))
    (p_u (rebase_right view_rotate y_buf u_buf v_buf width))
    (p_v (rebase_right view_rotate y_buf u_buf v_buf width)) rgb_buf
    (p_extent (rebase_right view_rotate y_buf u_buf v_buf width)) width ->
  ScaleYV12ToRGB32Row
    (p_y (rebase_right view_rotate y_buf u_buf v_buf width))
    (p_u (rebase_right view_rotate y_buf u_buf v_buf width))
    (p_v (rebase_right view_rotate y_buf u_buf v_buf width)) rgb_buf
    (p_extent (rebase_right view_rotate y_buf u_buf v_buf width)) width m
  = (ps <- pixels_from (mirrored_pixel m y_buf u_buf v_buf width)
                       (Z.to_nat width) 0 ;;
     Ok (store_pixels m rgb_buf ps)) /\
  forall m',
    ScaleYV12ToRGB32Row
      (p_y (rebase_right view_rotate y_buf u_buf v_buf width))
      (p_u (rebase_right view_rotate y_buf u_buf v_buf width))
      (p_v (rebase_right view_rotate y_buf u_buf v_buf width)) rgb_buf
      (p_extent (rebase_right view_rotate y_buf u_buf v_buf width)) width m
    = Ok m' ->
    m (y_buf + width) <> None /\ m (u_buf - 1) <> None /\
    m (v_buf - 1) <> None.
Proof.
  intros Hr Hw. rewrite rebase_right_flipped by assumption.
  cbn [p_y p_u p_v p_extent]. intros Hok.
  assert (E : ScaleYV12ToRGB32Row (y_buf + (width - 1))
                (u_buf + (width / 2 - 1)) (v_buf + (width / 2 - 1)) rgb_buf
                (- width) width m
              = (ps <- pixels_from (mirrored_pixel m y_buf u_buf v_buf width)
                                   (Z.to_nat width) 0 ;;
                 Ok (store_pixels m rgb_buf ps))).
  { rewrite ScaleYV12ToRGB32Row_pure by exact Hok.
    apply pure_row_ext. intros x Hx.
    unfold spec_position. rewrite spec_dx_mirror by lia.
    unfold scale_pixel, mirrored_pixel.
    destruct (position_mirror x) as (-> & -> & ->).
    replace (u_buf + (width / 2 - 1) + - ((x + 1) / 2))
      with (u_buf + (width / 2 - 1 - (x + 1) / 2)) by lia.
    replace (v_buf + (width / 2 - 1) + - ((x + 1) / 2))
      with (v_buf + (width / 2 - 1 - (x + 1) / 2)) by lia.
    replace (y_buf + (width - 1) + - x)
      with (y_buf + (width - 1 - x)) by lia.
    replace (y_buf + (width - 1) + (- x + 1))
      with (y_buf + (width - x)) by lia.
    reflexivity. }
  split; [exact E|].
  intros m' Hm'. rewrite E in Hm'.
  bind_inv Hm' as ps Hps.
  pose proof (pixels_from_nth _ _ _ _ Hps O ltac:(lia)) as H0.
  pose proof (pixels_from_nth _ _ _ _ Hps (Z.to_nat (width - 1))
                ltac:(lia)) as H1.
  apply mirrored_pixel_reads in H0. apply mirrored_pixel_reads in H1.
  destruct H0 as (_ & _ & _ & Hy). destruct H1 as (Hu & Hv & _ & _).
  replace (0 + Z.of_nat (Z.to_nat (width - 1))) with (width - 1)
    in Hu, Hv by lia.
  replace (width - 1 + 1) with width in Hu, Hv by lia.
  replace (width / 2 - 1 - width / 2) with (- 1) in Hu, Hv by lia.
  replace (0 + Z.of_nat 0) with 0 in Hy by lia.
  rewrite Z.sub_0_r in Hy.
  repeat split; assumption.
Qed.

Lemma mirrored_row_at_same_size_witness :
  ScaleYV12ToRGB32Row
    (p_y (rebase_right MIRROR_ROTATE_0 8 36 52 4))
    (p_u (rebase_right MIRROR_ROTATE_0 8 36 52 4))
    (p_v (rebase_right MIRROR_ROTATE_0 8 36 52 4)) 100
    (p_extent (rebase_right MIRROR_ROTATE_0 8 36 52 4)) 4 example_frame
  = (ps <- pixels_from (mirrored_pixel example_frame 8 36 52 4)
                       (Z.to_nat 4) 0 ;;
     Ok (store_pixels example_frame 100 ps)) /\
  forall m',
    ScaleYV12ToRGB32Row
      (p_y (rebase_right MIRROR_ROTATE_0 8 36 52 4))
      (p_u (rebase_right MIRROR_ROTATE_0 8 36 52 4))
      (p_v (rebase_right MIRROR_ROTATE_0 8 36 52 4)) 100
      (p_extent (rebase_right MIRROR_ROTATE_0 8 36 52 4)) 4 example_frame
    = Ok m' ->
    example_frame (8 + 4) <> None /\ example_frame (36 - 1) <> None /\
    example_frame (52 - 1) <> None.
Proof.
  apply (mirrored_row_at_same_size MIRROR_ROTATE_0 8 36 52 100 4
           example_frame).
  - cbn [In]. auto.
  - lia.
  - apply scale_row_okb_sound. vm_compute. reflexivity.
Defined.

(** ** What a frame scaler overwrites *)

Lemma same_on_impl (A B : Z -> Prop) (m1 m2 : mem) :
  (forall a, B a -> A a) -> same_on A m1 m2 -> same_on B m1 m2.
Proof. intros H [Hal Hag]. split; [exact Hal | auto]. Qed.

Lemma Forall_flat_map_columns (P : Z -> Prop) (f : Z -> list Z) (n x : Z) :
  Forall P (flat_map f (columns n)) -> 0 <= x < n -> Forall P (f x).
Proof.
  rewrite !Forall_forall. intros H Hx a Ha.
  apply H, in_flat_map. exists x. split; [now apply in_columns | exact Ha].
Qed.

Lemma position_in_int32 (w sw x : Z) :
  0 < sw -> in_int32 (w * 16) -> 0 <= x < sw ->
  in_int32 (spec_position w sw x).
Proof.
  unfold in_int32, spec_position, spec_dx. intros Hs Hw Hx.
  destruct (Z_le_gt_dec 0 (w * 16)) as [Hp|Hn].
  - rewrite Z.quot_div_nonneg by lia.
    pose proof (Z.div_pos (w * 16) sw Hp Hs).
    pose proof (Z.mul_div_le (w * 16) sw Hs). nia.
  - replace (w * 16) with (- (- (w * 16))) by lia.
    rewrite Z.quot_opp_l by lia. rewrite Z.quot_div_nonneg by lia.
    pose proof (Z.div_pos (- (w * 16)) sw ltac:(lia) Hs).
    pose proof (Z.mul_div_le (- (w * 16)) sw Hs). nia.
Qed.

Lemma store_pixels_same_on (A : Z -> Prop) (m1 m2 : mem) (rgb n : Z)
    (ps : list Z) :
  length ps = Z.to_nat n -> 0 <= n ->
  (forall a, A a -> m1 a = m2 a) ->
  forall a, A a \/ rgb <= a < rgb + 4 * n ->
            store_pixels m1 rgb ps a = store_pixels m2 rgb ps a.
Proof.
  intros Hlen Hn Hag a Ha.
  destruct (Z_le_dec rgb a) as [H1|H1];
    [destruct (Z_lt_dec a (rgb + 4 * n)) as [H2|H2]|].
  - apply store_pixels_inside. rewrite Hlen, Z2Nat.id by lia. lia.
  - rewrite !store_pixels_elsewhere
      by (rewrite Hlen, Z2Nat.id by lia; unfold outside; lia).
    apply Hag. destruct Ha as [Ha|Ha]; [exact Ha | lia].
  - rewrite !store_pixels_elsewhere
      by (rewrite Hlen, Z2Nat.id by lia; unfold outside; lia).
    apply Hag. destruct Ha as [Ha|Ha]; [exact Ha | lia].
Qed.

(** A row that is the list of pixels computed from the memory it was called
    with, stored in order, overwrites its destination row. *)
Lemma pure_row_overwrites (f : mem -> Z -> result Z) (row : mem -> result mem)
    (A : Z -> Prop) (m1 m2 m1' : mem) (rgb n : Z) :
  0 < n ->
  row m1 = (ps <- pixels_from (f m1) (Z.to_nat n) 0 ;;
            Ok (store_pixels m1 rgb ps)) ->
  row m2 = (ps <- pixels_from (f m2) (Z.to_nat n) 0 ;;
            Ok (store_pixels m2 rgb ps)) ->
  (forall x, 0 <= x < n -> f m2 x = f m1 x) ->
  (forall m m', row m = Ok m' -> forall a, m' a = None <-> m a = None) ->
  same_on A m1 m2 -> row m1 = Ok m1' ->
  exists m2',
    row m2 = Ok m2' /\
    same_on (fun a => A a \/ rgb <= a < rgb + 4 * n) m1' m2'.
Proof.
  intros Hn E1 E2 Hf Hal [Hsame Hag] H1.
  pose proof (Hal _ _ H1) as Hal1.
  rewrite E1 in H1. bind_inv H1 as ps Hps. injection H1 as <-.
  assert (Hps2 : pixels_from (f m2) (Z.to_nat n) 0 = Ok ps).
  { rewrite <- Hps. apply pixels_from_ext. intros i Hi. apply Hf. lia. }
  assert (H2 : row m2 = Ok (store_pixels m2 rgb ps))
    by (rewrite E2, Hps2; reflexivity).
  exists (store_pixels m2 rgb ps). split; [exact H2|]. split.
  - intros a. rewrite Hal1, (Hal _ _ H2). apply Hsame.
  - apply store_pixels_same_on; [|lia|exact Hag].
    apply (pixels_from_length _ _ _ _ Hps).
Qed.

Lemma scale_row_overwrites (y u v rgb w sw : Z) :
  0 < sw -> in_int32 (w * 16) ->
  overwrites_row (ScaleYV12ToRGB32Row y u v rgb w sw)
    (scale_row_reads y u v w sw) rgb sw.
Proof.
  intros Hs Hi Hout A m1 m2 m1' Hsame HA H1.
  assert (Hok : forall m, writable m rgb sw -> scale_row_ok m y u v rgb w sw).
  { intros m Hw. split; [exact Hs|]. split; [exact Hi|]. split; [exact Hw|].
    intros x Hx. split; [now apply position_in_int32|].
    apply (Forall_flat_map_columns _ _ _ _ Hout Hx). }
  assert (Hw1 : writable m1 rgb sw).
  { apply ScaleYV12ToRGB32Row_writes in H1. destruct H1 as (_ & Hw & _).
    exact Hw. }
  assert (Hw2 : writable m2 rgb sw).
  { intros a Ha. destruct Hsame as [Hal _]. rewrite <- Hal. now apply Hw1. }
  apply (pure_row_overwrites
           (fun m x => scale_pixel m y u v (spec_position w sw x))
           _ A m1 m2 m1' rgb sw Hs).
  - apply ScaleYV12ToRGB32Row_pure, Hok, Hw1.
  - apply ScaleYV12ToRGB32Row_pure, Hok, Hw2.
  - intros x Hx. apply scale_pixel_agree.
    pose proof (Forall_flat_map_columns _ _ _ _ HA Hx) as Hr.
    eapply Forall_impl; [|exact Hr].
    intros a Ha. symmetry. now apply Hsame.
  - intros m m' H. apply ScaleYV12ToRGB32Row_writes in H.
    destruct H as (_ & _ & Hal). exact Hal.
  - exact Hsame.
  - exact H1.
Qed.

Lemma half_row_overwrites (y u v rgb n : Z) :
  0 < n <= 2 ^ 30 ->
  overwrites_row (HalfYV12ToRGB32Row y u v rgb n)
    (half_row_reads y u v n) rgb n.
Proof.
  intros Hn Hout A m1 m2 m1' Hsame HA H1.
  assert (Hok : forall m, writable m rgb n -> half_row_ok m y u v rgb n).
  { intros m Hw. split; [exact Hn|]. split; [exact Hw|].
    intros x Hx. apply (Forall_flat_map_columns _ _ _ _ Hout Hx). }
  assert (Hw1 : writable m1 rgb n).
  { apply HalfYV12ToRGB32Row_writes in H1. destruct H1 as (_ & Hw & _).
    exact Hw. }
  assert (Hw2 : writable m2 rgb n).
  { intros a Ha. destruct Hsame as [Hal _]. rewrite <- Hal. now apply Hw1. }
  apply (pure_row_overwrites (fun m => half_pixel m y u v)
           _ A m1 m2 m1' rgb n ltac:(lia)).
  - apply HalfYV12ToRGB32Row_pure, Hok, Hw1.
  - apply HalfYV12ToRGB32Row_pure, Hok, Hw2.
  - intros x Hx. apply half_pixel_agree.
    pose proof (Forall_flat_map_columns _ _ _ _ HA Hx) as Hr.
    eapply Forall_impl; [|exact Hr].
    intros a Ha. symmetry. now apply Hsame.
  - intros m m' H. apply HalfYV12ToRGB32Row_writes in H.
    destruct H as (_ & _ & Hal). exact Hal.
  - exact Hsame.
  - exact H1.
Qed.

Lemma overwrites_row_incl (row : mem -> result mem) (r1 r2 : list Z)
    (rgb n : Z) :
  incl r1 r2 -> overwrites_row row r1 rgb n -> overwrites_row row r2 rgb n.
Proof.
  intros Hin H Hout A m1 m2 m1' Hsame HA H1.
  apply (H (incl_Forall Hin Hout) A m1 m2 m1' Hsame (incl_Forall Hin HA) H1).
Qed.

(** The general converter at the identity ratio reads what
    [convert_reads] lists. *)
Lemma identity_reads_incl (y u v w : Z) :
  0 < w -> incl (scale_row_reads y u v w w) (convert_reads y u v w).
Proof.
  intros Hw a Ha. unfold scale_row_reads in Ha.
  apply in_flat_map in Ha. destruct Ha as (x & Hx & Ha).
  unfold columns in Hx. apply in_map_iff in Hx.
  destruct Hx as (i & <- & Hi). apply in_seq in Hi.
  unfold spec_position in Ha. rewrite spec_dx_identity in Ha by exact Hw.
  unfold scale_reads in Ha.
  destruct (position_identity (Z.of_nat i)) as (E5 & E4 & _).
  rewrite E5, E4 in Ha.
  assert (Hc : 0 <= Z.of_nat i / 2 < (w + 1) / 2)
    by (Z.div_mod_to_equations; lia).
  unfold convert_reads. rewrite !in_app_iff.
  cbn [In] in Ha. destruct Ha as [<- | [<- | [<- | [<- | []]]]].
  - right. left. apply in_map, in_columns, Hc.
  - right. right. apply in_map, in_columns, Hc.
  - left. apply in_map, in_columns. lia.
  - left. apply in_map, in_columns. lia.
Qed.

Lemma identity_row_overwrites (y u v rgb w : Z) :
  0 < w -> in_int32 (w * 16) ->
  overwrites_row (identity_row y u v rgb w) (convert_reads y u v w) rgb w.
Proof.
  intros Hw Hi. unfold identity_row.
  eapply overwrites_row_incl; [apply identity_reads_incl, Hw|].
  now apply scale_row_overwrites.
Qed.

(** Every address is in a destination row or outside all of them. *)
Lemma row_or_outside (rgb pitch sw a : Z) (n : nat) :
  (forall y, 0 <= y < Z.of_nat n -> ~ in_dest_row rgb pitch sw y a) \/
  (exists y, 0 <= y < Z.of_nat n /\ in_dest_row rgb pitch sw y a).
Proof.
  induction n as [|n [IH|(y & Hy & Hin)]].
  - left. intros y Hy. lia.
  - destruct (Z_le_dec (rgb + Z.of_nat n * pitch) a) as [H1|H1];
      [destruct (Z_lt_dec a (rgb + Z.of_nat n * pitch + 4 * sw)) as [H2|H2]|].
    + right. exists (Z.of_nat n). split; [lia|]. unfold in_dest_row. lia.
    + left. intros y Hy. destruct (Z.eq_dec y (Z.of_nat n)) as [->|Hne].
      * unfold in_dest_row. lia.
      * apply IH. lia.
    + left. intros y Hy. destruct (Z.eq_dec y (Z.of_nat n)) as [->|Hne].
      * unfold in_dest_row. lia.
      * apply IH. lia.
  - right. exists y. split; [lia | exact Hin].
Qed.

(** Rows converted in order, each overwriting its destination row and
    reading outside all of them, overwrite the destination rows. *)
Lemma spec_rows_overwrite (row : Z -> mem -> result mem)
    (reads : Z -> list Z) (rgb pitch sw sh : Z) :
  (forall y, 0 <= y < sh ->
     overwrites_row (row y) (reads y) (rgb + y * pitch) sw) ->
  (forall y, 0 <= y < sh ->
     Forall (outside_rows rgb pitch sw sh) (reads y)) ->
  forall (n : nat) (y : Z) (A : Z -> Prop) (m1 m2 m1' : mem),
    0 <= y -> y + Z.of_nat n <= sh ->
    same_on A m1 m2 ->
    (forall a, outside_rows rgb pitch sw sh a -> A a) ->
    spec_rows row n y m1 = Ok m1' ->
    exists m2',
      spec_rows row n y m2 = Ok m2' /\
      same_on (fun a => A a \/
                        exists y', y <= y' < y + Z.of_nat n /\
                                   in_dest_row rgb pitch sw y' a)
              m1' m2'.
Proof.
  intros Hrow Hreads.
  induction n as [|n IH]; intros y A m1 m2 m1' Hy Hn Hsame HA H;
    cbn [spec_rows] in *.
  - injection H as <-. exists m2. split; [reflexivity|].
    apply (same_on_impl A); [|exact Hsame].
    intros a [Ha|(y' & Hy' & _)]; [exact Ha | lia].
  - bind_inv H as m1a H1.
    assert (Hyr : 0 <= y < sh) by lia.
    assert (Hown : Forall (outside (rgb + y * pitch) sw) (reads y)).
    { eapply Forall_impl; [|apply (Hreads y Hyr)].
      intros a Ha. specialize (Ha y Hyr). unfold in_dest_row, outside in *.
      lia. }
    assert (HAr : Forall A (reads y)).
    { eapply Forall_impl; [|apply (Hreads y Hyr)]. exact HA. }
    destruct (Hrow y Hyr Hown A m1 m2 m1a Hsame HAr H1)
      as (m2a & H2 & Hsame').
    rewrite H2. cbn [bind].
    destruct (IH (y + 1) _ m1a m2a m1' ltac:(lia) ltac:(lia) Hsame'
                ltac:(intros a Ha; left; apply HA, Ha) H)
      as (m2' & H2' & Hfin).
    exists m2'. split; [exact H2'|].
    eapply same_on_impl; [|exact Hfin].
    intros a [Ha|(y' & Hy' & Hin)]; [left; left; exact Ha|].
    destruct (Z.eq_dec y' y) as [->|Hne].
    + left. right. unfold in_dest_row in Hin. lia.
    + right. exists y'. split; [lia | exact Hin].
Qed.

Lemma outside_rowsb_sound (rgb sw sh pitch a : Z) :
  outside_rowsb rgb sw sh pitch a = true -> outside_rows rgb pitch sw sh a.
Proof.
  unfold outside_rowsb, outside_rows. rewrite forallb_forall.
  intros H y Hy. specialize (H y (in_columns _ _ Hy)).
  apply outsideb_sound in H. unfold outside, in_dest_row in *. lia.
Qed.

Lemma sources_apartb_sound (rgb sw sh pitch : Z) (reads : Z -> list Z) :
  sources_apartb rgb sw sh pitch reads = true ->
  sources_apart rgb sw sh pitch reads.
Proof.
  unfold sources_apartb, sources_apart. rewrite forallb_forall.
  intros H y Hy. specialize (H y (in_columns _ _ Hy)).
  rewrite forallb_forall in H. apply Forall_forall.
  intros a Ha. apply outside_rowsb_sound, H, Ha.
Qed.

Lemma completed_dcheck {A : Type} (DEBUG a : bool) (k : result A) (r : A) :
  (_ <- DCHECK DEBUG a ;; k) = Ok r -> DEBUG = false \/ a = true.
Proof.
  unfold DCHECK. destruct DEBUG, a; cbn [andb negb bind]; intros H; auto.
  discriminate.
Qed.

(** The extent after the horizontal rebasing, for a positive width whose
    fixed-point form is an [int]. *)
Lemma rebased_extent_small (r : Rotate) (y u v width sw : Z) :
  0 < width -> in_int32 (width * 16) -> 0 < sw ->
  in_int32 (p_extent (rebase_right r y u v width) * 16) /\
  (sw = int_divc (p_extent (rebase_right r y u v width)) 2 -> sw <= 2 ^ 30).
Proof.
  unfold in_int32. intros Hw Hi Hs.
  destruct (rebase_right_extent r y u v width) as [-> | ->].
  - split; [exact Hi|]. rewrite int_divc_nonneg by lia.
    intros ->. Z.div_mod_to_equations. lia.
  - unfold int_neg. rewrite wrap32_id by (unfold in_int32; lia).
    split; [lia|]. unfold int_divc. rewrite Z.quot_opp_l by lia.
    rewrite Z.quot_div_nonneg by lia.
    rewrite wrap32_id
      by (unfold in_int32; Z.div_mod_to_equations; lia).
    intros ->. Z.div_mod_to_equations. lia.
Qed.

Section RowsOverwrite.

Variable ConvertYV12ToRGB32Row : Z -> Z -> Z -> Z -> Z -> mem -> result mem.
Variables (y_buf u_buf v_buf rgb_buf : Z).
Variables (width scaled_width : Z).
Variables (y_pitch uv_pitch rgb_pitch : Z).

Hypothesis Convert_overwrites :
  forall y u v rgb,
    overwrites_row (ConvertYV12ToRGB32Row y u v rgb scaled_width)
      (convert_reads y u v scaled_width) rgb scaled_width.

Hypothesis scaled_width_range : 0 < scaled_width < 2 ^ 31.
Hypothesis width_small : in_int32 (width * 16).
Hypothesis half_small : scaled_width = int_divc width 2 ->
                        scaled_width <= 2 ^ 30.

Lemma yv12_row_at_overwrites (luma_row chroma_row y : Z) :
  overwrites_row
    (spec_yv12_row_at ConvertYV12ToRGB32Row y_buf u_buf v_buf rgb_buf
       width scaled_width y_pitch uv_pitch rgb_pitch luma_row chroma_row y)
    (yv12_row_reads (y_buf + luma_row * y_pitch)
       (u_buf + chroma_row * uv_pitch) (v_buf + chroma_row * uv_pitch)
       width scaled_width)
    (rgb_buf + y * rgb_pitch) scaled_width.
Proof.
  unfold spec_yv12_row_at, yv12_row_reads. cbv zeta.
  destruct (scaled_width =? width).
  - rewrite size_t_of_int_id by lia. apply Convert_overwrites.
  - destruct (Z.eqb_spec scaled_width (int_divc width 2)) as [E|_].
    + apply half_row_overwrites. split; [lia | now apply half_small].
    + apply scale_row_overwrites; [lia | exact width_small].
Qed.

Lemma yv16_row_at_overwrites (luma_row chroma_row y : Z) :
  overwrites_row
    (spec_yv16_row_at y_buf u_buf v_buf rgb_buf
       width scaled_width y_pitch uv_pitch rgb_pitch luma_row chroma_row y)
    (yv16_row_reads (y_buf + luma_row * y_pitch)
       (u_buf + chroma_row * uv_pitch) (v_buf + chroma_row * uv_pitch)
       width scaled_width)
    (rgb_buf + y * rgb_pitch) scaled_width.
Proof.
  unfold spec_yv16_row_at, yv16_row_reads. cbv zeta.
  destruct (Z.eqb_spec scaled_width (int_divc width 2)) as [E|_].
  - apply half_row_overwrites. split; [lia | now apply half_small].
  - apply scale_row_overwrites; [lia | exact width_small].
Qed.

End RowsOverwrite.

(** The result of converting rows that overwrite the destination does not
    depend on what the destination rows held. *)
Lemma overwritten_rows_same (row : Z -> mem -> result mem)
    (reads : Z -> list Z) (rgb pitch sw sh : Z) (m m2 m' : mem) :
  0 <= sh ->
  (forall y, 0 <= y < sh ->
     overwrites_row (row y) (reads y) (rgb + y * pitch) sw) ->
  sources_apart rgb sw sh pitch reads ->
  same_on (outside_rows rgb pitch sw sh) m m2 ->
  spec_rows row (Z.to_nat sh) 0 m = Ok m' ->
  exists m2',
    spec_rows row (Z.to_nat sh) 0 m2 = Ok m2' /\ forall a, m2' a = m' a.
Proof.
  intros Hsh Hrow Hreads Hsame H.
  destruct (spec_rows_overwrite row reads rgb pitch sw sh Hrow Hreads
              (Z.to_nat sh) 0 _ m m2 m' ltac:(lia) ltac:(lia) Hsame
              (fun a Ha => Ha) H) as (m2' & H2 & _ & Hag).
  exists m2'. split; [exact H2|].
  intros a. symmetry. apply Hag.
  destruct (row_or_outside rgb pitch sw a (Z.to_nat sh)) as [Ho|(y & Hy & Hi)].
  - left. intros y Hy. apply Ho. lia.
  - right. exists y. split; [lia | exact Hi].
Qed.

(** C10: what a frame scaler writes.  For a call of either scaler that
    completes, and every rotation:
    - no byte outside the [4 * scaled_width] bytes at offset [y * rgb_pitch]
      of the destination rows [y] is changed: row padding, the rest of
      memory and with it the source planes keep their contents;
    - every byte of those rows is allocated;
    - every byte of those rows is overwritten, when no destination row
      holds a byte that is read and the [int] arithmetic does not overflow:
      what the rows hold after the call does not depend on what they held
      before it.  Started from a memory that differs only inside the
      destination rows, the call completes with the same memory.
    [ConvertYV12ToRGB32Row], defined outside the file, is assumed to do the
    same for its one row. *)
Theorem frame_scalers_write_only_dest (DEBUG : bool)
    (ConvertYV12ToRGB32Row : Z -> Z -> Z -> Z -> Z -> mem -> result mem)
    (y_buf u_buf v_buf rgb_buf : Z)
    (width height scaled_width scaled_height : Z)
    (y_pitch uv_pitch rgb_pitch : Z) (view_rotate : Rotate) (m : mem) :
  (forall y u v rgb w m0 m1,
      ConvertYV12ToRGB32Row y u v rgb w m0 = Ok m1 ->
      writes_row m0 m1 rgb w) ->
  (forall y u v rgb,
      overwrites_row (ConvertYV12ToRGB32Row y u v rgb scaled_width)
        (convert_reads y u v scaled_width) rgb scaled_width) ->
  (forall y, 0 <= y < scaled_height -> in_int32 (y * rgb_pitch)) ->
  0 < scaled_width < 2 ^ 31 ->
  (forall m',
      ScaleYV12ToRGB32 DEBUG ConvertYV12ToRGB32Row y_buf u_buf v_buf rgb_buf
        width height scaled_width scaled_height y_pitch uv_pitch rgb_pitch
        view_rotate m = Ok m' ->
      writes_rows m m' rgb_buf rgb_pitch scaled_width 0 scaled_height /\
      (frame_small height scaled_height y_pitch uv_pitch rgb_pitch ->
       0 < height -> 0 < width -> in_int32 (width * 16) ->
       sources_apart rgb_buf scaled_width scaled_height rgb_pitch
         (yv12_frame_reads view_rotate y_buf u_buf v_buf width height
            scaled_width scaled_height y_pitch uv_pitch) ->
       forall m2,
         same_on (outside_rows rgb_buf rgb_pitch scaled_width scaled_height)
                 m m2 ->
         exists m2',
           ScaleYV12ToRGB32 DEBUG ConvertYV12ToRGB32Row
             y_buf u_buf v_buf rgb_buf width height scaled_width
             scaled_height y_pitch uv_pitch rgb_pitch view_rotate m2
           = Ok m2' /\
           forall a, m2' a = m' a)) /\
  (forall m',
      ScaleYV16ToRGB32 DEBUG y_buf u_buf v_buf rgb_buf
        width height scaled_width scaled_height y_pitch uv_pitch rgb_pitch
        view_rotate m = Ok m' ->
      writes_rows m m' rgb_buf rgb_pitch scaled_width 0 scaled_height /\
      (frame_small height scaled_height y_pitch uv_pitch rgb_pitch ->
       0 < height -> 0 < width -> in_int32 (width * 16) ->
       sources_apart rgb_buf scaled_width scaled_height rgb_pitch
         (yv16_frame_reads view_rotate y_buf u_buf v_buf width height
            scaled_width scaled_height y_pitch uv_pitch) ->
       forall m2,
         same_on (outside_rows rgb_buf rgb_pitch scaled_width scaled_height)
                 m m2 ->
         exists m2',
           ScaleYV16ToRGB32 DEBUG y_buf u_buf v_buf rgb_buf width height
             scaled_width scaled_height y_pitch uv_pitch rgb_pitch
             view_rotate m2
           = Ok m2' /\
           forall a, m2' a = m' a)).
Proof.
  intros Hcw Hco Ho Hsw.
  assert (Hrows :
    forall m',
      ScaleYV12ToRGB32 DEBUG ConvertYV12ToRGB32Row y_buf u_buf v_buf rgb_buf
        width height scaled_width scaled_height y_pitch uv_pitch rgb_pitch
        view_rotate m = Ok m' \/
      ScaleYV16ToRGB32 DEBUG y_buf u_buf v_buf rgb_buf
        width height scaled_width scaled_height y_pitch uv_pitch rgb_pitch
        view_rotate m = Ok m' ->
      writes_rows m m' rgb_buf rgb_pitch scaled_width 0 scaled_height).
  { intros m' H. apply writes_rows_of_nat.
    destruct (Z_le_gt_dec scaled_height 0) as [Hs|Hs].
    - replace (Z.to_nat scaled_height) with O by lia.
      unfold ScaleYV12ToRGB32, ScaleYV16ToRGB32 in H.
      replace (Z.to_nat scaled_height) with O in H by lia.
      destruct H as [H|H];
        apply bind_ok_inv in H; destruct H as (_ & _ & H);
        injection H as <-; apply writes_rows_nil.
    - destruct H as [H|H].
      + unfold ScaleYV12ToRGB32 in H.
        bind_inv H as _ _.
        eapply (ScaleYV12ToRGB32_loop_writes ConvertYV12ToRGB32Row Hcw);
          [exact Ho | exact Hsw | lia | lia | exact H].
      + unfold ScaleYV16ToRGB32 in H.
        bind_inv H as _ _.
        eapply ScaleYV16ToRGB32_loop_writes;
          [exact Ho | lia | lia | exact H]. }
  split; intros m' H; (split; [apply Hrows; auto|]);
    intros Hsmall Hh Hw Hi Hap m2 Hsame.
  - assert (Hd : DEBUG = false \/ implemented view_rotate = true)
      by (unfold ScaleYV12ToRGB32 in H; apply (completed_dcheck _ _ _ _ H)).
    destruct (frame_rows_by_rotation DEBUG ConvertYV12ToRGB32Row
                y_buf u_buf v_buf rgb_buf width height scaled_width
                scaled_height y_pitch uv_pitch rgb_pitch view_rotate m
                Hsmall Hh Hd) as [E _].
    destruct (frame_rows_by_rotation DEBUG ConvertYV12ToRGB32Row
                y_buf u_buf v_buf rgb_buf width height scaled_width
                scaled_height y_pitch uv_pitch rgb_pitch view_rotate m2
                Hsmall Hh Hd) as [E2 _].
    rewrite E in H. rewrite E2.
    destruct (rebased_extent_small view_rotate y_buf u_buf v_buf width
                scaled_width Hw Hi ltac:(lia)) as [Hi' Hhalf].
    apply (overwritten_rows_same _
             (yv12_frame_reads view_rotate y_buf u_buf v_buf width height
                scaled_width scaled_height y_pitch uv_pitch)
             rgb_buf rgb_pitch scaled_width scaled_height m m2 m');
      [destruct Hsmall as (_ & Hs & _); exact Hs | | exact Hap | exact Hsame
       | exact H].
    intros y Hy. unfold yv12_frame_reads.
    apply yv12_row_at_overwrites; assumption.
  - assert (Hd : DEBUG = false \/ implemented view_rotate = true)
      by (unfold ScaleYV16ToRGB32 in H; apply (completed_dcheck _ _ _ _ H)).
    destruct (frame_rows_by_rotation DEBUG ConvertYV12ToRGB32Row
                y_buf u_buf v_buf rgb_buf width height scaled_width
                scaled_height y_pitch uv_pitch rgb_pitch view_rotate m
                Hsmall Hh Hd) as [_ E].
    destruct (frame_rows_by_rotation DEBUG ConvertYV12ToRGB32Row
                y_buf u_buf v_buf rgb_buf width height scaled_width
                scaled_height y_pitch uv_pitch rgb_pitch view_rotate m2
                Hsmall Hh Hd) as [_ E2].
    rewrite E in H. rewrite E2.
    destruct (rebased_extent_small view_rotate y_buf u_buf v_buf width
                scaled_width Hw Hi ltac:(lia)) as [Hi' Hhalf].
    apply (overwritten_rows_same _
             (yv16_frame_reads view_rotate y_buf u_buf v_buf width height
                scaled_width scaled_height y_pitch uv_pitch)
             rgb_buf rgb_pitch scaled_width scaled_height m m2 m');
      [destruct Hsmall as (_ & Hs & _); exact Hs | | exact Hap | exact Hsame
       | exact H].
    intros y Hy. unfold yv16_frame_reads.
    apply yv16_row_at_overwrites; assumption.
Qed.

Lemma frame_scalers_write_only_dest_witness :
  (writes_rows example_frame
     (get_mem (ScaleYV12ToRGB32 false identity_row 0 32 48 100 4 2 3 2 8 4 16
                 ROTATE_0 example_frame))
     100 16 3 0 2 /\
   forall m2,
     same_on (outside_rows 100 16 3 2) example_frame m2 ->
     exists m2',
       ScaleYV12ToRGB32 false identity_row 0 32 48 100 4 2 3 2 8 4 16
         ROTATE_0 m2 = Ok m2' /\
       forall a,
         m2' a
         = get_mem (ScaleYV12ToRGB32 false identity_row 0 32 48 100
                      4 2 3 2 8 4 16 ROTATE_0 example_frame) a) /\
  (writes_rows example_frame
     (get_mem (ScaleYV16ToRGB32 false 0 32 48 100 4 2 3 2 8 4 16
                 ROTATE_0 example_frame))
     100 16 3 0 2 /\
   forall m2,
     same_on (outside_rows 100 16 3 2) example_frame m2 ->
     exists m2',
       ScaleYV16ToRGB32 false 0 32 48 100 4 2 3 2 8 4 16 ROTATE_0 m2
       = Ok m2' /\
       forall a,
         m2' a
         = get_mem (ScaleYV16ToRGB32 false 0 32 48 100 4 2 3 2 8 4 16
                      ROTATE_0 example_frame) a).
Proof.
  assert (Hsmall : frame_small 2 2 8 4 16) by (unfold frame_small; cbn; lia).
  assert (Hi : in_int32 (4 * 16)) by (unfold in_int32; lia).
  destruct (frame_scalers_write_only_dest false identity_row 0 32 48 100
              4 2 3 2 8 4 16 ROTATE_0 example_frame) as [H12 H16].
  - intros y u v rgb w m0 m1 H. unfold identity_row in H.
    eapply ScaleYV12ToRGB32Row_writes, H.
  - intros y u v rgb. apply identity_row_overwrites;
      [lia | unfold in_int32; lia].
  - intros y Hy. unfold in_int32. lia.
  - lia.
  - split.
    + destruct (H12 (get_mem (ScaleYV12ToRGB32 false identity_row 0 32 48
                                100 4 2 3 2 8 4 16 ROTATE_0 example_frame)))
        as [Hw Hov]; [apply is_ok_get_mem; vm_compute; reflexivity|].
      split; [exact Hw|].
      apply Hov; [exact Hsmall | lia | lia | exact Hi |].
      apply sources_apartb_sound. vm_compute. reflexivity.
    + destruct (H16 (get_mem (ScaleYV16ToRGB32 false 0 32 48
                                100 4 2 3 2 8 4 16 ROTATE_0 example_frame)))
        as [Hw Hov]; [apply is_ok_get_mem; vm_compute; reflexivity|].
      split; [exact Hw|].
      apply Hov; [exact Hsmall | lia | lia | exact Hi |].
      apply sources_apartb_sound. vm_compute. reflexivity.
Defined.
